(** * The insults agents of deeppavlov: a shallow embedding

    Sources embedded here:
      - [deeppavlov/agents/insults/model.py]          (class [InsultsModel])
      - [deeppavlov/agents/insults/insults_agents.py] (classes
        [EnsembleInsultsAgent], [InsultsAgent], [OneEpochAgent])

    Python objects become records, Python dictionaries become [gmap string
    pyval], exceptions become the [Raise] branch of [outcome], attribute
    mutation becomes explicit state passing, and the numeric libraries
    (Keras, scikit-learn, pickle, json, the vectorizer helpers) are the
    members of the class [Backend].  Scores are binary64 floats. *)

From Stdlib Require Import Floats ZArith.
From stdpp Require Import gmap strings list.

Set Default Proof Using "Type".
Set Warnings "-inexact-float".

(** ** Python values and exceptions *)

(** The values that occur in observations, replies and option
    dictionaries. *)
Inductive pyval :=
  | PNone
  | PBool (b : bool)
  | PStr (s : string)
  | PNum (x : float)
  | PStrs (l : list string).

Abbreviation dict := (gmap string pyval).

Inductive exn :=
  | RuntimeError (msg : string)
  | IndexError
  | KeyError (key : string)
  | TypeError
  | ValueError
  | AttributeError (attr : string)
  | FileNotFoundError (path : string)
  | LibraryError (what : string).

Inductive outcome (A : Type) :=
  | Ok (a : A)
  | Raise (e : exn).
Arguments Ok {A} a.
Arguments Raise {A} e.

Definition obind {A B} (m : outcome A) (k : A → outcome B) : outcome B :=
  match m with
  | Ok a => k a
  | Raise e => Raise e
  end.

Declare Scope py_scope.
Delimit Scope py_scope with py.
Notation "'try' x <- m ; k" := (obind m (fun x => k))
  (at level 10, x name, m at level 100, k at level 200,
   format "'[v' 'try'  x  <-  m ; '/' k ']'") : py_scope.
Open Scope py_scope.

Definition is_ok {A} (m : outcome A) : bool :=
  match m with Ok _ => true | Raise _ => false end.

(** [for x in l: ...] collecting results, stopping at the first exception. *)
Fixpoint traverse {A B} (f : A → outcome B) (l : list A) : outcome (list B) :=
  match l with
  | [] => Ok []
  | a :: l' => try b <- f a; try bs <- traverse f l'; Ok (b :: bs)
  end.

(** [l[i]] on a Python list. *)
Definition index {A} (l : list A) (i : nat) : outcome A :=
  match l !! i with
  | Some a => Ok a
  | None => Raise IndexError
  end.

(** [d[k]] on a Python dictionary. *)
Definition getitem (d : dict) (k : string) : outcome pyval :=
  match d !! k with
  | Some v => Ok v
  | None => Raise (KeyError k)
  end.

(** [k in d]. *)
Definition contains (d : dict) (k : string) : bool :=
  bool_decide (is_Some (d !! k)).

(** Truth value of a Python object, as used by [not x] and [if x]. *)
Definition truthy (v : pyval) : bool :=
  match v with
  | PNone => false
  | PBool b => b
  | PStr s => negb (String.eqb s "")
  | PNum x => negb (PrimFloat.eqb x 0%float)
  | PStrs l => negb (bool_decide (l = []))
  end.

(** [a + b].  The source adds to a string or a string to a value, so one
    operand is a string wherever this is used; a sum of a string and
    anything else is a [TypeError]. *)
Definition py_add (a b : pyval) : outcome pyval :=
  match a, b with
  | PStr s, PStr t => Ok (PStr (s +:+ t))
  | PStrs s, PStrs t => Ok (PStrs (s ++ t))
  | PNum x, PNum y => Ok (PNum (x + y)%float)
  | _, _ => Raise TypeError
  end.

(** [v[0]]. *)
Definition first_item (v : pyval) : outcome pyval :=
  match v with
  | PStrs (x :: _) => Ok (PStr x)
  | PStrs [] => Raise IndexError
  | PStr (String c _) => Ok (PStr (String c ""))
  | PStr "" => Raise IndexError
  | _ => Raise TypeError
  end.

(** [v == 'Insult']. *)
Definition is_insult (v : pyval) : bool :=
  match v with
  | PStr s => String.eqb s "Insult"
  | _ => false
  end.

(** ** What is handed to the numeric libraries *)

(** Array-like arguments of the library calls: [AQuestions] is the list
    of question texts of a batch or, for the neural family, the embedding
    tensor [create_batch] made of it; [ALabels] a label vector; [AItem] a
    single element obtained by unpacking a list; [APair] a tuple
    [(questions, y)] passed undivided. *)
Inductive arr :=
  | AQuestions (qs : list pyval)
  | ALabels (y : list Z)
  | AItem (v : pyval)
  | APair (qs : list pyval) (y : list Z).

(** What [_batchify] returns: [None], the questions, or the tuple
    [(questions, y)]. *)
Inductive batchv :=
  | BNone
  | BQuestions (qs : list pyval)
  | BPair (qs : list pyval) (y : list Z).

(** Calls of the adapter's two operations, in the order they are made. *)
Inductive call :=
  | CPredict (model_name : string) (batch : batchv)
  | CUpdate (model_name : string) (batch : batchv).


(** ** State, exceptions and the call history *)

Record res (S A : Type) := Res {
  out : outcome A;
  st : S;
  calls : list call
}.
Arguments Res {S A} out st calls.
Arguments out {S A} r.
Arguments st {S A} r.
Arguments calls {S A} r.

(** A method of an object with state [S]: an exception keeps the
    attribute assignments made before it. *)
Definition M (S A : Type) : Type := S → res S A.

Definition ret {S A} (a : A) : M S A := λ s, Res (Ok a) s [].

Definition bind {S A B} (m : M S A) (k : A → M S B) : M S B := λ s,
  match m s with
  | Res (Ok a) s1 c1 =>
      match k a s1 with
      | Res o s2 c2 => Res o s2 (c1 ++ c2)
      end
  | Res (Raise e) s1 c1 => Res (Raise e) s1 c1
  end.

Definition lift {S A} (o : outcome A) : M S A := λ s, Res o s [].
Definition raise {S A} (e : exn) : M S A := lift (Raise e).
Definition get {S} : M S S := λ s, Res (Ok s) s [].
Definition modify {S} (f : S → S) : M S unit := λ s, Res (Ok tt) (f s) [].
Definition emit {S} (c : call) : M S unit := λ s, Res (Ok tt) s [c].

(** Run a method of a sub-object held in an attribute. *)
Definition zoom {S T A} (get : S → T) (set : T → S → S) (m : M T A) : M S A :=
  λ s, let r := m (get s) in Res (out r) (set (st r) s) (calls r).

Notation "'do' x <- m ; k" := (bind m (fun x => k))
  (at level 10, x name, m at level 100, k at level 200,
   format "'[v' 'do'  x  <-  m ; '/' k ']'") : py_scope.
Notation "m ;; k" := (bind m (fun _ => k))
  (at level 100, k at level 200, right associativity) : py_scope.

(** [for x in l: f(x)], stopping at the first exception. *)
Fixpoint for_each {S A B} (f : A → M S B) (l : list A) : M S unit :=
  match l with
  | [] => ret tt
  | x :: rest => f x;; for_each f rest
  end.

(** ** The numeric libraries *)

Inductive family := nn | ngrams.

(** Everything the adapter delegates: Keras models ([Est] for the neural
    family), scikit-learn classifiers ([Est] for the n-gram family), the
    fitted vectorizers and selectors ([Vec]), the embedding dictionary
    ([Emb]), the metrics, and Python's [int]. *)
Class Backend := {
  Est : Type;
  Vec : Type;
  Emb : Type;
  Feat : Type;
  py_int : string → outcome Z;
  (* InsultsModel.log_reg_model, svc_model, cnn_word_model, lstm_word_model:
     constructors of library objects from the option dictionary *)
  log_reg_model : Est;
  svc_model : Est;
  cnn_word_model : list Z → dict → outcome Est;
  lstm_word_model : dict → outcome Est;
  compile : Est → dict → outcome Est;
  (* InsultsModel.create_batch after embedding_dict.add_items: the
     embedding tensor of the questions *)
  create_batch : Emb → dict → list pyval → outcome (list pyval);
  (* Keras: predict_on_batch(...).reshape(-1), and train_on_batch, which
     returns the trained model with the loss and the accuracy *)
  predict_on_batch : Est → arr → outcome (list float);
  train_on_batch : Est → arr → arr → outcome (Est * float * float);
  load_weights : Est → Est → outcome Est;
  (* utils.vectorize_select_from_data *)
  vectorize_select_from_data : arr → option Vec → option Vec → outcome Feat;
  (* scikit-learn: fit and predict_proba(x)[:,1] *)
  fit : Est → Feat → arr → outcome Est;
  predict_proba : Est → Feat → outcome (list float);
  (* metrics *)
  binary_crossentropy : arr → list float → outcome float;
  binary_accuracy : arr → list float → outcome float;
  roc_auc_score : arr → list float → outcome float;
  (* EmbeddingsDict(opt, dim) *)
  EmbeddingsDict : dict → option pyval → outcome Emb
}.

(** ** model.py: class InsultsModel *)

Module InsultsModel.
Section Methods.
Context `{Backend}.

(** The attributes of an [InsultsModel] object. *)
Record t := mk {
  model_name : string;
  word_index : pyval;
  embedding_dict : option Emb;
  opt : dict;
  kernel_sizes : list Z;
  pool_sizes : list Z;
  model_type : option family;
  from_saved : bool;
  num_ngrams : pyval;
  vectorizers : option Vec;
  selectors : option Vec;
  (* [None]: the attribute [model] was never assigned *)
  model : option Est;
  n_examples : nat;
  updates : nat;
  train_loss : float;
  train_acc : float;
  train_auc : float
}.

Definition set_model (e : option Est) (m : t) : t :=
  mk (model_name m) (word_index m) (embedding_dict m) (opt m)
    (kernel_sizes m) (pool_sizes m) (model_type m) (from_saved m)
    (num_ngrams m) (vectorizers m) (selectors m) e
    (n_examples m) (updates m) (train_loss m) (train_acc m) (train_auc m).

Definition set_opt (o : dict) (m : t) : t :=
  mk (model_name m) (word_index m) (embedding_dict m) o
    (kernel_sizes m) (pool_sizes m) (model_type m) (from_saved m)
    (num_ngrams m) (vectorizers m) (selectors m) (model m)
    (n_examples m) (updates m) (train_loss m) (train_acc m) (train_auc m).

Definition set_from_saved (b : bool) (m : t) : t :=
  mk (model_name m) (word_index m) (embedding_dict m) (opt m)
    (kernel_sizes m) (pool_sizes m) (model_type m) b
    (num_ngrams m) (vectorizers m) (selectors m) (model m)
    (n_examples m) (updates m) (train_loss m) (train_acc m) (train_auc m).

Definition set_vectorizers (v s : option Vec) (m : t) : t :=
  mk (model_name m) (word_index m) (embedding_dict m) (opt m)
    (kernel_sizes m) (pool_sizes m) (model_type m) (from_saved m)
    (num_ngrams m) v s (model m)
    (n_examples m) (updates m) (train_loss m) (train_acc m) (train_auc m).

Definition set_num_ngrams (n : pyval) (m : t) : t :=
  mk (model_name m) (word_index m) (embedding_dict m) (opt m)
    (kernel_sizes m) (pool_sizes m) (model_type m) (from_saved m)
    n (vectorizers m) (selectors m) (model m)
    (n_examples m) (updates m) (train_loss m) (train_acc m) (train_auc m).

Definition set_train_loss (x : float) (m : t) : t :=
  mk (model_name m) (word_index m) (embedding_dict m) (opt m)
    (kernel_sizes m) (pool_sizes m) (model_type m) (from_saved m)
    (num_ngrams m) (vectorizers m) (selectors m) (model m)
    (n_examples m) (updates m) x (train_acc m) (train_auc m).

Definition set_train_acc (x : float) (m : t) : t :=
  mk (model_name m) (word_index m) (embedding_dict m) (opt m)
    (kernel_sizes m) (pool_sizes m) (model_type m) (from_saved m)
    (num_ngrams m) (vectorizers m) (selectors m) (model m)
    (n_examples m) (updates m) (train_loss m) x (train_auc m).

Definition set_train_auc (x : float) (m : t) : t :=
  mk (model_name m) (word_index m) (embedding_dict m) (opt m)
    (kernel_sizes m) (pool_sizes m) (model_type m) (from_saved m)
    (num_ngrams m) (vectorizers m) (selectors m) (model m)
    (n_examples m) (updates m) (train_loss m) (train_acc m) x.

Definition set_updates (n : nat) (m : t) : t :=
  mk (model_name m) (word_index m) (embedding_dict m) (opt m)
    (kernel_sizes m) (pool_sizes m) (model_type m) (from_saved m)
    (num_ngrams m) (vectorizers m) (selectors m) (model m)
    (n_examples m) n (train_loss m) (train_acc m) (train_auc m).

(** [self.model], an [AttributeError] when it was never assigned. *)
Definition the_model (m : t) : outcome Est :=
  match model m with
  | Some e => Ok e
  | None => Raise (AttributeError "model")
  end.

(** [_build_ex]: [None] for an observation without text. *)
Definition _build_ex (ex : dict) : option dict :=
  match ex !! "text" with
  | None => None
  | Some t =>
      let inputs : dict := <["question" := t]> ∅ in
      match ex !! "labels" with
      | Some l => Some (<["labels" := l]> inputs)
      | None => Some inputs
      end
  end.

(** ['Insult' if ex > 0.5 else 'Non-insult']. *)
Definition label_of (ex : float) : string :=
  if PrimFloat.ltb 0.5%float ex then "Insult" else "Non-insult".

(** [_predictions2text]; iterating over [None] is a [TypeError]. *)
Definition _predictions2text (predictions : option (list float)) : outcome (list string) :=
  match predictions with
  | Some l => Ok (map label_of l)
  | None => Raise TypeError
  end.

Definition _text2predictions (predictions : list pyval) : list Z :=
  map (λ ex, if is_insult ex then 1%Z else 0%Z) predictions.

(** [1 if ex['labels'][0] == 'Insult' else 0]. *)
Definition label_bit (ex : dict) : outcome Z :=
  try l <- getitem ex "labels";
  try l0 <- first_item l;
  Ok (if is_insult l0 then 1%Z else 0%Z).

(** The part of [_batchify] the two families share: the tuple
    [(x, y)] when the first example has two keys, [x] alone otherwise. *)
Definition with_labels (batch : list dict) (x : list pyval) : outcome batchv :=
  try b0 <- index batch 0;
  if (size b0 =? 2)%nat then
    try y <- traverse label_bit batch;
    Ok (BPair x y)
  else Ok (BQuestions x).

Definition _batchify (self : t) (batch : list dict) : outcome batchv :=
  match model_type self with
  | Some nn =>
      try question <- traverse (λ ex, getitem ex "question") batch;
      match embedding_dict self with
      | None => Raise (AttributeError "add_items")
      | Some emb =>
          try embedding_batch <- create_batch emb (opt self) question;
          with_labels batch embedding_batch
      end
  | Some ngrams =>
      try question <- traverse (λ ex, getitem ex "question") batch;
      with_labels batch question
  | None => Ok BNone
  end.

(** The argument of a library call that receives the batch undivided. *)
Definition as_arr (b : batchv) : outcome arr :=
  match b with
  | BNone => Raise TypeError
  | BQuestions qs => Ok (AQuestions qs)
  | BPair qs y => Ok (APair qs y)
  end.

(** [x, y = batch]. *)
Definition unpack2 (b : batchv) : outcome (arr * arr) :=
  match b with
  | BNone => Raise TypeError
  | BPair qs y => Ok (AQuestions qs, ALabels y)
  | BQuestions [q0; q1] => Ok (AItem q0, AItem q1)
  | BQuestions _ => Raise ValueError
  end.

Definition predict (batch : batchv) : M t (option (list float)) :=
  do self <- get;
  emit (CPredict (model_name self) batch);;
  match model_type self with
  | Some nn =>
      do est <- lift (the_model self);
      do x <- lift (as_arr batch);
      do y_pred <- lift (predict_on_batch est x);
      ret (Some y_pred)
  | Some ngrams =>
      do b <- lift (as_arr batch);
      do x <- lift (vectorize_select_from_data b (vectorizers self) (selectors self));
      do est <- lift (the_model self);
      do predictions <- lift (predict_proba est x);
      ret (Some predictions)
  | None => ret None
  end.

Definition update_nn (x y : arr) : M t (list float) :=
  do self <- get;
  do est <- lift (the_model self);
  do r <- lift (train_on_batch est x y);
  modify (set_model (Some r.1.1));;
  modify (set_train_loss r.1.2);;
  modify (set_train_acc r.2);;
  do y_pred <- lift (predict_on_batch r.1.1 x);
  do auc <- lift (roc_auc_score y y_pred);
  modify (set_train_auc auc);;
  ret y_pred.

Definition update_ngrams (x y : arr) : M t (list float) :=
  do self <- get;
  do x <- lift (vectorize_select_from_data x (vectorizers self) (selectors self));
  do est <- lift (the_model self);
  do est' <- lift (fit est x y);
  modify (set_model (Some est'));;
  do y_pred <- lift (predict_proba est' x);
  do loss <- lift (binary_crossentropy y y_pred);
  modify (set_train_loss loss);;
  do acc <- lift (binary_accuracy y y_pred);
  modify (set_train_acc acc);;
  do auc <- lift (roc_auc_score y y_pred);
  modify (set_train_auc auc);;
  ret y_pred.

Definition update (batch : batchv) : M t (option (list float)) :=
  do self <- get;
  emit (CUpdate (model_name self) batch);;
  do xy <- lift (unpack2 batch);
  do y_pred <-
    match model_type self with
    | Some nn => do p <- update_nn xy.1 xy.2; ret (Some p)
    | Some ngrams => do p <- update_ngrams xy.1 xy.2; ret (Some p)
    | None => ret None
    end;
  modify (λ m, set_updates (updates m + 1) m);;
  ret y_pred.

(** *** Persistence: [__init__], [_init_from_scratch], [save],
    [_init_from_saved] *)

(** The files the adapter reads and writes: the option dictionary as
    JSON, a pickled classifier, a file of network weights; [OtherFile]
    is any other content (a vectorizer file, an empty file). *)
Inductive blob :=
  | JsonFile (d : dict)
  | PickleFile (e : Est)
  | WeightsFile (e : Est)
  | OtherFile.

Abbreviation files := (gmap string blob).

(** [os.path.isfile]. *)
Definition isfile (fs : files) (path : string) : bool :=
  bool_decide (is_Some (fs !! path)).

(** [fname + suffix], a [TypeError] unless [fname] is a string. *)
Definition path_add (fname : pyval) (suffix : string) : outcome string :=
  match fname with
  | PStr s => Ok (s +:+ suffix)
  | _ => Raise TypeError
  end.

(** [s.split(' ')]. *)
Fixpoint split_space (s : string) : list string :=
  match s with
  | EmptyString => [EmptyString]
  | String c s' =>
      if Ascii.eqb c (Ascii.ascii_of_nat 32) then EmptyString :: split_space s'
      else match split_space s' with
           | x :: xs => String c x :: xs
           | [] => [String c EmptyString]
           end
  end.

(** [[int(x) for x in opt[key].split(' ')]]. *)
Definition sizes (opt : dict) (key : string) : outcome (list Z) :=
  try v <- getitem opt key;
  match v with
  | PStr s => traverse py_int (split_space s)
  | _ => Raise (AttributeError "split")
  end.

(** The model family of a name; [None] for a name that is none of the
    four. *)
Definition family_of (model_name : string) : option family :=
  if String.eqb model_name "cnn_word" || String.eqb model_name "lstm_word"
  then Some nn
  else if String.eqb model_name "log_reg" || String.eqb model_name "svc"
  then Some ngrams
  else None.

Definition is_family (f : family) (model_type : option family) : bool :=
  match f, model_type with
  | nn, Some nn => true
  | ngrams, Some ngrams => true
  | _, _ => false
  end.

(** The nine files tested for the n-gram family. *)
Definition ngrams_artifacts (f : string) : list string :=
  [f +:+ "_opt.json"; f +:+ "_cls.pkl"; f +:+ "_ngrams_vect_special.bin";
   f +:+ "_ngrams_vect_general_0.bin"; f +:+ "_ngrams_vect_general_1.bin";
   f +:+ "_ngrams_vect_general_2.bin"; f +:+ "_ngrams_vect_general_3.bin";
   f +:+ "_ngrams_vect_general_4.bin"; f +:+ "_ngrams_vect_general_5.bin"].

(** The condition of the first [if] of [__init__], past the test of
    [model_file]. *)
Definition artifacts_present (fs : files) (f : string) (model_type : option family) : bool :=
  (isfile fs (f +:+ ".h5") && is_family nn model_type)
  || (forallb (isfile fs) (ngrams_artifacts f) && is_family ngrams model_type).

Definition saved_at (fs : files) (opt : dict) (model_type : option family)
    : outcome bool :=
  match opt !! "model_file" with
  | None => Ok false
  | Some v =>
      if truthy v then
        match v with
        | PStr f => Ok (artifacts_present fs f model_type)
        | _ => Raise TypeError
        end
      else Ok false
  end.

Definition read_json (fs : files) (path : string) : outcome dict :=
  match fs !! path with
  | None => Raise (FileNotFoundError path)
  | Some (JsonFile d) => Ok d
  | Some _ => Raise ValueError
  end.

Definition read_pickle (fs : files) (path : string) : outcome Est :=
  match fs !! path with
  | None => Raise (FileNotFoundError path)
  | Some (PickleFile e) => Ok e
  | Some _ => Raise (LibraryError "pickle.load")
  end.

Definition read_weights (fs : files) (path : string) : outcome Est :=
  match fs !! path with
  | Some (WeightsFile e) => Ok e
  | _ => Raise (LibraryError "load_weights")
  end.

(** The network of a neural adapter, built from [self.opt]. *)
Definition build_network (self : t) : outcome t :=
  try self <-
    (if String.eqb (model_name self) "cnn_word" then
       try e <- cnn_word_model (kernel_sizes self) (opt self);
       Ok (set_model (Some e) self)
     else Ok self);
  if String.eqb (model_name self) "lstm_word" then
    try e <- lstm_word_model (opt self);
    Ok (set_model (Some e) self)
  else Ok self.

(** [optimizer = Adam(...); self.model.compile(...)]. *)
Definition compile_network (self : t) : outcome t :=
  try e <- the_model self;
  try e' <- compile e (opt self);
  Ok (set_model (Some e') self).

Definition _init_from_scratch (self : t) : outcome t :=
  let self := if String.eqb (model_name self) "log_reg"
              then set_model (Some log_reg_model) self else self in
  let self := if String.eqb (model_name self) "svc"
              then set_model (Some svc_model) self else self in
  try self <- build_network self;
  if is_family nn (model_type self) then compile_network self else Ok self.

Definition _init_from_saved (fs : files) (fname : pyval) (self : t) : outcome t :=
  try path <- path_add fname "_opt.json";
  try o <- read_json fs path;
  let self := set_opt o self in
  match model_type self with
  | Some nn =>
      try self <- build_network self;
      try self <- compile_network self;
      try h5 <- path_add fname ".h5";
      try w <- read_weights fs h5;
      try e <- the_model self;
      try e' <- load_weights e w;
      Ok (set_model (Some e') self)
  | Some ngrams =>
      try pkl <- path_add fname "_cls.pkl";
      try e <- read_pickle fs pkl;
      Ok (set_model (Some e) self)
  | None => Ok self
  end.

(** The constructor.  The counters and the training statistics start at
    zero; an attribute that the path taken never assigns ([num_ngrams],
    [vectorizers] and [selectors] outside the n-gram family, [model] for
    a name outside the four) is [None]. *)
Definition __init__ (fs : files) (model_name : string) (word_index : pyval)
    (embedding_dict : option Emb) (opt_arg : dict) : outcome t :=
  try kernel_sizes <- sizes opt_arg "kernel_sizes_cnn";
  try pool_sizes <- sizes opt_arg "pool_sizes_cnn";
  try seed <- getitem opt_arg "model_seed";
  let model_type := family_of model_name in
  try emb <-
    (if is_family nn model_type then
       match embedding_dict with
       | Some e => Ok (Some e)
       | None =>
           try dim <- getitem opt_arg "embedding_dim";
           try e <- EmbeddingsDict opt_arg (Some dim);
           Ok (Some e)
       end
     else Ok None);
  let self := mk model_name word_index emb opt_arg kernel_sizes pool_sizes model_type
                false PNone None None None 0 0 0 0 0 in
  try use_saved <- saved_at fs opt_arg model_type;
  try self <-
    (if use_saved then
       try f <- getitem opt_arg "model_file";
       _init_from_saved fs f (set_from_saved true self)
     else if truthy (default PNone (opt_arg !! "pretrained_model")) then
       try f <- getitem opt_arg "pretrained_model";
       _init_from_saved fs f (set_from_saved true self)
     else _init_from_scratch self);
  try no_cuda <- getitem (opt self) "no_cuda";
  Ok (set_opt (<["cuda" := PBool (negb (truthy no_cuda))]> (opt self)) self).

(** [save]: the files after the call, and its outcome.  The argument is
    [None] when the call gives none; an argument that is Python's [None]
    is replaced by the option [model_file] as well.  The files are those
    the adapter itself writes and reads back.  [save_items] is a method of
    the embedding dictionary: of that call, made for the neural family
    only, the definition has the failure on a dictionary that is [None],
    and not the file of items the method stores for [EmbeddingsDict]. *)
Definition save (fname : option pyval) (self : t) (fs : files) : outcome unit * files :=
  let fname := match fname with
               | None | Some PNone => default PNone (opt self !! "model_file")
               | Some f => f
               end in
  if truthy fname then
    match fname with
    | PStr f =>
        let r1 :=
          if is_family nn (model_type self) then
            match model self, embedding_dict self with
            | None, _ => (Raise (AttributeError "model"), fs)
            | Some e, None =>
                (Raise (AttributeError "save_items"),
                 <[f +:+ ".h5" := WeightsFile e]> fs)
            | Some e, Some _ => (Ok tt, <[f +:+ ".h5" := WeightsFile e]> fs)
            end
          else (Ok tt, fs) in
        match r1 with
        | (Raise e, fs1) => (Raise e, fs1)
        | (Ok _, fs1) =>
            let r2 :=
              if is_family ngrams (model_type self) then
                match model self with
                | None => (Raise (AttributeError "model"),
                           <[f +:+ "_cls.pkl" := OtherFile]> fs1)
                | Some e => (Ok tt, <[f +:+ "_cls.pkl" := PickleFile e]> fs1)
                end
              else (Ok tt, fs1) in
            match r2 with
            | (Raise e, fs2) => (Raise e, fs2)
            | (Ok _, fs2) => (Ok tt, <[f +:+ "_opt.json" := JsonFile (opt self)]> fs2)
            end
        end
    | _ => (Raise TypeError, fs)
    end
  else (Ok tt, fs).

End Methods.
End InsultsModel.

(** The file system, as far as the adapter sees it. *)
Abbreviation files := (gmap string InsultsModel.blob).

(** ** insults_agents.py: what the three agent classes share *)

Module Shell.

(** The attributes every agent has: [id], [episode_done], [is_shared]
    and [observation] ([None] until the first [observe]). *)
Record t := mk {
  agent_id : string;
  episode_done : pyval;
  is_shared : bool;
  observation : option dict
}.

Definition set_observation (o : option dict) (s : t) : t :=
  mk (agent_id s) (episode_done s) (is_shared s) o.
Definition set_episode_done (v : pyval) (s : t) : t :=
  mk (agent_id s) v (is_shared s) (observation s).

(** The newline character. *)
Definition nl : string := String (Ascii.ascii_of_nat 10) "".

(** [self.observation['text']]: subscripting [None] is a [TypeError]. *)
Definition prev_text (prev : option dict) : outcome pyval :=
  match prev with
  | None => Raise TypeError
  | Some d => getitem d "text"
  end.

(** [observe], written the same in [EnsembleInsultsAgent],
    [BoostEnsembleInsultsAgent] and [InsultsAgent].  [copy.deepcopy] is
    the identity on immutable values. *)
Definition observe (new_observation : dict) : M t dict :=
  do self <- get;
  do new_observation <-
    (if negb (truthy (episode_done self)) then
       do prev_dialogue <- lift (prev_text (observation self));
       do a <- lift (py_add prev_dialogue (PStr nl));
       do t <- lift (getitem new_observation "text");
       do joined <- lift (py_add a t);
       ret (<["text" := joined]> new_observation)
     else ret new_observation);
  modify (set_observation (Some new_observation));;
  do done <- lift (getitem new_observation "episode_done");
  modify (set_episode_done done);;
  ret new_observation.

(** The guard that opens every [batch_act]. *)
Definition guard_shared {S} (shared : bool) : M S unit :=
  if shared then raise (RuntimeError "Parallel act is not supported.")
  else ret tt.

End Shell.

(** [[{'id': self.getID()} for _ in range(batch_size)]]. *)
Definition initial_replies (self_id : string) (batch_size : nat) : list dict :=
  replicate batch_size (<["id" := PStr self_id]> ∅).

(** [[i for i in range(batch_size) if examples[i] is not None]]. *)
Definition valid_indices {A} (batch_size : nat) (examples : list (option A)) : list nat :=
  List.filter (λ i, match examples !! i with Some (Some _) => true | _ => false end)
    (seq 0 batch_size).

(** [[ex for ex in examples if ex is not None]]. *)
Definition not_none {A} (examples : list (option A)) : list A :=
  omap (λ ex, ex) examples.

(** [len(prediction)] and [prediction[i]] need an array. *)
Definition the_array {A} (p : option (list A)) : outcome (list A) :=
  match p with
  | Some l => Ok l
  | None => Raise TypeError
  end.

(** Call a method of an adapter that the caller holds by reference and
    that the method leaves as it is. *)
Definition call_on {S T A} (obj : T) (m : M T A) : M S A :=
  λ s, let r := m obj in Res (out r) s (calls r).

(** ** insults_agents.py: class EnsembleInsultsAgent
    ([BoostEnsembleInsultsAgent] has the same text) *)

Module EnsembleInsultsAgent.
Section Methods.
Context `{Backend}.

Record t := mk {
  base : Shell.t;
  word_dict : pyval;
  num_ngrams : pyval;
  models : list InsultsModel.t;
  model_coefs : list float;
  n_examples : nat
}.

Definition set_base (b : Shell.t) (a : t) : t :=
  mk b (word_dict a) (num_ngrams a) (models a) (model_coefs a) (n_examples a).

Definition observe (observation : dict) : M t dict :=
  zoom base set_base (Shell.observe observation).

Definition _predictions2text := InsultsModel._predictions2text.
Definition _build_ex := InsultsModel._build_ex.

(** The loop of [weighted_sum] over [range(len(predictions))]. *)
Fixpoint weighted_sum_loop (coefs predictions : list float) (js : list nat)
    (result : float) : outcome float :=
  match js with
  | [] => Ok result
  | j :: js' =>
      try c <- index coefs j;
      try p <- index predictions j;
      weighted_sum_loop coefs predictions js' (result + c * p)%float
  end.

(** Python's [sum] on a list of floats. *)
Definition py_sum (l : list float) : float :=
  fold_left PrimFloat.add l 0%float.

Definition weighted_sum (self : t) (predictions : list float) : outcome float :=
  try result <- weighted_sum_loop (model_coefs self) predictions
                  (seq 0 (length predictions)) 0%float;
  Ok (result / py_sum (model_coefs self))%float.

(** [for i in range(len(prediction)):
       predictions[valid_inds[i]].append(prediction[i])]. *)
Fixpoint scatter (valid_inds : list nat) (prediction : list float) (ix : list nat)
    (predictions : list (list float)) : outcome (list (list float)) :=
  match ix with
  | [] => Ok predictions
  | i :: ix' =>
      try vi <- index valid_inds i;
      try row <- index predictions vi;
      try p <- index prediction i;
      scatter valid_inds prediction ix' (<[vi := (row ++ [p])%list]> predictions)
  end.

(** The loop of [batch_act] over the adapters. *)
Fixpoint models_loop (observations : list dict) (ms : list InsultsModel.t)
    (predictions : list (list float)) : M t (list (list float)) :=
  match ms with
  | [] => ret predictions
  | model :: rest =>
      let batch_size := length observations in
      let examples := map InsultsModel._build_ex observations in
      let valid_inds := valid_indices batch_size examples in
      let examples := not_none examples in
      do batch <- lift (InsultsModel._batchify model examples);
      do prediction <- call_on model (InsultsModel.predict batch);
      do prediction <- lift (the_array prediction);
      do predictions <- lift (scatter valid_inds prediction
                                (seq 0 (length prediction)) predictions);
      models_loop observations rest predictions
  end.

(** The loop of [batch_act] over the batch positions. *)
Fixpoint reply_loop (self : t) (predictions : list (list float)) (ix : list nat)
    (batch_reply : list dict) : outcome (list dict) :=
  match ix with
  | [] => Ok batch_reply
  | i :: ix' =>
      try row <- index predictions i;
      if (length row =? 0)%nat then reply_loop self predictions ix' batch_reply
      else
        try prediction <- weighted_sum self row;
        try texts <- _predictions2text (Some [prediction]);
        try text <- index texts 0;
        try r <- index batch_reply i;
        reply_loop self predictions ix'
          (<[i := <["score" := PNum prediction]> (<["text" := PStr text]> r)]> batch_reply)
  end.

Definition batch_act (observations : list dict) : M t (list dict) :=
  do self <- get;
  Shell.guard_shared (Shell.is_shared (base self));;
  let batch_size := length observations in
  let batch_reply := initial_replies (Shell.agent_id (base self)) batch_size in
  let predictions := replicate batch_size [] in
  do predictions <- models_loop observations (models self) predictions;
  lift (reply_loop self predictions (seq 0 batch_size) batch_reply).

(** [act]: [batch_act] on the stored observation.  An agent that never
    observed holds [None], on which the first adapter's [_build_ex]
    fails. *)
Definition act : M t dict :=
  do self <- get;
  match Shell.observation (base self) with
  | Some o => do r <- batch_act [o]; lift (index r 0)
  | None =>
      Shell.guard_shared (Shell.is_shared (base self));;
      match models self with
      | [] => ret (<["id" := PStr (Shell.agent_id (base self))]> ∅)
      | _ :: _ => raise TypeError
      end
  end.

End Methods.
End EnsembleInsultsAgent.

(** ** insults_agents.py: class InsultsAgent *)

Module InsultsAgent.
Section Methods.
Context `{Backend}.

Record t := mk {
  base : Shell.t;
  model_name : string;
  word_dict : pyval;
  num_ngrams : pyval;
  (* [None]: the attribute was never assigned (an agent made in shared
     mode returns from [__init__] before it is) *)
  model : option InsultsModel.t;
  n_examples : nat;
  opt : dict
}.

Definition set_base (b : Shell.t) (a : t) : t :=
  mk b (model_name a) (word_dict a) (num_ngrams a) (model a) (n_examples a) (opt a).
Definition set_model (m : option InsultsModel.t) (a : t) : t :=
  mk (base a) (model_name a) (word_dict a) (num_ngrams a) m (n_examples a) (opt a).
Definition set_n_examples (n : nat) (a : t) : t :=
  mk (base a) (model_name a) (word_dict a) (num_ngrams a) (model a) n (opt a).

Definition observe (observation : dict) : M t dict :=
  zoom base set_base (Shell.observe observation).

Definition _build_ex := InsultsModel._build_ex.
Definition _predictions2text := InsultsModel._predictions2text.
Definition _text2predictions := InsultsModel._text2predictions.

(** [self.model.<method>(...)]. *)
Definition on_model {A} (m : M InsultsModel.t A) : M t A := λ s,
  match model s with
  | Some mdl => let r := m mdl in Res (out r) (set_model (Some (st r)) s) (calls r)
  | None => Res (Raise (AttributeError "model")) s []
  end.

(** [for i in range(len(predictions)):
       batch_reply[valid_inds[i]]['text'] = predictions_text[i]
       batch_reply[valid_inds[i]]['score'] = predictions[i]]. *)
Fixpoint fill (valid_inds : list nat) (predictions_text : list string)
    (predictions : list float) (ix : list nat) (batch_reply : list dict)
    : outcome (list dict) :=
  match ix with
  | [] => Ok batch_reply
  | i :: ix' =>
      try text <- index predictions_text i;
      try vi <- index valid_inds i;
      try r <- index batch_reply vi;
      let batch_reply := <[vi := <["text" := PStr text]> r]> batch_reply in
      try p <- index predictions i;
      try vi <- index valid_inds i;
      try r <- index batch_reply vi;
      fill valid_inds predictions_text predictions ix'
        (<[vi := <["score" := PNum p]> r]> batch_reply)
  end.

(** The four lines that end both branches of [batch_act]. *)
Definition write_replies (valid_inds : list nat) (predictions : option (list float))
    (batch_reply : list dict) : outcome (list dict) :=
  try predictions_text <- _predictions2text predictions;
  try predictions <- the_array predictions;
  fill valid_inds predictions_text predictions (seq 0 (length predictions)) batch_reply.

Definition batch_act (observations : list dict) : M t (list dict) :=
  do self <- get;
  Shell.guard_shared (Shell.is_shared (base self));;
  let batch_size := length observations in
  let batch_reply := initial_replies (Shell.agent_id (base self)) batch_size in
  let examples := map _build_ex observations in
  let valid_inds := valid_indices batch_size examples in
  let examples := not_none examples in
  do o0 <- lift (index observations 0);
  if contains o0 "labels" then
    modify (λ a, set_n_examples (n_examples a + length examples) a);;
    do batch <- on_model (do m <- get; lift (InsultsModel._batchify m examples));
    do predictions <- on_model (InsultsModel.update batch);
    lift (write_replies valid_inds predictions batch_reply)
  else
    do batch <- on_model (do m <- get; lift (InsultsModel._batchify m examples));
    do predictions <- on_model (InsultsModel.predict batch);
    lift (write_replies valid_inds predictions batch_reply).

(** [act]: [batch_act] on the stored observation; on an agent that never
    observed, [_build_ex] fails on [None]. *)
Definition act : M t dict :=
  do self <- get;
  match Shell.observation (base self) with
  | Some o => do r <- batch_act [o]; lift (index r 0)
  | None => Shell.guard_shared (Shell.is_shared (base self));; raise TypeError
  end.

End Methods.
End InsultsAgent.

(** ** insults_agents.py: class OneEpochAgent(InsultsAgent) *)

Module OneEpochAgent.
Section Methods.
Context `{Backend}.

(** [observations_] is all the train data; an entry that is the empty
    dictionary also stands for the empty string of a never-observed
    agent. *)
Record t := mk {
  super : InsultsAgent.t;
  observations_ : list dict
}.

Definition set_super (a : InsultsAgent.t) (s : t) : t := mk a (observations_ s).
Definition set_observations_ (l : list dict) (s : t) : t := mk (super s) l.

Definition observe (observation : dict) : M t dict :=
  zoom super set_super (InsultsAgent.observe observation).

(** [self.model.predict(batch).reshape(-1)]. *)
Definition reshaped (p : option (list float)) : outcome (option (list float)) :=
  match p with
  | Some l => Ok (Some l)
  | None => Raise (AttributeError "reshape")
  end.

Definition batch_act (observations : list dict) : M t (list dict) :=
  modify (λ s, set_observations_ (observations_ s ++ observations)%list s);;
  do self <- get;
  Shell.guard_shared (Shell.is_shared (InsultsAgent.base (super self)));;
  let batch_size := length observations in
  let batch_reply :=
    initial_replies (Shell.agent_id (InsultsAgent.base (super self))) batch_size in
  let examples := map InsultsAgent._build_ex observations in
  let valid_inds := valid_indices batch_size examples in
  let examples := not_none examples in
  do o0 <- lift (index observations 0);
  if contains o0 "labels" then
    zoom super set_super
      (modify (λ a, InsultsAgent.set_n_examples
                      (InsultsAgent.n_examples a + length examples) a));;
    ret batch_reply
  else
    do batch <- zoom super set_super
      (InsultsAgent.on_model (do m <- get; lift (InsultsModel._batchify m examples)));
    do predictions <- zoom super set_super
      (InsultsAgent.on_model (InsultsModel.predict batch));
    do predictions <- lift (reshaped predictions);
    lift (InsultsAgent.write_replies valid_inds predictions batch_reply).

(** The inherited [act].  Until the first [observe] the stored
    observation is the empty string that [__init__] assigns, which
    answers the two membership tests of [batch_act] as the empty
    dictionary does. *)
Definition act : M t dict :=
  do self <- get;
  let o := default ∅ (Shell.observation (InsultsAgent.base (super self))) in
  do r <- batch_act [o];
  lift (index r 0).

End Methods.
End OneEpochAgent.

(** ** numpy, as far as [create_batch] calls it

    [np.asarray] makes an array of a list: the array holds the entries of
    the list in their order, or the call raises [ValueError].  Which lists
    it refuses is numpy's matter: of entries that differ in shape one
    version makes an array of objects where another raises.  The two tests
    are those of the two calls of [create_batch], on the row of a sentence
    and on the list of the rows. *)
Class Numpy := {
  row_accepted : list (option (list float)) → bool;
  batch_accepted : list (list (option (list float))) → bool
}.

(** ** model.py: the remaining methods of class InsultsModel *)

Module InsultsModelMore.

(** A word vector; [embedding_dict.tok2emb] maps a token to its vector. *)
Abbreviation vector := (list float).

(** [self.opt[key]] for the two integer options [create_batch] reads. *)
Definition opt_int (opt : gmap string Z) (key : string) : outcome Z :=
  match opt !! key with
  | Some n => Ok n
  | None => Raise (KeyError key)
  end.

(** [sen.split(' ')], an [AttributeError] on what is not a string. *)
Definition split (sen : pyval) : outcome (list string) :=
  match sen with
  | PStr s => Ok (InsultsModel.split_space s)
  | _ => Raise (AttributeError "split")
  end.

(** [tokens[:n]]: a negative [n] counts from the end. *)
Definition slice_to {A} (n : Z) (l : list A) : list A :=
  if (n <? 0)%Z then take (Z.to_nat (Z.of_nat (length l) + n)) l
  else take (Z.to_nat n) l.

(** [np.zeros(n)]. *)
Definition zeros (n : Z) : outcome vector :=
  if (n <? 0)%Z then Raise ValueError else Ok (replicate (Z.to_nat n) 0%float).

(** [self.embedding_dict.tok2emb.get(tok)]. *)
Definition tok2emb_get (embedding_dict : option (gmap string vector)) (tok : string)
    : outcome (option vector) :=
  match embedding_dict with
  | None => Raise (AttributeError "tok2emb")
  | Some tok2emb => Ok (tok2emb !! tok)
  end.

(** [np.asarray(l)], with the test of the call. *)
Definition asarray {A} (accepted : list A → bool) (l : list A) : outcome (list A) :=
  if accepted l then Ok l else Raise ValueError.

Section CreateBatch.
Context `{Numpy}.

(** The body of the loop of [create_batch]: the row of one sentence. *)
Definition embeddings_of (opt : gmap string Z)
    (embedding_dict : option (gmap string vector)) (sen : pyval)
    : outcome (list (option vector)) :=
  try tokens <- split sen;
  let tokens := List.filter (λ el, negb (String.eqb el "")) tokens in
  try n <- opt_int opt "max_sequence_length";
  let tokens := if (n <? Z.of_nat (length tokens))%Z then slice_to n tokens
                else tokens in
  try embeddings <- traverse (tok2emb_get embedding_dict) tokens;
  try embeddings <-
    (if (Z.of_nat (length tokens) <? n)%Z then
       try pads <- traverse (λ _ : nat, try d <- opt_int opt "embedding_dim"; zeros d)
                     (seq 0 (Z.to_nat (n - Z.of_nat (length tokens))));
       Ok (map Some pads ++ embeddings)
     else Ok embeddings);
  asarray row_accepted embeddings.

(** [create_batch]; [opt] is the option dictionary, of which the method
    reads the integers [max_sequence_length] and [embedding_dim]. *)
Definition create_batch (opt : gmap string Z)
    (embedding_dict : option (gmap string vector)) (sentence_li : list pyval)
    : outcome (list (list (option vector))) :=
  try embeddings_batch <- traverse (embeddings_of opt embedding_dict) sentence_li;
  asarray batch_accepted embeddings_batch.

End CreateBatch.

Section Methods.
Context `{Backend}.

Definition set_embedding_dict (e : option Emb) (m : InsultsModel.t) : InsultsModel.t :=
  InsultsModel.mk (InsultsModel.model_name m) (InsultsModel.word_index m) e
    (InsultsModel.opt m) (InsultsModel.kernel_sizes m) (InsultsModel.pool_sizes m)
    (InsultsModel.model_type m) (InsultsModel.from_saved m)
    (InsultsModel.num_ngrams m) (InsultsModel.vectorizers m)
    (InsultsModel.selectors m) (InsultsModel.model m) (InsultsModel.n_examples m)
    (InsultsModel.updates m) (InsultsModel.train_loss m) (InsultsModel.train_acc m)
    (InsultsModel.train_auc m).

(** [shutdown]. *)
Definition shutdown (self : InsultsModel.t) : InsultsModel.t :=
  set_embedding_dict None self.

End Methods.
End InsultsModelMore.

(** ** utils.py, as far as the agents call it, and Python's [float]

    [create_vectorizer_selector] fits the vectorizers and selectors on the
    collected data and writes their files; [get_vectorizer_selector] reads
    them back; [py_float] is [float] on a string. *)
Class Utils `{Backend} := {
  create_vectorizer_selector :
    list pyval → list Z → pyval → list Z → list Z → list string →
    files → outcome unit * files;
  get_vectorizer_selector : files → pyval → pyval → outcome (Vec * Vec);
  py_float : string → outcome float
}.

(** The seven vectorizer files of a path, by the names under which
    [InsultsModel.__init__] looks for them. *)
Definition vectorizer_files (f : string) : list string :=
  [f +:+ "_ngrams_vect_special.bin"; f +:+ "_ngrams_vect_general_0.bin";
   f +:+ "_ngrams_vect_general_1.bin"; f +:+ "_ngrams_vect_general_2.bin";
   f +:+ "_ngrams_vect_general_3.bin"; f +:+ "_ngrams_vect_general_4.bin";
   f +:+ "_ngrams_vect_general_5.bin"].

(** ** insults_agents.py: the remaining methods of class InsultsAgent *)

(** A value of the report: a count or a metric. *)
Inductive number :=
  | Int (n : nat)
  | Float (x : float).

Module InsultsAgentMore.
Section Methods.
Context `{Backend}.

Definition report (self : InsultsAgent.t) : outcome (gmap string number) :=
  match InsultsAgent.model self with
  | None => Raise (AttributeError "model")
  | Some model =>
      let report : gmap string number := ∅ in
      let report := <["updates" := Int (InsultsModel.updates model)]> report in
      let report := <["n_examples" := Int (InsultsAgent.n_examples self)]> report in
      let report := <["loss" := Float (InsultsModel.train_loss model)]> report in
      let report := <["accuracy" := Float (InsultsModel.train_acc model)]> report in
      let report := <["auc" := Float (InsultsModel.train_auc model)]> report in
      Ok report
  end.

(** [save]: [self.model.save()]. *)
Definition save (self : InsultsAgent.t) (fs : files) : outcome unit * files :=
  match InsultsAgent.model self with
  | None => (Raise (AttributeError "model"), fs)
  | Some model => InsultsModel.save None model fs
  end.

End Methods.

Section Construct.
Context `{Utils}.

(** [__init__].  The framework's [Agent.__init__] keeps a copy of [opt]
    as [self.opt] and sets [self.observation] to [None]; [shared] says
    whether the argument [shared] is given.  A shared agent returns
    before its other attributes are assigned: they are left at [None],
    zero and the empty name here, and no method reads them.  The two
    [if]s on the name assign [word_dict], [embedding_dict] and
    [num_ngrams]; under a name that is none of the four, or that is not a
    string, [self.word_dict] has not been assigned when it is read. *)
Definition __init__ (fs : files) (opt : dict) (shared : bool) : outcome InsultsAgent.t :=
  let base := Shell.mk "InsultsAgent" (PBool true) shared None in
  if shared then Ok (InsultsAgent.mk base "" PNone PNone None 0 opt)
  else
    try model_name <- getitem opt "model_name";
    match model_name with
    | PStr name =>
        match InsultsModel.family_of name with
        | None => Raise (AttributeError "word_dict")
        | Some family =>
            try embedding_dict <-
              match family with
              | nn => try e <- EmbeddingsDict opt (opt !! "embedding_dim"); Ok (Some e)
              | ngrams => Ok None
              end;
            let word_dict := PNone in
            let num_ngrams := match family with nn => PNone | ngrams => PNum 6 end in
            try model <- InsultsModel.__init__ fs name word_dict embedding_dict opt;
            try model <-
              (if InsultsModel.from_saved model
                  && InsultsModel.is_family ngrams (InsultsModel.model_type model)
               then
                 try path <- getitem opt "model_file";
                 try vs <- get_vectorizer_selector fs path num_ngrams;
                 Ok (InsultsModel.set_vectorizers (Some vs.1) (Some vs.2) model)
               else Ok model);
            Ok (InsultsAgent.mk base name word_dict num_ngrams (Some model) 0 opt)
        end
    | _ => Raise (AttributeError "word_dict")
    end.

End Construct.
End InsultsAgentMore.

(** ** insults_agents.py: [OneEpochAgent.save] *)

Module OneEpochAgentMore.
Section Methods.
Context `{Utils}.

(** The state [save] works on: the agent and the files. *)
Abbreviation world := (OneEpochAgent.t * files)%type.

Definition set_agent (a : OneEpochAgent.t) (w : world) : world := (a, w.2).

(** A method of [self.model]. *)
Definition on_model {A} (m : M InsultsModel.t A) : M world A :=
  zoom fst set_agent (zoom OneEpochAgent.super OneEpochAgent.set_super
                        (InsultsAgent.on_model m)).

(** A function that writes files. *)
Definition on_files (f : files → outcome unit * files) : M world unit :=
  λ w, Res (f w.2).1 (w.1, (f w.2).2) [].

(** [[observation['text'] for observation in self.observations_
      if 'text' in observation.keys()]]. *)
Definition train_data_of (observations_ : list dict) : list pyval :=
  omap (λ observation : dict, observation !! "text") observations_.

(** [[observation['labels'][0] for observation in self.observations_
      if 'labels' in observation.keys()]]. *)
Definition first_labels_of (observations_ : list dict) : outcome (list pyval) :=
  traverse (λ observation, try l <- getitem observation "labels"; first_item l)
    (List.filter (λ observation, contains observation "labels") observations_).

(** [save]: the entries of [observations_] are read as dictionaries. *)
Definition save : M world unit :=
  do w <- get;
  let self := OneEpochAgent.super w.1 in
  if negb (Shell.is_shared (InsultsAgent.base self)) then
    let train_data := train_data_of (OneEpochAgent.observations_ w.1) in
    do labels <- lift (first_labels_of (OneEpochAgent.observations_ w.1));
    let train_labels := InsultsAgent._text2predictions labels in
    on_model (modify (InsultsModel.set_num_ngrams (InsultsAgent.num_ngrams self)));;
    do model <- on_model get;
    if negb (InsultsModel.from_saved model) then
      do path <- lift (getitem (InsultsAgent.opt self) "model_file");
      on_files (create_vectorizer_selector train_data train_labels path
                  [1; 2; 3; 4; 5; 3]%Z [2000; 4000; 100; 1000; 1000; 2000]%Z
                  ["word"; "word"; "word"; "char"; "char"; "char"]);;
      do w <- get;
      do vs <- lift (get_vectorizer_selector w.2 path (InsultsAgent.num_ngrams self));
      on_model (modify (InsultsModel.set_vectorizers (Some vs.1) (Some vs.2)));;
      on_model (InsultsModel.update (BPair train_data train_labels));;
      do model <- on_model get;
      on_files (InsultsModel.save None model)
    else ret tt
  else ret tt.

End Methods.
End OneEpochAgentMore.

(** ** insults_agents.py: the constructor of [EnsembleInsultsAgent]
    ([BoostEnsembleInsultsAgent] has the same text) *)

Module EnsembleInsultsAgentMore.
Section Construct.
Context `{Utils}.

(** The items of [for x in v]: the entries of a list, the characters of
    a string; another value cannot be iterated. *)
Definition py_iter (v : pyval) : outcome (list string) :=
  match v with
  | PStrs l => Ok l
  | PStr s => Ok (map (λ c, String c "") (String.list_ascii_of_string s))
  | _ => Raise TypeError
  end.

(** [v[i]]. *)
Definition py_index (v : pyval) (i : nat) : outcome pyval :=
  match v with
  | PStrs l => try x <- index l i; Ok (PStr x)
  | PStr s => try c <- index (String.list_ascii_of_string s) i; Ok (PStr (String c ""))
  | _ => Raise TypeError
  end.

(** What the loop of [__init__] carries from one name to the next: the
    option dictionary it writes to, the values last assigned to
    [embedding_dict] and [self.num_ngrams] ([None] before the first of
    the four names has been met, when [self.word_dict] is not assigned
    either), and [self.models]. *)
Record loop_state := LoopState {
  loop_opt : dict;
  loop_assigned : option (option Emb * pyval);
  loop_models : list InsultsModel.t
}.

(** The body of the loop, for the [i]-th name. *)
Definition add_model (fs : files) (i : nat) (model_name : string) (s : loop_state)
    : outcome loop_state :=
  let opt := loop_opt s in
  try model_file <- py_index (default (PStrs []) (opt !! "model_files")) i;
  let opt := <["pretrained_model" := model_file]> opt in
  try assigned <-
    match InsultsModel.family_of model_name with
    | Some nn =>
        try e <- EmbeddingsDict opt (opt !! "embedding_dim");
        Ok (Some (Some e, PNone))
    | Some ngrams => Ok (Some (None, PNum 6))
    | None => Ok (loop_assigned s)
    end;
  match assigned with
  | None => Raise (AttributeError "word_dict")
  | Some (embedding_dict, num_ngrams) =>
      try model <- InsultsModel.__init__ fs model_name PNone embedding_dict opt;
      try model <-
        match InsultsModel.family_of model_name with
        | Some ngrams =>
            try vs <- get_vectorizer_selector fs model_file num_ngrams;
            Ok (InsultsModel.set_vectorizers (Some vs.1) (Some vs.2) model)
        | _ => Ok model
        end;
      Ok (LoopState opt assigned (loop_models s ++ [model]))
  end.

(** The loop over [enumerate(names)], from the index [i] on. *)
Fixpoint add_models (fs : files) (i : nat) (names : list string) (s : loop_state)
    : outcome loop_state :=
  match names with
  | [] => Ok s
  | model_name :: rest =>
      try s <- add_model fs i model_name s;
      add_models fs (S i) rest s
  end.

(** [__init__]; the framework's [Agent.__init__] sets [self.observation]
    to [None].  A shared agent returns before its other attributes are
    assigned: they are left empty here, and no method reads them.  So is
    [self.num_ngrams] when there is no name. *)
Definition __init__ (fs : files) (opt : dict) (shared : bool)
    : outcome EnsembleInsultsAgent.t :=
  let base := Shell.mk "InsultsAgent" (PBool true) shared None in
  if shared then Ok (EnsembleInsultsAgent.mk base PNone PNone [] [] 0)
  else
    try names <- py_iter (default (PStrs []) (opt !! "model_names"));
    try s <- add_models fs 0 names (LoopState opt None []);
    try coefs <- py_iter (default (PStrs []) (loop_opt s !! "model_coefs"));
    try model_coefs <- traverse py_float coefs;
    Ok (EnsembleInsultsAgent.mk base PNone
          (match loop_assigned s with Some (_, n) => n | None => PNone end)
          (loop_models s) model_coefs 0).

End Construct.
End EnsembleInsultsAgentMore.

(** ** A small backend for running the agents

    An estimator is the list of scores it gives, one after the other,
    to the examples of any batch; vectorizing with no vectorizers or no
    selectors fails, as iterating over [None] does. *)

Module Demo.

Definition questions_of (a : arr) : list pyval :=
  match a with
  | AQuestions qs => qs
  | APair qs _ => qs
  | AItem v => [v]
  | ALabels _ => []
  end.

Definition scores_for (e : list float) (n : nat) : list float := take n e.

Definition backend : Backend := {|
  Est := list float;
  Vec := unit;
  Emb := unit;
  Feat := list pyval;
  py_int := λ s, if String.eqb s "3" then Ok 3%Z else Raise ValueError;
  log_reg_model := [];
  svc_model := [];
  cnn_word_model := λ _ _, Ok [];
  lstm_word_model := λ _, Ok [];
  compile := λ e _, Ok e;
  create_batch := λ _ _ qs, Ok qs;
  predict_on_batch := λ e a, Ok (scores_for e (length (questions_of a)));
  train_on_batch := λ e x y, Ok (e, 0%float, 0%float);
  load_weights := λ e w, Ok w;
  vectorize_select_from_data := λ a v s,
    match v, s with
    | Some _, Some _ => Ok (questions_of a)
    | _, _ => Raise TypeError
    end;
  fit := λ e x y, Ok e;
  predict_proba := λ e x, Ok (scores_for e (length x));
  binary_crossentropy := λ _ _, Ok 0%float;
  binary_accuracy := λ _ _, Ok 0%float;
  roc_auc_score := λ _ _, Ok 0%float;
  EmbeddingsDict := λ _ _, Ok tt
|}.

(** A ready n-gram adapter that scores its examples with [scores]. *)
Definition adapter (scores : list float) : @InsultsModel.t backend :=
  @InsultsModel.mk backend "log_reg" PNone None ∅ [] [] (Some ngrams) true PNone
    (Some tt) (Some tt) (Some scores) 0 0 0 0 0.

Definition fresh_shell : Shell.t := Shell.mk "InsultsAgent" (PBool true) false None.
Definition shared_shell : Shell.t := Shell.mk "InsultsAgent" (PBool true) true None.

Definition ensemble (adapters : list (@InsultsModel.t backend)) (coefs : list float)
    : @EnsembleInsultsAgent.t backend :=
  @EnsembleInsultsAgent.mk backend fresh_shell PNone (PNum 6) adapters coefs 0.

Definition agent (scores : list float) : @InsultsAgent.t backend :=
  @InsultsAgent.mk backend fresh_shell "log_reg" PNone (PNum 6)
    (Some (adapter scores)) 0 ∅.

Definition shared_agent : @InsultsAgent.t backend :=
  @InsultsAgent.mk backend shared_shell "log_reg" PNone PNone None 0 ∅.

(** Observations: a turn with text, with or without labels and with or
    without the end-of-episode flag, and a turn without text. *)
Definition turn (text : string) (done : bool) : dict :=
  <["text" := PStr text]> (<["episode_done" := PBool done]> ∅).
Definition labelled_turn (text label : string) : dict :=
  <["labels" := PStrs [label]]> (turn text true).
Definition textless : dict := <["episode_done" := PBool true]> ∅.
Definition textless_labelled : dict := <["labels" := PStrs ["Insult"]]> textless.

Definition shared_one_epoch : @OneEpochAgent.t backend :=
  @OneEpochAgent.mk backend shared_agent [].

(** An option dictionary with what the constructor reads, and the same
    with a model file path. *)
Definition base_opt : dict :=
  <["kernel_sizes_cnn" := PStr "3 3"]> (<["pool_sizes_cnn" := PStr "3"]>
    (<["model_seed" := PNum 23]> (<["no_cuda" := PBool true]> ∅))).
Definition file_opt : dict := <["model_file" := PStr "m"]> base_opt.
Definition pretrained_opt : dict := <["pretrained_model" := PStr "m"]> base_opt.

(** A trained n-gram adapter configured with the model file [m]. *)
Definition trained : @InsultsModel.t backend :=
  @InsultsModel.mk backend "log_reg" PNone None
    (<["cuda" := PBool false]> file_opt) [3; 3]%Z [3]%Z (Some ngrams) false PNone
    (Some tt) (Some tt) (Some [0.9]%float) 0 1 0 0 0.

(** Every file the n-gram family asks for under the path [m], except
    the pickled classifier. *)
Definition all_but_classifier : gmap string (@InsultsModel.blob backend) :=
  <["m_opt.json" := @InsultsModel.JsonFile backend (<["cuda" := PBool false]> file_opt)]>
    (list_to_map
       (map (λ p, (p, @InsultsModel.OtherFile backend))
          ["m_ngrams_vect_special.bin"; "m_ngrams_vect_general_0.bin";
           "m_ngrams_vect_general_1.bin"; "m_ngrams_vect_general_2.bin";
           "m_ngrams_vect_general_3.bin"; "m_ngrams_vect_general_4.bin";
           "m_ngrams_vect_general_5.bin"])).

(** The adapter under construction when [_init_from_saved] is called. *)
Definition under_construction : @InsultsModel.t backend :=
  @InsultsModel.mk backend "log_reg" PNone None pretrained_opt [3; 3]%Z [3]%Z
    (Some ngrams) true PNone None None None 0 0 0 0 0.

End Demo.

(** ** Further values for running the code *)

Module DemoMore.

(** The nine files of the n-gram family under the path [m], with the
    classifier of [Demo.trained] pickled. *)
Definition saved_files : gmap string (@InsultsModel.blob Demo.backend) :=
  <["m_cls.pkl" := @InsultsModel.PickleFile Demo.backend [0.9]%float]>
    Demo.all_but_classifier.

(** A weights file alone. *)
Definition weights_only : gmap string (@InsultsModel.blob Demo.backend) :=
  <["m.h5" := @InsultsModel.WeightsFile Demo.backend []]> ∅.

(** An agent of the one-epoch kind that is not shared and has collected
    nothing yet; its adapter is new. *)
Definition fresh_adapter : @InsultsModel.t Demo.backend :=
  @InsultsModel.mk Demo.backend "log_reg" PNone None
    (<["cuda" := PBool false]> Demo.file_opt) [3; 3]%Z [3]%Z (Some ngrams) false PNone
    None None (Some [0.9; 0.2]%float) 0 0 0 0 0.

Definition one_epoch : @OneEpochAgent.t Demo.backend :=
  @OneEpochAgent.mk Demo.backend
    (@InsultsAgent.mk Demo.backend Demo.fresh_shell "log_reg" PNone (PNum 6)
       (Some fresh_adapter) 0 Demo.file_opt) [].

(** Helpers that write the seven vectorizer files of a path and read
    them back. *)
#[export] Instance utils : @Utils Demo.backend := {|
  create_vectorizer_selector := λ _ _ path _ _ _ fs,
    match path with
    | PStr f =>
        (Ok tt,
         fold_right (λ p acc, <[p := @InsultsModel.OtherFile Demo.backend]> acc) fs
           (vectorizer_files f))
    | _ => (Raise TypeError, fs)
    end;
  get_vectorizer_selector := λ fs path _,
    match path with
    | PStr f =>
        if forallb (λ p, bool_decide (is_Some (fs !! p))) (vectorizer_files f)
        then Ok (tt, tt)
        else Raise (FileNotFoundError (f +:+ "_ngrams_vect_special.bin"))
    | _ => Raise TypeError
    end;
  py_float := λ s,
    if String.eqb s "1" then Ok 1%float
    else if String.eqb s "3" then Ok 3%float
    else Raise ValueError
|}.

(** The common dimension of the vectors of a row, for a row of vectors
    of one dimension. *)
Definition row_dim (row : list (option (list float))) : option nat :=
  match row with
  | Some v :: rest =>
      if forallb (λ x, match x with
                       | Some w => (length w =? length v)%nat
                       | None => false
                       end) rest
      then Some (length v) else None
  | _ => None
  end.

(** A numpy that makes an array of objects of a row whose entries differ
    in shape, and refuses a list of rows that are not all of one shape. *)
#[export] Instance numpy : Numpy := {|
  row_accepted := λ _, true;
  batch_accepted := λ rows,
    match rows with
    | [] => true
    | row :: rest => forallb (λ r, bool_decide (row_dim r = row_dim row)) rest
    end
|}.

(** The agent [one_epoch] after it has collected two labelled turns. *)
Definition collected : @OneEpochAgent.t Demo.backend :=
  @OneEpochAgent.mk Demo.backend (OneEpochAgent.super one_epoch)
    [Demo.labelled_turn "you fool" "Insult"; Demo.labelled_turn "hello" "no"].

(** The two files [InsultsModel.save] writes for [Demo.trained]. *)
Definition model_files : gmap string (@InsultsModel.blob Demo.backend) :=
  (@InsultsModel.save Demo.backend None Demo.trained ∅).2.

(** Options that name the model and a pretrained model path, and none
    that names a model file path. *)
Definition pretrained_agent_opt : dict :=
  <["model_name" := PStr "log_reg"]> Demo.pretrained_opt.

(** Options that name the model and the model file path [m]. *)
Definition agent_opt : dict := <["model_name" := PStr "log_reg"]> Demo.file_opt.


Definition ensemble_opt_short : dict :=
  <["model_names" := PStrs ["log_reg"; "svc"]]> (<["model_files" := PStrs ["m"]]>
    (<["model_coefs" := PStrs ["1"; "3"]]> Demo.base_opt)).

(** Options of an ensemble whose second model name is none of the
    four. *)
Definition ensemble_opt_foo : dict :=
  <["model_names" := PStrs ["log_reg"; "foo"]]> (<["model_files" := PStrs ["m"; "m"]]>
    (<["model_coefs" := PStrs ["1"; "3"]]> Demo.base_opt)).

End DemoMore.

(** * The vocabulary of the statements

    Definitions used to state the properties: predicates on observations
    and replies, the recursive descriptions of the loops of [batch_act],
    and the weighted average in the spec's words. *)

Section Vocabulary.
Context `{Backend}.

(** An observation that keeps the episode open. *)
Definition keeps_open (o : dict) : Prop :=
  ∃ v, o !! "episode_done" = Some v ∧ truthy v = false.

(** The observation carries the text [t]. *)
Definition has_text (o : dict) (t : string) : Prop :=
  o !! "text" = Some (PStr t).

(** The stored observation holds [text] and the example built from it
    asks [text]. *)
Definition stores_text (s : Shell.t) (text : string) : Prop :=
  ∃ d ex, Shell.observation s = Some d ∧
          d !! "text" = Some (PStr text) ∧
          InsultsModel._build_ex d = Some ex ∧
          ex !! "question" = Some (PStr text).

(** The example batch of a list of observations, and the positions of
    the observations it was built from ([examples] and [valid_inds] in
    [batch_act]). *)
Definition examples_of (observations : list dict) : list dict :=
  not_none (map InsultsModel._build_ex observations).

Definition valid_of (observations : list dict) : list nat :=
  valid_indices (length observations) (map InsultsModel._build_ex observations).

(** The valid positions, by recursion on the examples. *)
Fixpoint valid_from {A} (s : nat) (examples : list (option A)) : list nat :=
  match examples with
  | [] => []
  | Some _ :: rest => s :: valid_from (S s) rest
  | None :: rest => valid_from (S s) rest
  end.

(** The adapter operation a batch is handed to. *)
Definition step (train : bool) (batch : batchv) : M InsultsModel.t (option (list float)) :=
  if train then InsultsModel.update batch else InsultsModel.predict batch.

(** Replies that agree on the agent identifier, position by position. *)
Definition same_ids (rs rs' : list dict) : Prop :=
  Forall2 (λ r r' : dict, r' !! "id" = r !! "id") rs rs'.

(** Positions after an entry inserted at position [p] move up by one. *)
Definition shift (p j : nat) : nat := if j <? p then j else S j.

(** [l] with [x] inserted at position [p]. *)
Definition insert_at {A} (p : nat) (x : A) (l : list A) : list A :=
  take p l ++ x :: drop p l.

(** The outcome of a computation on replies, with one more reply
    inserted at position [p]. *)
Definition with_reply_at (p : nat) (r0 : dict) (o : outcome (list dict))
    : outcome (list dict) :=
  match o with
  | Ok rs => Ok (insert_at p r0 rs)
  | Raise e => Raise e
  end.

(** The table of contributed scores with one more, empty, row. *)
Definition with_row_at (p : nat) (o : outcome (list (list float)))
    : outcome (list (list float)) :=
  match o with
  | Ok table => Ok (insert_at p [] table)
  | Raise e => Raise e
  end.

(** The weighted average in the spec's words: the sum of the products
    weight times score over the sum of the weights, the sums taken from
    the left as Python takes them. *)
Definition weighted_average (weights scores : list float) : float :=
  (fold_left PrimFloat.add (zip_with PrimFloat.mul weights scores) 0
   / fold_left PrimFloat.add weights 0)%float.

(** One adapter's scores added to the table, by recursion on the
    examples: the next score goes to the next position with an example. *)
Fixpoint spread {A} (examples : list (option A)) (prediction : list float)
    (table : list (list float)) : list (list float) :=
  match examples, table with
  | Some _ :: examples', row :: table' =>
      match prediction with
      | p :: prediction' => (row ++ [p]) :: spread examples' prediction' table'
      | [] => row :: table'
      end
  | None :: examples', row :: table' => row :: spread examples' prediction table'
  | _, _ => table
  end.

(** The table after the adapters whose score lists are [predictions]:
    the row of a position with an example holds the next score of every
    adapter that still has one. *)
Fixpoint rows {A} (examples : list (option A)) (predictions : list (list float))
    : list (list float) :=
  match examples with
  | [] => []
  | Some _ :: examples' => omap head predictions :: rows examples' (map tail predictions)
  | None :: examples' => [] :: rows examples' predictions
  end.

(** The scatter loop on pairs of a position and a score. *)
Fixpoint scatter_pairs (ps : list (nat * float)) (table : list (list float))
    : outcome (list (list float)) :=
  match ps with
  | [] => Ok table
  | (vi, p) :: ps' =>
      try row <- index table vi;
      scatter_pairs ps' (<[vi := row ++ [p]]> table)
  end.

(** The adapter builds its batch from [examples] and predicts the
    scores [P] for it. *)
Definition answers (mdl : InsultsModel.t) (examples : list dict) (P : list float) : Prop :=
  ∃ batch, InsultsModel._batchify mdl examples = Ok batch ∧
           out (InsultsModel.predict batch mdl) = Ok (Some P).

(** ... and gives no more scores than there are examples. *)
Definition answers_within (examples : list dict) (mdl : InsultsModel.t)
    (P : list float) : Prop :=
  answers mdl examples P ∧ length P ≤ length examples.

(** The reply of one position: untouched when no adapter contributed,
    else completed with the weighted sum of the row and its label. *)
Definition reply_for (self : EnsembleInsultsAgent.t) (row : list float) (r : dict)
    : outcome dict :=
  if (length row =? 0)%nat then Ok r
  else
    try prediction <- EnsembleInsultsAgent.weighted_sum self row;
    Ok (<["score" := PNum prediction]>
          (<["text" := PStr (InsultsModel.label_of prediction)]> r)).

Fixpoint replies_for (self : EnsembleInsultsAgent.t) (table : list (list float))
    (replies : list dict) : outcome (list dict) :=
  match table, replies with
  | row :: table', r :: replies' =>
      try r' <- reply_for self row r;
      try rs <- replies_for self table' replies';
      Ok (r' :: rs)
  | _, _ => Ok []
  end.

(** The reply of a position whose row of contributed scores is [row]. *)
Definition completed (coefs row : list float) (r : dict) : dict :=
  if (length row =? 0)%nat then r
  else <["score" := PNum (weighted_average coefs row)]>
         (<["text" := PStr (InsultsModel.label_of (weighted_average coefs row))]> r).

(** As many replies as observations, each carrying the agent
    identifier. *)
Definition well_formed_replies (self_id : string) (obs replies : list dict) : Prop :=
  length replies = length obs ∧
  Forall (λ r : dict, r !! "id" = Some (PStr self_id)) replies.

(** A required artifact of the path [f] is missing: the weights file
    for the neural family, one of the nine files for the n-gram family.
    A name outside the four has no family, and nothing is ever loaded
    from its model file path. *)
Definition artifact_missing (fs : files) (f : string) (model_type : option family)
    : Prop :=
  match model_type with
  | Some nn => fs !! (f +:+ ".h5") = None
  | Some ngrams => ∃ p, p ∈ InsultsModel.ngrams_artifacts f ∧ fs !! p = None
  | None => True
  end.

(** The part of [_init_from_saved] that rebuilds a network from the
    loaded options, before the weights are loaded into it. *)
Definition rebuilt (m0 : InsultsModel.t) (o : dict) : outcome InsultsModel.t :=
  try s <- InsultsModel.build_network (InsultsModel.set_opt o m0);
  InsultsModel.compile_network s.

(** Rebuilding touches the attribute [model] only. *)
Definition same_but_model (a b : InsultsModel.t) : Prop :=
  InsultsModel.opt a = InsultsModel.opt b ∧
  InsultsModel.model_type a = InsultsModel.model_type b ∧
  InsultsModel.vectorizers a = InsultsModel.vectorizers b ∧
  InsultsModel.selectors a = InsultsModel.selectors b.

End Vocabulary.

(** * Further vocabulary *)

(** The words of a sentence: the pieces between its spaces that are not
    empty. *)
Definition words (s : string) : list string :=
  List.filter (λ el, negb (String.eqb el "")) (InsultsModel.split_space s).

(** The vectors of the first [n] of the words [ws], with zero vectors of
    dimension [d] in front to make [n] entries. *)
Definition padded_row (n d : nat) (tok2emb : gmap string (list float))
    (ws : list string) : list (option (list float)) :=
  replicate (n - length ws) (Some (replicate d 0%float))
    ++ map (λ w, tok2emb !! w) (take n ws).

(** The texts of the observations that have one, in order. *)
Definition texts_of (observations : list dict) : list pyval :=
  omap (λ o : dict, o !! "text") observations.

(** An observation with the text [tl.1] whose list of labels starts with
    the label [tl.2]. *)
Definition labelled_with (o : dict) (tl : pyval * string) : Prop :=
  o !! "text" = Some tl.1 ∧ ∃ ls, o !! "labels" = Some (PStrs (tl.2 :: ls)).

(** The class of a label: 1 for [Insult], 0 for any other. *)
Definition class_of (l : string) : Z := if String.eqb l "Insult" then 1%Z else 0%Z.

(** The adapter [m'] has the configuration of [m]: the name, the options,
    the family, the origin, the vectorizers and selectors and the
    embedding dictionary. *)
Definition same_configuration `{Backend} (m m' : InsultsModel.t) : Prop :=
  InsultsModel.model_name m' = InsultsModel.model_name m ∧
  InsultsModel.opt m' = InsultsModel.opt m ∧
  InsultsModel.model_type m' = InsultsModel.model_type m ∧
  InsultsModel.from_saved m' = InsultsModel.from_saved m ∧
  InsultsModel.vectorizers m' = InsultsModel.vectorizers m ∧
  InsultsModel.selectors m' = InsultsModel.selectors m ∧
  InsultsModel.embedding_dict m' = InsultsModel.embedding_dict m.

(** The path [save] writes under: its argument or, without one (or with
    [None] for one), the option [model_file]. *)
Definition save_path `{Backend} (fname : option pyval) (self : InsultsModel.t) : pyval :=
  match fname with
  | None | Some PNone => default PNone (InsultsModel.opt self !! "model_file")
  | Some f => f
  end.

(** The two files that [save] of an adapter outside the neural family may
    write under the path [f]. *)
Definition saved_files (f : string) : list string :=
  [f +:+ "_cls.pkl"; f +:+ "_opt.json"].

(** The one-epoch agent [a] with the adapter [mdl]. *)
Definition with_adapter `{Backend} (mdl : InsultsModel.t) (a : OneEpochAgent.t)
    : OneEpochAgent.t :=
  OneEpochAgent.set_super
    (InsultsAgent.set_model (Some mdl) (OneEpochAgent.super a)) a.

(** * Properties *)

(** ** The monad *)

Lemma bind_ok {S A B} (m : M S A) (k : A → M S B) s a :
  out (m s) = Ok a →
  bind m k s = Res (out (k a (st (m s)))) (st (k a (st (m s))))
                   (calls (m s) ++ calls (k a (st (m s)))).
Proof.
  intros E. unfold bind. destruct (m s) as [o s1 c1]; simpl in *; subst.
  by destruct (k a s1).
Qed.

Lemma bind_raise {S A B} (m : M S A) (k : A → M S B) s e :
  out (m s) = Raise e →
  bind m k s = Res (Raise e) (st (m s)) (calls (m s)).
Proof.
  intros E. unfold bind. by destruct (m s) as [o s1 c1]; simpl in *; subst.
Qed.

Lemma res_eta {S A} (r : res S A) : Res (out r) (st r) (calls r) = r.
Proof. by destruct r. Qed.

Lemma bind_get {S B} (k : S → M S B) s : bind get k s = k s s.
Proof. unfold bind, get. by destruct (k s s). Qed.

Lemma bind_ret {S A B} (a : A) (k : A → M S B) s : bind (ret a) k s = k a s.
Proof. unfold bind, ret. by destruct (k a s). Qed.

Lemma bind_lift_ok {S A B} (a : A) (k : A → M S B) s :
  bind (lift (Ok a)) k s = k a s.
Proof. unfold bind, lift. by destruct (k a s). Qed.

Lemma bind_lift_raise {S A B} (e : exn) (k : A → M S B) s :
  bind (lift (Raise e)) k s = Res (Raise e) s [].
Proof. done. Qed.

Lemma bind_modify {S B} (f : S → S) (k : unit → M S B) s :
  bind (modify f) k s = k tt (f s).
Proof. unfold bind, modify. by destruct (k tt (f s)). Qed.

Lemma bind_emit {S B} (c : call) (k : unit → M S B) s :
  bind (emit c) k s = Res (out (k tt s)) (st (k tt s)) (c :: calls (k tt s)).
Proof. unfold bind, emit. by destruct (k tt s). Qed.

(** [bind] by cases on the outcome of its first part. *)
Lemma bind_cases {S A B} (m : M S A) (k : A → M S B) s :
  bind m k s =
    match out (m s) with
    | Ok a => Res (out (k a (st (m s)))) (st (k a (st (m s))))
                (calls (m s) ++ calls (k a (st (m s))))
    | Raise e => Res (Raise e) (st (m s)) (calls (m s))
    end.
Proof.
  unfold bind. destruct (m s) as [[a|e] s1 c1]; simpl; [|done].
  by destruct (k a s1).
Qed.

Lemma lift_run {S A} (o : outcome A) (s : S) : lift o s = Res o s [].
Proof. done. Qed.

Lemma obind_ok {A B} (m : outcome A) (k : A → outcome B) b :
  obind m k = Ok b → ∃ a, m = Ok a ∧ k a = Ok b.
Proof. destruct m as [a|e]; simpl; [eauto | discriminate]. Qed.

Lemma for_each_zoom {S T A B} (get : S → T) (set : T → S → S)
    (f : A → M T B) (l : list A) :
  (∀ t s, get (set t s) = t) →
  ∀ s, out (for_each (λ x, zoom get set (f x)) l s) = out (for_each f l (get s)) ∧
       get (st (for_each (λ x, zoom get set (f x)) l s)) = st (for_each f l (get s)).
Proof.
  intros Hgs. induction l as [|x l IH]; intros s; simpl; [done|].
  unfold bind, zoom at 1 3.
  destruct (f x (get s)) as [[b|e] s1 c1]; simpl; [|by rewrite Hgs].
  specialize (IH (set s1 s)). rewrite Hgs in IH.
  destruct (for_each _ l (set s1 s)), (for_each f l s1); simpl in *. done.
Qed.

(** ** C4: the text stored by [observe] over one episode *)

Lemma observe_at_boundary (s : Shell.t) (o : dict) (v : pyval) :
  truthy (Shell.episode_done s) = true →
  o !! "episode_done" = Some v →
  Shell.observe o s
    = Res (Ok o) (Shell.mk (Shell.agent_id s) v (Shell.is_shared s) (Some o)) [].
Proof.
  intros Hd Hv. unfold Shell.observe, bind, get, lift, modify, ret, getitem; simpl.
  rewrite Hd; simpl. by rewrite Hv.
Qed.

Lemma observe_inside (s : Shell.t) (d o : dict) (acc t : string) (v : pyval) :
  truthy (Shell.episode_done s) = false →
  Shell.observation s = Some d →
  d !! "text" = Some (PStr acc) →
  o !! "text" = Some (PStr t) →
  o !! "episode_done" = Some v →
  Shell.observe o s
    = Res (Ok (<["text" := PStr ((acc +:+ Shell.nl) +:+ t)]> o))
        (Shell.mk (Shell.agent_id s) v (Shell.is_shared s)
           (Some (<["text" := PStr ((acc +:+ Shell.nl) +:+ t)]> o))) [].
Proof.
  intros Hd Ho Hacc Ht Hv.
  unfold Shell.observe, bind, get, lift, modify, ret, getitem, Shell.prev_text; simpl.
  rewrite Hd, Ho; simpl. unfold getitem. rewrite Hacc; simpl. rewrite Ht; simpl.
  rewrite lookup_insert_ne by done. by rewrite Hv.
Qed.

Lemma append_assoc (a b c : string) : (a +:+ b) +:+ c = a +:+ (b +:+ c).
Proof.
  induction a as [|x a IH]; [done|].
  change (String x ((a +:+ b) +:+ c) = String x (a +:+ b +:+ c)). by rewrite IH.
Qed.

(** Python's [sep.join] is [String.concat]; joining piece by piece from
    the left gives the same string. *)
Lemma join_from_left (sep : string) (texts : list string) (t0 : string) :
  fold_left (λ acc t, (acc +:+ sep) +:+ t) texts t0 = String.concat sep (t0 :: texts).
Proof.
  revert t0. induction texts as [|t texts IH]; intros t0; [done|].
  cbn [fold_left]. rewrite IH.
  change (String.concat sep (t0 :: t :: texts))
    with (t0 +:+ sep +:+ String.concat sep (t :: texts)).
  destruct texts as [|t' texts]; cbn [String.concat].
  - by rewrite append_assoc.
  - by rewrite !append_assoc.
Qed.

Lemma observe_run_inside (front : list dict) :
  ∀ (final : dict) (texts : list string) (s : Shell.t) (d : dict) (acc : string),
    truthy (Shell.episode_done s) = false →
    Shell.observation s = Some d →
    d !! "text" = Some (PStr acc) →
    Forall2 has_text (front ++ [final]) texts →
    Forall keeps_open front →
    is_Some (final !! "episode_done") →
    ∃ s' d',
      for_each Shell.observe (front ++ [final]) s = Res (Ok tt) s' [] ∧
      Shell.observation s' = Some d' ∧
      d' !! "text"
        = Some (PStr (fold_left (λ acc t, (acc +:+ Shell.nl) +:+ t) texts acc)).
Proof.
  induction front as [|o front IH]; intros final texts s d acc Hd Ho Hacc Ht Hopen [v Hv].
  - apply Forall2_cons_inv_l in Ht as (t & texts' & Ht & Hnil & ->).
    apply Forall2_nil_inv_l in Hnil as ->.
    cbn [app for_each]. unfold bind.
    rewrite (observe_inside s d final acc t v) by done. cbn.
    eexists _, _. split; [done|]. split; [done|]. by rewrite lookup_insert_eq.
  - apply Forall2_cons_inv_l in Ht as (t & texts' & Ht & Hrest & ->).
    apply Forall_cons in Hopen as [(w & Hw & Hwf) Hopen].
    cbn [app for_each]. unfold bind at 1.
    rewrite (observe_inside s d o acc t w) by done.
    set (s1 := Shell.mk _ _ _ _).
    assert (Hins : (<["text" := PStr ((acc +:+ Shell.nl) +:+ t)]> o : dict) !! "text"
                   = Some (PStr ((acc +:+ Shell.nl) +:+ t)))
      by apply lookup_insert_eq.
    destruct (IH final texts' s1 _ _ Hwf eq_refl Hins Hrest Hopen
                  (ex_intro _ v Hv)) as (s' & d' & -> & Hd' & Htext).
    by exists s', d'.
Qed.

(** The same run started at an episode boundary stores the joined
    texts. *)
Lemma observe_run_episode (front : list dict) (final : dict)
    (texts : list string) (s : Shell.t) :
  truthy (Shell.episode_done s) = true →
  Forall2 has_text (front ++ [final]) texts →
  Forall keeps_open front →
  is_Some (final !! "episode_done") →
  ∃ s' d',
    for_each Shell.observe (front ++ [final]) s = Res (Ok tt) s' [] ∧
    Shell.observation s' = Some d' ∧
    d' !! "text" = Some (PStr (String.concat Shell.nl texts)).
Proof.
  intros Hd Ht Hopen [v Hv]. destruct front as [|o front].
  - apply Forall2_cons_inv_l in Ht as (t & texts' & Ht & Hnil & ->).
    apply Forall2_nil_inv_l in Hnil as ->.
    cbn [app for_each]. unfold bind.
    rewrite (observe_at_boundary s final v) by done. cbn.
    by eexists _, _.
  - apply Forall2_cons_inv_l in Ht as (t & texts' & Ht & Hrest & ->).
    apply Forall_cons in Hopen as [(w & Hw & Hwf) Hopen].
    cbn [app for_each]. unfold bind at 1.
    rewrite (observe_at_boundary s o w) by done.
    set (s1 := Shell.mk _ _ _ _).
    destruct (observe_run_inside front final texts' s1 o t Hwf eq_refl Ht Hrest Hopen
                (ex_intro _ v Hv)) as (s' & d' & -> & Hd' & Htext).
    exists s', d'. split; [done|]. split; [done|].
    by rewrite Htext, join_from_left.
Qed.

Lemma shell_run_ensemble `{Backend} (l : list dict) (a : EnsembleInsultsAgent.t) :
  out (for_each EnsembleInsultsAgent.observe l a)
    = out (for_each Shell.observe l (EnsembleInsultsAgent.base a)) ∧
  EnsembleInsultsAgent.base (st (for_each EnsembleInsultsAgent.observe l a))
    = st (for_each Shell.observe l (EnsembleInsultsAgent.base a)).
Proof.
  apply (for_each_zoom EnsembleInsultsAgent.base EnsembleInsultsAgent.set_base
           Shell.observe l). done.
Qed.

Lemma shell_run_insults `{Backend} (l : list dict) (a : InsultsAgent.t) :
  out (for_each InsultsAgent.observe l a)
    = out (for_each Shell.observe l (InsultsAgent.base a)) ∧
  InsultsAgent.base (st (for_each InsultsAgent.observe l a))
    = st (for_each Shell.observe l (InsultsAgent.base a)).
Proof.
  apply (for_each_zoom InsultsAgent.base InsultsAgent.set_base Shell.observe l). done.
Qed.

Lemma stores_text_intro (s : Shell.t) (d : dict) (text : string) :
  Shell.observation s = Some d → d !! "text" = Some (PStr text) → stores_text s text.
Proof.
  intros Hs Hd. exists d. unfold InsultsModel._build_ex. rewrite Hd.
  destruct (d !! "labels") as [l|]; eexists;
    (split; [done|]); (split; [done|]); (split; [done|]).
  - rewrite lookup_insert_ne by done. apply lookup_insert_eq.
  - apply lookup_insert_eq.
Qed.

(** C4.  Within one episode (the agent is at an episode boundary, every
    observed turn carries a text, and no turn before the last carries a
    true end-of-episode flag), after the last [observe] the stored text,
    which is the question of the example built for the final turn, is the
    newline-join of the turns' texts in the order observed.  This holds
    for [EnsembleInsultsAgent.observe] and for [InsultsAgent.observe]. *)
Theorem observe_episode_text `{Backend} (front : list dict) (final : dict)
    (texts : list string) :
  Forall2 has_text (front ++ [final]) texts →
  Forall keeps_open front →
  is_Some (final !! "episode_done") →
  (∀ a : EnsembleInsultsAgent.t,
     truthy (Shell.episode_done (EnsembleInsultsAgent.base a)) = true →
     let r := for_each EnsembleInsultsAgent.observe (front ++ [final]) a in
     out r = Ok tt ∧
     stores_text (EnsembleInsultsAgent.base (st r)) (String.concat Shell.nl texts)) ∧
  (∀ a : InsultsAgent.t,
     truthy (Shell.episode_done (InsultsAgent.base a)) = true →
     let r := for_each InsultsAgent.observe (front ++ [final]) a in
     out r = Ok tt ∧
     stores_text (InsultsAgent.base (st r)) (String.concat Shell.nl texts)).
Proof.
  intros Ht Hopen Hfin. split; intros a Hd r; subst r.
  - destruct (shell_run_ensemble (front ++ [final]) a) as [-> ->].
    destruct (observe_run_episode front final texts _ Hd Ht Hopen Hfin)
      as (s' & d' & -> & Hs' & Hd').
    split; [done|]. by eapply stores_text_intro.
  - destruct (shell_run_insults (front ++ [final]) a) as [-> ->].
    destruct (observe_run_episode front final texts _ Hd Ht Hopen Hfin)
      as (s' & d' & -> & Hs' & Hd').
    split; [done|]. by eapply stores_text_intro.
Qed.

Lemma observe_episode_text_witness :
  let front := [Demo.turn "hello" false; Demo.turn "are you there" false] in
  let final := Demo.turn "bye" true in
  let r := for_each (@InsultsAgent.observe Demo.backend) (front ++ [final])
             (Demo.agent []) in
  out r = Ok tt ∧
  stores_text (InsultsAgent.base (st r))
    (String.concat Shell.nl ["hello"; "are you there"; "bye"]).
Proof.
  intros front final.
  apply (proj2 (@observe_episode_text Demo.backend front final
                  ["hello"; "are you there"; "bye"]
                  ltac:(repeat constructor)
                  ltac:(repeat constructor; by exists (PBool false))
                  ltac:(by exists (PBool true)))).
  reflexivity.
Defined.

(** ** The adapter's two operations *)

Section Adapter.
Context `{Backend}.

(** [predict] makes one call, recorded on entry, and leaves the adapter
    as it is. *)
Lemma predict_calls (b : batchv) (m : InsultsModel.t) :
  calls (InsultsModel.predict b m) = [CPredict (InsultsModel.model_name m) b] ∧
  st (InsultsModel.predict b m) = m.
Proof.
  unfold InsultsModel.predict, bind, get, emit, lift, ret; simpl.
  destruct (InsultsModel.model_type m) as [[]|]; simpl; [| |done].
  - destruct (InsultsModel.the_model m); simpl; [|done].
    destruct (InsultsModel.as_arr b); simpl; [|done].
    by destruct (predict_on_batch _ _).
  - destruct (InsultsModel.as_arr b); simpl; [|done].
    destruct (vectorize_select_from_data _ _ _); simpl; [|done].
    destruct (InsultsModel.the_model m); simpl; [|done].
    by destruct (predict_proba _ _).
Qed.

Lemma update_nn_calls (x y : arr) (m : InsultsModel.t) :
  calls (InsultsModel.update_nn x y m) = [].
Proof.
  unfold InsultsModel.update_nn, bind, get, lift, modify, ret; simpl.
  destruct (InsultsModel.the_model m); simpl; [|done].
  destruct (train_on_batch _ _ _) as [[[e l] c]|]; simpl; [|done].
  destruct (predict_on_batch _ _); simpl; [|done].
  by destruct (roc_auc_score _ _).
Qed.

Lemma update_ngrams_calls (x y : arr) (m : InsultsModel.t) :
  calls (InsultsModel.update_ngrams x y m) = [].
Proof.
  unfold InsultsModel.update_ngrams, bind, get, lift, modify, ret; simpl.
  destruct (vectorize_select_from_data _ _ _); simpl; [|done].
  destruct (InsultsModel.the_model m); simpl; [|done].
  destruct (fit _ _ _); simpl; [|done].
  destruct (predict_proba _ _); simpl; [|done].
  destruct (binary_crossentropy _ _); simpl; [|done].
  destruct (binary_accuracy _ _); simpl; [|done].
  by destruct (roc_auc_score _ _).
Qed.

(** [update] makes one call, recorded on entry. *)
Lemma update_calls (b : batchv) (m : InsultsModel.t) :
  calls (InsultsModel.update b m) = [CUpdate (InsultsModel.model_name m) b].
Proof.
  unfold InsultsModel.update. unfold bind at 1 2 3. unfold get, emit, lift; simpl.
  destruct (InsultsModel.unpack2 b) as [[x y]|]; simpl; [|done].
  destruct (InsultsModel.model_type m) as [[]|]; simpl.
  - unfold bind at 1 2. pose proof (update_nn_calls x y m) as Hc.
    destruct (InsultsModel.update_nn x y m) as [[p|e] s1 c1]; simpl in *; by subst.
  - unfold bind at 1 2. pose proof (update_ngrams_calls x y m) as Hc.
    destruct (InsultsModel.update_ngrams x y m) as [[p|e] s1 c1]; simpl in *; by subst.
  - done.
Qed.

End Adapter.

(** ** [InsultsAgent.batch_act] in one equation *)

Section InsultsBatch.
Context `{Backend}.

Lemma guard_shared_false {S} (s : S) :
  Shell.guard_shared false s = Res (Ok tt) s [].
Proof. done. Qed.

Lemma on_model_run {A} (m : M InsultsModel.t A) (a : InsultsAgent.t)
    (mdl : InsultsModel.t) :
  InsultsAgent.model a = Some mdl →
  InsultsAgent.on_model m a
    = Res (out (m mdl)) (InsultsAgent.set_model (Some (st (m mdl))) a) (calls (m mdl)).
Proof. intros Hm. unfold InsultsAgent.on_model. by rewrite Hm. Qed.

Lemma insults_batch_act_run (a : InsultsAgent.t) (o0 : dict) (rest : list dict)
    (mdl : InsultsModel.t) :
  Shell.is_shared (InsultsAgent.base a) = false →
  InsultsAgent.model a = Some mdl →
  let obs := o0 :: rest in
  let train := contains o0 "labels" in
  let a1 := if train
            then InsultsAgent.set_n_examples
                   (InsultsAgent.n_examples a + length (examples_of obs)) a
            else a in
  InsultsAgent.batch_act obs a =
    match InsultsModel._batchify mdl (examples_of obs) with
    | Raise e => Res (Raise e) (InsultsAgent.set_model (Some mdl) a1) []
    | Ok batch =>
        let r := step train batch mdl in
        Res (match out r with
             | Ok p => InsultsAgent.write_replies (valid_of obs) p
                         (initial_replies (Shell.agent_id (InsultsAgent.base a))
                            (length obs))
             | Raise e => Raise e
             end)
          (InsultsAgent.set_model (Some (st r)) a1) (calls r)
    end.
Proof.
  intros Hs Hm obs train a1. subst obs train a1.
  unfold InsultsAgent.batch_act. rewrite bind_get, Hs.
  unfold Shell.guard_shared. rewrite bind_ret.
  cbn [index lookup list_lookup]. rewrite bind_lift_ok.
  change (not_none (map InsultsAgent._build_ex (o0 :: rest)))
    with (examples_of (o0 :: rest)).
  change (valid_indices (length (o0 :: rest)) (map InsultsAgent._build_ex (o0 :: rest)))
    with (valid_of (o0 :: rest)).
  destruct (contains o0 "labels"); cbn [step].
  - rewrite bind_modify. rewrite bind_cases.
    rewrite on_model_run with (mdl := mdl) by done.
    rewrite bind_get, lift_run. cbn [out st calls].
    destruct (InsultsModel._batchify mdl (examples_of (o0 :: rest))) as [batch|e];
      [|done].
    rewrite bind_cases. rewrite on_model_run with (mdl := mdl) by done.
    cbn [out st calls app].
    destruct (out (InsultsModel.update batch mdl)) as [p|e]; [|done].
    rewrite lift_run. cbn [out st calls]. by rewrite app_nil_r.
  - rewrite bind_cases.
    rewrite on_model_run with (mdl := mdl) by done.
    rewrite bind_get, lift_run. cbn [out st calls].
    destruct (InsultsModel._batchify mdl (examples_of (o0 :: rest))) as [batch|e];
      [|done].
    rewrite bind_cases. rewrite on_model_run with (mdl := mdl) by done.
    cbn [out st calls app].
    destruct (out (InsultsModel.predict batch mdl)) as [p|e]; [|done].
    rewrite lift_run. cbn [out st calls]. by rewrite app_nil_r.
Qed.

Lemma insults_batch_act_shared (a : InsultsAgent.t) (obs : list dict) :
  Shell.is_shared (InsultsAgent.base a) = true →
  InsultsAgent.batch_act obs a
    = Res (Raise (RuntimeError "Parallel act is not supported.")) a [].
Proof.
  intros Hs. unfold InsultsAgent.batch_act. rewrite bind_get, Hs. done.
Qed.

Lemma insults_batch_act_empty (a : InsultsAgent.t) :
  Shell.is_shared (InsultsAgent.base a) = false →
  InsultsAgent.batch_act [] a = Res (Raise IndexError) a [].
Proof.
  intros Hs. unfold InsultsAgent.batch_act. rewrite bind_get, Hs.
  unfold Shell.guard_shared. by rewrite bind_ret.
Qed.

Lemma insults_batch_act_no_model (a : InsultsAgent.t) (o0 : dict) (rest : list dict) :
  Shell.is_shared (InsultsAgent.base a) = false →
  InsultsAgent.model a = None →
  let obs := o0 :: rest in
  InsultsAgent.batch_act obs a =
    Res (Raise (AttributeError "model"))
      (if contains o0 "labels"
       then InsultsAgent.set_n_examples
              (InsultsAgent.n_examples a + length (examples_of obs)) a
       else a) [].
Proof.
  intros Hs Hm obs. subst obs.
  unfold InsultsAgent.batch_act. rewrite bind_get, Hs.
  unfold Shell.guard_shared. rewrite bind_ret.
  cbn [index lookup list_lookup]. rewrite bind_lift_ok.
  destruct (contains o0 "labels").
  - rewrite bind_modify, bind_cases. unfold InsultsAgent.on_model.
    cbn [InsultsAgent.model InsultsAgent.set_n_examples]. by rewrite Hm.
  - rewrite bind_cases. unfold InsultsAgent.on_model. by rewrite Hm.
Qed.

End InsultsBatch.

(** ** Valid positions and the loop that writes the replies *)

Lemma valid_filter_from {A} (examples : list (option A)) (s : nat) :
  List.filter (λ i, match examples !! (i - s) with Some (Some _) => true | _ => false end)
    (seq s (length examples)) = valid_from s examples.
Proof.
  revert s. induction examples as [|x examples IH]; intros s; [done|].
  cbn [length seq List.filter]. rewrite Nat.sub_diag. cbn [lookup list_lookup].
  assert (List.filter
            (λ i, match (x :: examples) !! (i - s) with
                  | Some (Some _) => true | _ => false end)
            (seq (S s) (length examples)) = valid_from (S s) examples) as Htail.
  { rewrite <- IH. apply List.filter_ext_in. intros i [Hi _]%in_seq.
    replace (i - s) with (S (i - S s)) by lia. done. }
  rewrite Htail. by destruct x.
Qed.

Lemma valid_indices_from {A} (examples : list (option A)) :
  valid_indices (length examples) examples = valid_from 0 examples.
Proof.
  unfold valid_indices. rewrite <- valid_filter_from.
  apply List.filter_ext. intros i. by rewrite Nat.sub_0_r.
Qed.

Lemma valid_from_length {A} (examples : list (option A)) (s : nat) :
  length (valid_from s examples) = length (not_none examples).
Proof.
  revert s. induction examples as [|[x|] examples IH]; intros s; cbn; [done| |].
  - by rewrite IH.
  - apply IH.
Qed.

Lemma valid_from_bound {A} (examples : list (option A)) (s i : nat) :
  i ∈ valid_from s examples → s ≤ i < s + length examples.
Proof.
  revert s. induction examples as [|[x|] examples IH]; intros s; cbn.
  - intros Hi. by apply elem_of_nil in Hi.
  - intros [->|Hi%IH]%elem_of_cons; lia.
  - intros Hi%IH. lia.
Qed.

Lemma valid_of_length `{Backend} (obs : list dict) :
  length (valid_of obs) = length (examples_of obs).
Proof.
  unfold valid_of, examples_of.
  rewrite <- (length_map InsultsModel._build_ex obs) at 1.
  rewrite valid_indices_from. apply valid_from_length.
Qed.

Lemma valid_of_bound `{Backend} (obs : list dict) (k i : nat) :
  valid_of obs !! k = Some i → i < length obs.
Proof.
  unfold valid_of. rewrite <- (length_map InsultsModel._build_ex obs) at 1.
  rewrite valid_indices_from. intros Hk%list_elem_of_lookup_2%valid_from_bound.
  rewrite length_map in Hk. lia.
Qed.

Section Fill.
Context `{Backend}.

Lemma same_ids_refl (rs : list dict) : same_ids rs rs.
Proof. by apply Forall2_same_length_lookup_2; [|intros ??? -> [= ->]]. Qed.

Lemma same_ids_trans (a b c : list dict) : same_ids a b → same_ids b c → same_ids a c.
Proof.
  intros Hab Hbc. apply Forall2_same_length_lookup_2.
  - by rewrite (Forall2_length _ _ _ Hab), (Forall2_length _ _ _ Hbc).
  - intros i x z Hx Hz.
    destruct (Forall2_lookup_l _ _ _ _ _ Hab Hx) as (y & Hy & Hxy).
    pose proof (Forall2_lookup_lr _ _ _ _ _ _ Hbc Hy Hz) as Hyz. congruence.
Qed.

Lemma same_ids_insert (rs : list dict) (i : nat) (r : dict) (k : string) (v : pyval) :
  rs !! i = Some r → k ≠ "id" → same_ids rs (<[i := <[k := v]> r]> rs).
Proof.
  intros Hi Hk. apply Forall2_same_length_lookup_2; [by rewrite length_insert|].
  intros j x y Hx Hy. destruct (decide (i = j)) as [->|Hne].
  - rewrite list_lookup_insert_eq in Hy by (by eapply lookup_lt_Some).
    injection Hy as <-. rewrite lookup_insert_ne by done. congruence.
  - rewrite list_lookup_insert_ne in Hy by done. congruence.
Qed.

(** Whatever [fill] returns has the length and the identifiers of the
    replies it started from. *)
Lemma fill_shape (vs : list nat) (texts : list string) (preds : list float)
    (ix : list nat) :
  ∀ rs rs', InsultsAgent.fill vs texts preds ix rs = Ok rs' → same_ids rs rs'.
Proof.
  induction ix as [|i ix IH]; intros rs rs'; cbn [InsultsAgent.fill].
  - intros [= ->]. apply same_ids_refl.
  - intros (t & _ & (vi & _ & (r & Hr & (p & _ & (vi' & _ & (r' & Hr' & Hrest)%obind_ok
      )%obind_ok)%obind_ok)%obind_ok)%obind_ok)%obind_ok.
    unfold index in Hr, Hr'.
    destruct (rs !! vi) as [r0|] eqn:E; [|done]. injection Hr as <-.
    destruct (_ !! vi') as [r1|] eqn:E'; [|done]. injection Hr' as <-.
    eapply same_ids_trans;
      [by apply (same_ids_insert rs vi r0 "text" (PStr t))|].
    eapply same_ids_trans; [|by apply IH].
    by apply same_ids_insert.
Qed.

(** [fill] returns when every index of the loop has a text, a score and
    a valid position inside the replies. *)
Lemma fill_returns (vs : list nat) (texts : list string) (preds : list float)
    (ix : list nat) :
  ∀ rs,
    Forall (λ i, i < length texts ∧ i < length preds ∧
                 ∃ vi, vs !! i = Some vi ∧ vi < length rs) ix →
    ∃ rs', InsultsAgent.fill vs texts preds ix rs = Ok rs'.
Proof.
  induction ix as [|i ix IH]; intros rs Hix; cbn [InsultsAgent.fill]; [by eexists|].
  apply Forall_cons in Hix as [(Ht & Hp & vi & Hvi & Hlt) Hix].
  destruct (lookup_lt_is_Some_2 texts i Ht) as [t Et].
  destruct (lookup_lt_is_Some_2 preds i Hp) as [p Ep].
  destruct (lookup_lt_is_Some_2 rs vi Hlt) as [r Er].
  unfold index. rewrite Et, Hvi. cbn [obind]. rewrite Er. cbn [obind].
  rewrite Ep. cbn [obind]. rewrite list_lookup_insert_eq by done. cbn [obind].
  apply IH. eapply Forall_impl; [exact Hix|]. cbn.
  intros j (? & ? & vj & ? & ?). repeat split; [done..|].
  exists vj. by rewrite !length_insert.
Qed.

End Fill.

(** ** C6: an observation without text *)

Lemma insert_at_app {A} (pre post : list A) (x : A) :
  insert_at (length pre) x (pre ++ post) = pre ++ x :: post.
Proof. unfold insert_at. by rewrite take_app_length, drop_app_length. Qed.

Lemma lookup_insert_at {A} (p : nat) (x : A) (l : list A) (i : nat) :
  p ≤ length l →
  insert_at p x l !! i
    = if i <? p then l !! i else if i =? p then Some x else l !! (i - 1).
Proof.
  intros Hp. unfold insert_at.
  destruct (i <? p) eqn:E1; [apply Nat.ltb_lt in E1|apply Nat.ltb_ge in E1].
  - rewrite lookup_app_l by (rewrite length_take; lia). by apply lookup_take_lt.
  - rewrite lookup_app_r by (rewrite length_take; lia).
    rewrite length_take, Nat.min_l by done.
    destruct (i =? p) eqn:E2; [apply Nat.eqb_eq in E2|apply Nat.eqb_neq in E2].
    + subst. by rewrite Nat.sub_diag.
    + rewrite lookup_cons. destruct (i - p) as [|n] eqn:E; [lia|].
      rewrite lookup_drop. f_equal. lia.
Qed.

Lemma lookup_insert_at_shift {A} (p : nat) (x : A) (l : list A) (j : nat) :
  p ≤ length l → insert_at p x l !! shift p j = l !! j.
Proof.
  intros Hp. rewrite lookup_insert_at by done. unfold shift.
  destruct (j <? p) eqn:E; [by rewrite E|]. apply Nat.ltb_ge in E.
  assert ((S j <? p) = false) as -> by (apply Nat.ltb_ge; lia).
  assert ((S j =? p) = false) as -> by (apply Nat.eqb_neq; lia).
  f_equal. lia.
Qed.

Lemma length_insert_at {A} (p : nat) (x : A) (l : list A) :
  p ≤ length l → length (insert_at p x l) = S (length l).
Proof.
  intros Hp. unfold insert_at.
  rewrite length_app, length_take; cbn. rewrite length_drop. lia.
Qed.

Lemma insert_insert_at_shift {A} (p : nat) (x y : A) (l : list A) (j : nat) :
  p ≤ length l →
  <[shift p j := y]> (insert_at p x l) = insert_at p x (<[j := y]> l).
Proof.
  intros Hp. apply list_eq. intros i.
  rewrite (lookup_insert_at p x (<[j:=y]> l)) by (by rewrite length_insert).
  rewrite list_lookup_insert, length_insert_at by done.
  rewrite lookup_insert_at by done.
  rewrite !list_lookup_insert. unfold shift.
  destruct (j <? p) eqn:Ej; [apply Nat.ltb_lt in Ej|apply Nat.ltb_ge in Ej];
    destruct (i <? p) eqn:Ei; [apply Nat.ltb_lt in Ei|apply Nat.ltb_ge in Ei
                              |apply Nat.ltb_lt in Ei|apply Nat.ltb_ge in Ei];
    destruct (i =? p) eqn:Eip; [apply Nat.eqb_eq in Eip|apply Nat.eqb_neq in Eip
                               |apply Nat.eqb_eq in Eip|apply Nat.eqb_neq in Eip
                               |apply Nat.eqb_eq in Eip|apply Nat.eqb_neq in Eip
                               |apply Nat.eqb_eq in Eip|apply Nat.eqb_neq in Eip];
    repeat case_decide; try done; try lia.
Qed.

Lemma valid_from_app {A} (pre post : list (option A)) (s : nat) :
  valid_from s (pre ++ post) = valid_from s pre ++ valid_from (s + length pre) post.
Proof.
  revert s. induction pre as [|[x|] pre IH]; intros s; cbn.
  - by rewrite Nat.add_0_r.
  - rewrite IH. do 3 f_equal. lia.
  - rewrite IH. do 2 f_equal. lia.
Qed.

Lemma valid_from_succ {A} (l : list (option A)) (s : nat) :
  valid_from (S s) l = map S (valid_from s l).
Proof.
  revert s. induction l as [|[x|] l IH]; intros s; cbn; [done| |]; by rewrite IH.
Qed.

Lemma valid_from_insert_none {A} (pre post : list (option A)) :
  valid_from 0 (pre ++ None :: post)
    = map (shift (length pre)) (valid_from 0 (pre ++ post)).
Proof.
  rewrite !valid_from_app, map_app. cbn [valid_from plus].
  rewrite valid_from_succ. f_equal.
  - rewrite <- (map_id (valid_from 0 pre)) at 1. apply map_ext_in.
    intros i Hi%list_elem_of_In%valid_from_bound. unfold shift.
    by assert ((i <? length pre) = true) as -> by (apply Nat.ltb_lt; lia).
  - apply map_ext_in. intros i Hi%list_elem_of_In%valid_from_bound. unfold shift.
    by assert ((i <? length pre) = false) as -> by (apply Nat.ltb_ge; lia).
Qed.

Section Textless.
Context `{Backend}.

Lemma build_ex_textless (o : dict) :
  o !! "text" = None → InsultsModel._build_ex o = None.
Proof. intros Ho. unfold InsultsModel._build_ex. by rewrite Ho. Qed.

(** The observation without text is left out of the example batch. *)
Lemma examples_of_textless (pre post : list dict) (o : dict) :
  o !! "text" = None → examples_of (pre ++ o :: post) = examples_of (pre ++ post).
Proof.
  intros Ho. unfold examples_of, not_none.
  rewrite !map_app, !omap_app. cbn. by rewrite build_ex_textless.
Qed.

Lemma valid_of_textless (pre post : list dict) (o : dict) :
  o !! "text" = None →
  valid_of (pre ++ o :: post) = map (shift (length pre)) (valid_of (pre ++ post)).
Proof.
  intros Ho. unfold valid_of.
  rewrite <- (length_map InsultsModel._build_ex (pre ++ o :: post)),
          <- (length_map InsultsModel._build_ex (pre ++ post)).
  rewrite !valid_indices_from, !map_app. cbn [map]. rewrite build_ex_textless by done.
  rewrite valid_from_insert_none. by rewrite length_map.
Qed.

Lemma fill_shift (p : nat) (r0 : dict) (vs : list nat) (texts : list string)
    (preds : list float) (ix : list nat) :
  ∀ rs, p ≤ length rs →
    InsultsAgent.fill (map (shift p) vs) texts preds ix (insert_at p r0 rs)
      = with_reply_at p r0 (InsultsAgent.fill vs texts preds ix rs).
Proof.
  induction ix as [|i ix IH]; intros rs Hp; cbn [InsultsAgent.fill]; [done|].
  unfold index. rewrite list_lookup_fmap.
  destruct (texts !! i) as [t|]; cbn [obind]; [|done].
  destruct (vs !! i) as [vi|]; cbn [obind fmap option_fmap option_map]; [|done].
  rewrite lookup_insert_at_shift by done.
  destruct (rs !! vi) as [r|] eqn:Er; cbn [obind]; [|done].
  destruct (preds !! i) as [x|]; cbn [obind]; [|done].
  rewrite insert_insert_at_shift by done.
  rewrite lookup_insert_at_shift by (by rewrite length_insert).
  destruct (<[vi:=_]> rs !! vi) as [r'|]; cbn [obind]; [|done].
  rewrite insert_insert_at_shift by (by rewrite length_insert).
  apply IH. by rewrite !length_insert.
Qed.

Lemma write_replies_shift (p : nat) (r0 : dict) (vs : list nat)
    (preds : option (list float)) (rs : list dict) :
  p ≤ length rs →
  InsultsAgent.write_replies (map (shift p) vs) preds (insert_at p r0 rs)
    = with_reply_at p r0 (InsultsAgent.write_replies vs preds rs).
Proof.
  intros Hp. unfold InsultsAgent.write_replies.
  destruct preds as [l|]; cbn; [|done]. by apply fill_shift.
Qed.

Lemma initial_replies_insert_at (self_id : string) (pre post : list dict) (o : dict) :
  initial_replies self_id (length (pre ++ o :: post))
    = insert_at (length pre) (<["id" := PStr self_id]> ∅)
        (initial_replies self_id (length (pre ++ post))).
Proof.
  unfold initial_replies, insert_at. rewrite !length_app. cbn [length].
  rewrite take_replicate, drop_replicate, Nat.min_l by lia.
  replace (length pre + length post - length pre) with (length post) by lia.
  replace (length pre + S (length post)) with (length pre + (1 + length post)) by lia.
  by rewrite !replicate_add.
Qed.

End Textless.

Section TextlessBatch.
Context `{Backend}.

Lemma textless_batch_general (a : InsultsAgent.t) (pre post : list dict)
    (o o0 o0' : dict) (rest rest' : list dict) :
  o !! "text" = None →
  pre ++ o :: post = o0 :: rest →
  pre ++ post = o0' :: rest' →
  contains o0 "labels" = contains o0' "labels" →
  let with_o := InsultsAgent.batch_act (pre ++ o :: post) a in
  let without := InsultsAgent.batch_act (pre ++ post) a in
  out with_o
    = with_reply_at (length pre)
        (<["id" := PStr (Shell.agent_id (InsultsAgent.base a))]> ∅) (out without) ∧
  st with_o = st without ∧
  calls with_o = calls without.
Proof.
  intros Ho E E' Hl with_o without. subst with_o without.
  destruct (Shell.is_shared (InsultsAgent.base a)) eqn:Hs.
  { by rewrite !insults_batch_act_shared. }
  pose proof (examples_of_textless pre post o Ho) as Hex.
  pose proof (valid_of_textless pre post o Ho) as Hv.
  pose proof (initial_replies_insert_at
                (Shell.agent_id (InsultsAgent.base a)) pre post o) as Hi.
  rewrite E, E' in *.
  destruct (InsultsAgent.model a) as [mdl|] eqn:Hm.
  - rewrite !(insults_batch_act_run a _ _ mdl) by done.
    rewrite Hl, Hex, Hv, Hi.
    destruct (InsultsModel._batchify mdl (examples_of (o0' :: rest'))) as [batch|e];
      [|done].
    cbn [out st calls]. split; [|done].
    destruct (out (step (contains o0' "labels") batch mdl)) as [p|e]; [|done].
    apply write_replies_shift.
    unfold initial_replies. rewrite length_replicate, <- E', length_app. lia.
  - rewrite !insults_batch_act_no_model by done. cbn [out st calls].
    by rewrite Hl, Hex.
Qed.

(** The statement for [InsultsAgent]: with at least one other
    observation in the batch, and the two batches agreeing on whether
    their first observation has labels. *)
Lemma insults_textless (a : InsultsAgent.t) (pre post : list dict) (o h : dict) :
  o !! "text" = None →
  head (pre ++ post) = Some h →
  (pre = [] → contains o "labels" = contains h "labels") →
  let with_o := InsultsAgent.batch_act (pre ++ o :: post) a in
  let without := InsultsAgent.batch_act (pre ++ post) a in
  out with_o
    = with_reply_at (length pre)
        (<["id" := PStr (Shell.agent_id (InsultsAgent.base a))]> ∅) (out without) ∧
  st with_o = st without ∧
  calls with_o = calls without.
Proof.
  intros Ho Hh Hl.
  destruct pre as [|x pre].
  - destruct post as [|h' post]; [done|]. injection Hh as ->.
    eapply (textless_batch_general a [] (h :: post)); [done|done|done|by apply Hl].
  - injection Hh as ->.
    by eapply (textless_batch_general a (h :: pre) post).
Qed.

End TextlessBatch.

(** ** C10: training or prediction is chosen by the first observation *)

Section Mode.
Context `{Backend}.





End Mode.

(** Both modes occur: a labelled first observation trains even when a
    later one is not labelled in the same way, an unlabelled one
    predicts. *)
Example mode_update_runs :
  calls (@InsultsAgent.batch_act Demo.backend
           [Demo.labelled_turn "a" "Insult"; Demo.labelled_turn "b" "no"]
           (Demo.agent [0.9; 0.2]%float))
    = [CUpdate "log_reg" (BPair [PStr "a"; PStr "b"] [1%Z; 0%Z])].
Proof. vm_compute. reflexivity. Qed.

Example mode_predict_runs :
  calls (@InsultsAgent.batch_act Demo.backend
           [Demo.turn "a" true; Demo.turn "b" true] (Demo.agent [0.9; 0.2]%float))
    = [CPredict "log_reg" (BQuestions [PStr "a"; PStr "b"])].
Proof. vm_compute. reflexivity. Qed.

(** ** C9: a call on an agent made in shared mode *)

Section Shared.
Context `{Backend}.

(** [EnsembleInsultsAgent.batch_act] and [InsultsAgent.batch_act] raise
    at once and leave the agent as it was. *)
Lemma ensemble_batch_act_shared (a : EnsembleInsultsAgent.t) (obs : list dict) :
  Shell.is_shared (EnsembleInsultsAgent.base a) = true →
  EnsembleInsultsAgent.batch_act obs a
    = Res (Raise (RuntimeError "Parallel act is not supported.")) a [].
Proof.
  intros Hs. unfold EnsembleInsultsAgent.batch_act. rewrite bind_get, Hs. done.
Qed.

Lemma ensemble_act_shared (a : EnsembleInsultsAgent.t) :
  Shell.is_shared (EnsembleInsultsAgent.base a) = true →
  EnsembleInsultsAgent.act a
    = Res (Raise (RuntimeError "Parallel act is not supported.")) a [].
Proof.
  intros Hs. unfold EnsembleInsultsAgent.act. rewrite bind_get.
  destruct (Shell.observation _).
  - rewrite bind_cases. by rewrite ensemble_batch_act_shared.
  - by rewrite Hs.
Qed.

Lemma insults_act_shared (a : InsultsAgent.t) :
  Shell.is_shared (InsultsAgent.base a) = true →
  InsultsAgent.act a
    = Res (Raise (RuntimeError "Parallel act is not supported.")) a [].
Proof.
  intros Hs. unfold InsultsAgent.act. rewrite bind_get.
  destruct (Shell.observation _).
  - rewrite bind_cases. by rewrite insults_batch_act_shared.
  - by rewrite Hs.
Qed.

(** [OneEpochAgent.batch_act] raises too, but only after it has added
    the batch to [observations_]. *)
Lemma one_epoch_batch_act_shared (a : OneEpochAgent.t) (obs : list dict) :
  Shell.is_shared (InsultsAgent.base (OneEpochAgent.super a)) = true →
  OneEpochAgent.batch_act obs a
    = Res (Raise (RuntimeError "Parallel act is not supported."))
        (OneEpochAgent.set_observations_ (OneEpochAgent.observations_ a ++ obs) a) [].
Proof.
  intros Hs. unfold OneEpochAgent.batch_act.
  rewrite bind_modify, bind_get. cbn [OneEpochAgent.set_observations_ OneEpochAgent.super].
  by rewrite Hs.
Qed.

End Shared.

(** C9 at the failing input: [batch_act] on a shared [OneEpochAgent]
    raises, and the agent's [observations_] has grown by the batch. *)
Lemma one_epoch_shared_records_batch :
  let a := Demo.shared_one_epoch in
  let r := @OneEpochAgent.batch_act Demo.backend [Demo.turn "a" true] a in
  Shell.is_shared (InsultsAgent.base (OneEpochAgent.super a)) = true ∧
  out r = Raise (RuntimeError "Parallel act is not supported.") ∧
  OneEpochAgent.observations_ a = [] ∧
  OneEpochAgent.observations_ (st r) = [Demo.turn "a" true].
Proof. repeat split. Qed.

(** ** The ensemble: the weighted sum *)

Section WeightedSum.
Context `{Backend}.

Lemma weighted_sum_loop_seq (scores1 coefs1 : list float) :
  ∀ (coefs0 scores0 : list float) (acc : float),
    length coefs0 = length scores0 →
    length scores1 ≤ length coefs1 →
    EnsembleInsultsAgent.weighted_sum_loop (coefs0 ++ coefs1) (scores0 ++ scores1)
      (seq (length scores0) (length scores1)) acc
    = Ok (fold_left PrimFloat.add (zip_with PrimFloat.mul coefs1 scores1) acc).
Proof.
  revert coefs1. induction scores1 as [|s scores1 IH];
    intros coefs1 coefs0 scores0 acc Hlen Hle; cbn [length seq]; [by destruct coefs1|].
  destruct coefs1 as [|c coefs1]; cbn [length] in Hle; [lia|].
  cbn [EnsembleInsultsAgent.weighted_sum_loop]. unfold index.
  rewrite lookup_app_r, <- Hlen, Nat.sub_diag by lia. cbn [lookup list_lookup obind].
  rewrite lookup_app_r, Hlen, Nat.sub_diag by lia. cbn [lookup list_lookup obind].
  replace (coefs0 ++ c :: coefs1) with ((coefs0 ++ [c]) ++ coefs1)
    by (by rewrite <- app_assoc).
  replace (scores0 ++ s :: scores1) with ((scores0 ++ [s]) ++ scores1)
    by (by rewrite <- app_assoc).
  replace (S (length scores0)) with (length (scores0 ++ [s]))
    by (rewrite length_app; cbn; lia).
  rewrite IH; [done | rewrite !length_app; cbn; lia | lia].
Qed.

(** With at least as many coefficients as scores, [weighted_sum] is the
    weighted average of the scores under the leading coefficients,
    divided by the sum of all coefficients. *)
Lemma weighted_sum_run (self : EnsembleInsultsAgent.t) (scores : list float) :
  length scores ≤ length (EnsembleInsultsAgent.model_coefs self) →
  EnsembleInsultsAgent.weighted_sum self scores
    = Ok (fold_left PrimFloat.add
            (zip_with PrimFloat.mul (EnsembleInsultsAgent.model_coefs self) scores) 0
          / EnsembleInsultsAgent.py_sum (EnsembleInsultsAgent.model_coefs self))%float.
Proof.
  intros Hle. unfold EnsembleInsultsAgent.weighted_sum.
  pose proof (weighted_sum_loop_seq scores _ [] [] 0%float eq_refl Hle) as E.
  cbn [app length] in E. by rewrite E.
Qed.

(** With fewer coefficients than scores the loop runs out of
    coefficients. *)
Lemma weighted_sum_loop_short (coefs1 scores1 : list float) :
  ∀ (coefs0 scores0 : list float) (acc : float),
    length coefs0 = length scores0 →
    length coefs1 < length scores1 →
    EnsembleInsultsAgent.weighted_sum_loop (coefs0 ++ coefs1) (scores0 ++ scores1)
      (seq (length scores0) (length scores1)) acc = Raise IndexError.
Proof.
  revert scores1. induction coefs1 as [|c coefs1 IH];
    intros scores1 coefs0 scores0 acc Hlen Hlt;
    (destruct scores1 as [|s scores1]; cbn [length] in Hlt; [lia|]);
    cbn [length seq EnsembleInsultsAgent.weighted_sum_loop]; unfold index.
  - rewrite app_nil_r, lookup_ge_None_2 by lia. done.
  - rewrite lookup_app_r, <- Hlen, Nat.sub_diag by lia. cbn [lookup list_lookup obind].
    rewrite lookup_app_r, Hlen, Nat.sub_diag by lia. cbn [lookup list_lookup obind].
    replace (coefs0 ++ c :: coefs1) with ((coefs0 ++ [c]) ++ coefs1)
      by (by rewrite <- app_assoc).
    replace (scores0 ++ s :: scores1) with ((scores0 ++ [s]) ++ scores1)
      by (by rewrite <- app_assoc).
    replace (S (length scores0)) with (length (scores0 ++ [s]))
      by (rewrite length_app; cbn; lia).
    apply IH; [rewrite !length_app; cbn; lia | lia].
Qed.

End WeightedSum.

(** ** The ensemble: the table of contributed scores *)

Lemma omap_pointwise {A B} (f g : A → option B) (l : list A) :
  (∀ x, f x = g x) → omap f l = omap g l.
Proof. intros E. induction l as [|x l IH]; cbn; [done|]. by rewrite E, IH. Qed.

Lemma omap_map {A B C} (f : B → option C) (g : A → B) (l : list A) :
  omap f (map g l) = omap (λ x, f (g x)) l.
Proof. induction l as [|x l IH]; cbn; [done|]. by rewrite IH. Qed.

Lemma omap_length_le {A B} (f : A → option B) (l : list A) :
  length (omap f l) ≤ length l.
Proof. induction l as [|x l IH]; cbn; [done|]. destruct (f x); cbn; lia. Qed.

Section Table.
Context `{Backend}.

Lemma scatter_seq (prediction1 : list float) :
  ∀ (valid1 valid0 : list nat) (prediction0 : list float) (table : list (list float)),
    length valid0 = length prediction0 →
    length prediction1 ≤ length valid1 →
    EnsembleInsultsAgent.scatter (valid0 ++ valid1) (prediction0 ++ prediction1)
      (seq (length prediction0) (length prediction1)) table
    = scatter_pairs (zip valid1 prediction1) table.
Proof.
  induction prediction1 as [|p prediction1 IH];
    intros valid1 valid0 prediction0 table Hlen Hle; cbn [length seq].
  - by destruct valid1.
  - destruct valid1 as [|v valid1]; cbn [length] in Hle; [lia|].
    cbn [EnsembleInsultsAgent.scatter zip zip_with scatter_pairs]. unfold index.
    rewrite lookup_app_r, <- Hlen, Nat.sub_diag by lia. cbn [lookup list_lookup obind].
    destruct (table !! v) as [row|]; cbn [obind]; [|done].
    rewrite lookup_app_r, Hlen, Nat.sub_diag by lia. cbn [lookup list_lookup obind].
    replace (valid0 ++ v :: valid1) with ((valid0 ++ [v]) ++ valid1)
      by (by rewrite <- app_assoc).
    replace (prediction0 ++ p :: prediction1) with ((prediction0 ++ [p]) ++ prediction1)
      by (by rewrite <- app_assoc).
    replace (S (length prediction0)) with (length (prediction0 ++ [p]))
      by (rewrite length_app; cbn; lia).
    apply IH; [rewrite !length_app; cbn; lia | lia].
Qed.

Lemma spread_nil {A} (examples : list (option A)) (table : list (list float)) :
  spread examples [] table = table.
Proof.
  revert table. induction examples as [|[x|] examples IH]; intros [|row table];
    cbn; try done. by rewrite IH.
Qed.

Lemma scatter_pairs_valid {A} (examples : list (option A)) :
  ∀ (s : nat) (prediction : list float) (done table : list (list float)),
    length done = s →
    length table = length examples →
    scatter_pairs (zip (valid_from s examples) prediction) (done ++ table)
      = Ok (done ++ spread examples prediction table).
Proof.
  induction examples as [|[x|] examples IH]; intros s prediction done table Hs Ht.
  - by destruct table.
  - destruct table as [|row table]; [done|]. cbn [valid_from].
    destruct prediction as [|p prediction]; [done|].
    cbn [zip zip_with scatter_pairs spread]. unfold index.
    rewrite lookup_app_r, Hs, Nat.sub_diag by lia. cbn [lookup list_lookup obind].
    rewrite insert_app_r_alt, Hs, Nat.sub_diag by lia. cbn [insert list_insert].
    replace (done ++ (row ++ [p]) :: table) with ((done ++ [row ++ [p]]) ++ table)
      by (by rewrite <- app_assoc).
    rewrite (IH (S s)); [by rewrite <- app_assoc | | by injection Ht].
    rewrite length_app. cbn. lia.
  - destruct table as [|row table]; [done|]. cbn [valid_from spread].
    replace (done ++ row :: table) with ((done ++ [row]) ++ table)
      by (by rewrite <- app_assoc).
    rewrite (IH (S s)); [by rewrite <- app_assoc | | by injection Ht].
    rewrite length_app. cbn. lia.
Qed.

Lemma rows_length {A} (examples : list (option A)) (predictions : list (list float)) :
  length (rows examples predictions) = length examples.
Proof.
  revert predictions. induction examples as [|[x|] examples IH]; intros ps; cbn;
    [done| |]; by rewrite IH.
Qed.

Lemma rows_none {A} (examples : list (option A)) :
  rows examples [] = replicate (length examples) [].
Proof.
  induction examples as [|[x|] examples IH]; cbn; [done| |]; by rewrite IH.
Qed.

Lemma rows_snoc_nil {A} (examples : list (option A)) (predictions : list (list float)) :
  rows examples (predictions ++ [[]]) = rows examples predictions.
Proof.
  revert predictions. induction examples as [|[x|] examples IH]; intros ps; cbn; [done| |].
  - rewrite map_app, omap_app. cbn. by rewrite IH, app_nil_r.
  - by rewrite IH.
Qed.

Lemma spread_rows {A} (examples : list (option A)) :
  ∀ (predictions : list (list float)) (prediction : list float),
    spread examples prediction (rows examples predictions)
      = rows examples (predictions ++ [prediction]).
Proof.
  induction examples as [|[x|] examples IH]; intros ps p; cbn [rows spread]; [done| |].
  - destruct p as [|s p].
    + rewrite map_app, omap_app. cbn [map omap head tail mbind option_bind app].
      by rewrite rows_snoc_nil, app_nil_r.
    + rewrite map_app, omap_app. cbn [map omap head tail mbind option_bind app].
      by rewrite IH.
  - by rewrite IH.
Qed.

(** The row of the [k]-th valid position holds the [k]-th score of each
    adapter that gave at least [k+1] scores, in the adapters' order. *)
Lemma rows_lookup_valid {A} (examples : list (option A)) :
  ∀ (s k i : nat) (predictions : list (list float)),
    valid_from s examples !! k = Some i →
    rows examples predictions !! (i - s) = Some (omap (λ P, P !! k) predictions).
Proof.
  induction examples as [|[x|] examples IH]; intros s k i ps Hk; cbn in Hk; [done| |].
  - destruct k as [|k]; cbn in Hk.
    + injection Hk as <-. rewrite Nat.sub_diag. cbn. f_equal.
      apply omap_pointwise. intros P. by destruct P.
    + pose proof (valid_from_bound _ _ _ (list_elem_of_lookup_2 _ _ _ Hk)) as Hb.
      replace (i - s) with (S (i - S s)) by lia. cbn [rows lookup list_lookup].
      rewrite (IH (S s) k i) by done. f_equal.
      rewrite omap_map. apply omap_pointwise. intros P. by destruct P.
  - pose proof (valid_from_bound _ _ _ (list_elem_of_lookup_2 _ _ _ Hk)) as Hb.
    replace (i - s) with (S (i - S s)) by lia. cbn [rows lookup list_lookup].
    by apply (IH (S s)).
Qed.

(** A position without an example has an empty row. *)
Lemma rows_lookup_none {A} (examples : list (option A)) (predictions : list (list float))
    (i : nat) :
  examples !! i = Some None → rows examples predictions !! i = Some [].
Proof.
  revert predictions i. induction examples as [|[x|] examples IH]; intros ps [|i] Hi;
    cbn in *; try done; by apply IH.
Qed.

(** No row is longer than the number of adapters. *)
Lemma rows_row_length {A} (examples : list (option A)) (predictions : list (list float))
    (i : nat) (row : list float) :
  rows examples predictions !! i = Some row → length row ≤ length predictions.
Proof.
  revert predictions i. induction examples as [|[x|] examples IH]; intros ps [|i] Hi;
    cbn in Hi; try done.
  - injection Hi as <-. apply omap_length_le.
  - apply IH in Hi. by rewrite length_map in Hi.
  - injection Hi as <-. cbn. lia.
  - by apply IH in Hi.
Qed.

End Table.

(** ** [EnsembleInsultsAgent.batch_act] in one equation *)

Section EnsembleBatch.
Context `{Backend}.

Lemma call_on_run {S T A} (obj : T) (m : M T A) (s : S) :
  call_on obj m s = Res (out (m obj)) s (calls (m obj)).
Proof. done. Qed.

Lemma models_loop_run (obs : list dict) (ms : list InsultsModel.t)
    (Ps : list (list float)) :
  Forall2 (answers_within (examples_of obs)) ms Ps →
  ∀ (Qs : list (list float)) (s : EnsembleInsultsAgent.t),
    let examples := map InsultsModel._build_ex obs in
    out (EnsembleInsultsAgent.models_loop obs ms (rows examples Qs) s)
      = Ok (rows examples (Qs ++ Ps)) ∧
    st (EnsembleInsultsAgent.models_loop obs ms (rows examples Qs) s) = s.
Proof.
  induction 1 as [|mdl P ms Ps [(batch & Hb & Hp) Hlen] _ IH]; intros Qs s examples.
  - cbn. by rewrite app_nil_r.
  - subst examples. cbn [EnsembleInsultsAgent.models_loop].
    unfold examples_of in Hb, Hlen. rewrite Hb, bind_lift_ok.
    rewrite bind_cases, call_on_run. cbn [out st calls]. rewrite Hp.
    cbn [the_array].
    set (examples := map InsultsModel._build_ex obs) in *.
    assert (EnsembleInsultsAgent.scatter
              (valid_indices (length obs) examples) P (seq 0 (length P))
              (rows examples Qs) = Ok (rows examples (Qs ++ [P]))) as Hsc.
    { subst examples. rewrite <- (length_map InsultsModel._build_ex obs) at 1.
      rewrite valid_indices_from.
      pose proof (scatter_seq P (valid_from 0 (map InsultsModel._build_ex obs))
                    [] [] (rows (map InsultsModel._build_ex obs) Qs) eq_refl) as E1.
      cbn [app length] in E1. rewrite E1 by (by rewrite valid_from_length).
      pose proof (scatter_pairs_valid (map InsultsModel._build_ex obs) 0 P []
                    (rows (map InsultsModel._build_ex obs) Qs) eq_refl
                    (rows_length _ _)) as E2.
      cbn [app] in E2. by rewrite E2, spread_rows. }
    rewrite bind_lift_ok, Hsc, bind_lift_ok.
    destruct (IH (Qs ++ [P]) s) as [Ho Hs]. fold examples in Ho, Hs.
    rewrite <- app_assoc in Ho. cbn [app] in Ho.
    cbn [out st]. by rewrite Ho, Hs.
Qed.

Lemma reply_loop_seq (self : EnsembleInsultsAgent.t) (table1 : list (list float)) :
  ∀ (replies1 : list dict) (table0 : list (list float)) (replies0 : list dict),
    length table0 = length replies0 →
    length table1 = length replies1 →
    EnsembleInsultsAgent.reply_loop self (table0 ++ table1)
      (seq (length table0) (length table1)) (replies0 ++ replies1)
    = (try rs <- replies_for self table1 replies1; Ok (replies0 ++ rs)).
Proof.
  induction table1 as [|row table1 IH]; intros replies1 table0 replies0 H0 H1.
  - destruct replies1; [|done]. cbn. by rewrite !app_nil_r.
  - destruct replies1 as [|r replies1]; [done|].
    cbn [length seq EnsembleInsultsAgent.reply_loop replies_for]. unfold index at 1.
    rewrite lookup_app_r, Nat.sub_diag by lia. cbn [lookup list_lookup obind].
    assert (∀ r', EnsembleInsultsAgent.reply_loop self (table0 ++ row :: table1)
                    (seq (S (length table0)) (length table1))
                    (replies0 ++ r' :: replies1)
                  = (try rs <- replies_for self table1 replies1;
                     Ok (replies0 ++ r' :: rs))) as Hnext.
    { intros r'.
      replace (table0 ++ row :: table1) with ((table0 ++ [row]) ++ table1)
        by (by rewrite <- app_assoc).
      replace (replies0 ++ r' :: replies1) with ((replies0 ++ [r']) ++ replies1)
        by (by rewrite <- app_assoc).
      replace (S (length table0)) with (length (table0 ++ [row]))
        by (rewrite length_app; cbn; lia).
      rewrite IH; [| rewrite !length_app; cbn; lia | by injection H1].
      destruct (replies_for self table1 replies1); cbn; [|done].
      by rewrite <- app_assoc. }
    unfold reply_for. destruct (length row =? 0)%nat.
    + cbn [obind]. rewrite Hnext. by destruct (replies_for _ _ _).
    + destruct (EnsembleInsultsAgent.weighted_sum self row) as [p|e]; cbn [obind]; [|done].
      unfold EnsembleInsultsAgent._predictions2text, InsultsModel._predictions2text.
      cbn [map obind index lookup list_lookup]. unfold index.
      rewrite lookup_app_r by lia.
      replace (length table0 - length replies0) with 0 by lia.
      cbn [lookup list_lookup obind].
      rewrite insert_app_r_alt by lia.
      replace (length table0 - length replies0) with 0 by lia.
      cbn [insert list_insert].
      rewrite Hnext. by destruct (replies_for _ _ _).
Qed.

Lemma ensemble_batch_act_run (a : EnsembleInsultsAgent.t) (obs : list dict)
    (Ps : list (list float)) :
  Shell.is_shared (EnsembleInsultsAgent.base a) = false →
  Forall2 (answers_within (examples_of obs)) (EnsembleInsultsAgent.models a) Ps →
  out (EnsembleInsultsAgent.batch_act obs a)
    = replies_for a (rows (map InsultsModel._build_ex obs) Ps)
        (initial_replies (Shell.agent_id (EnsembleInsultsAgent.base a)) (length obs)) ∧
  st (EnsembleInsultsAgent.batch_act obs a) = a.
Proof.
  intros Hs HPs. unfold EnsembleInsultsAgent.batch_act.
  rewrite bind_get, Hs. unfold Shell.guard_shared. rewrite bind_ret.
  rewrite bind_cases.
  assert (replicate (length obs) [] = rows (map InsultsModel._build_ex obs) [])
    as -> by (by rewrite rows_none, length_map).
  destruct (models_loop_run obs _ Ps HPs [] a) as [-> ->]. cbn [app].
  rewrite lift_run. cbn [out st].
  pose proof (reply_loop_seq a (rows (map InsultsModel._build_ex obs) Ps)
                (initial_replies (Shell.agent_id (EnsembleInsultsAgent.base a))
                   (length obs)) [] [] eq_refl) as E.
  cbn [app length] in E. rewrite rows_length, length_map in E.
  rewrite E by (unfold initial_replies; by rewrite length_replicate).
  split; [|done]. by destruct (replies_for _ _ _).
Qed.

End EnsembleBatch.

(** ** C1 and C2: the combined score of a position *)

Section Combined.
Context `{Backend}.

Lemma reply_for_run (self : EnsembleInsultsAgent.t) (row : list float) (r : dict) :
  length row ≤ length (EnsembleInsultsAgent.model_coefs self) →
  reply_for self row r = Ok (completed (EnsembleInsultsAgent.model_coefs self) row r).
Proof.
  intros Hle. unfold reply_for, completed.
  destruct (length row =? 0)%nat; [done|]. by rewrite weighted_sum_run.
Qed.

Lemma replies_for_run (self : EnsembleInsultsAgent.t) (table : list (list float)) :
  ∀ replies : list dict,
    Forall (λ row, length row ≤ length (EnsembleInsultsAgent.model_coefs self)) table →
    length table = length replies →
    ∃ rs, replies_for self table replies = Ok rs ∧
          ∀ i row r, table !! i = Some row → replies !! i = Some r →
                     rs !! i = Some (completed (EnsembleInsultsAgent.model_coefs self) row r).
Proof.
  induction table as [|row table IH]; intros [|r replies] Hall Hlen; try done.
  - by exists [].
  - apply Forall_cons in Hall as [Hrow Hall]. cbn [replies_for].
    rewrite reply_for_run by done. cbn [obind].
    destruct (IH replies Hall) as (rs & -> & Hrs); [by injection Hlen|].
    cbn [obind]. eexists. split; [done|].
    intros [|i] row' r' Ht Hr; cbn in *; [congruence | by apply Hrs].
Qed.

(** What [batch_act] returns when every adapter answers: position by
    position, the initial reply completed from the row of the table. *)
Lemma ensemble_batch_act_replies (a : EnsembleInsultsAgent.t) (obs : list dict)
    (Ps : list (list float)) :
  Shell.is_shared (EnsembleInsultsAgent.base a) = false →
  Forall2 (answers_within (examples_of obs)) (EnsembleInsultsAgent.models a) Ps →
  length (EnsembleInsultsAgent.models a) ≤ length (EnsembleInsultsAgent.model_coefs a) →
  ∃ replies,
    out (EnsembleInsultsAgent.batch_act obs a) = Ok replies ∧
    ∀ i row, rows (map InsultsModel._build_ex obs) Ps !! i = Some row →
      replies !! i
        = Some (completed (EnsembleInsultsAgent.model_coefs a) row
                  (<["id" := PStr (Shell.agent_id (EnsembleInsultsAgent.base a))]> ∅)).
Proof.
  intros Hs HPs Hcoefs.
  destruct (ensemble_batch_act_run a obs Ps Hs HPs) as [-> _].
  destruct (replies_for_run a (rows (map InsultsModel._build_ex obs) Ps)
              (initial_replies (Shell.agent_id (EnsembleInsultsAgent.base a))
                 (length obs))) as (rs & -> & Hrs).
  - apply Forall_forall. intros row [i Hi]%list_elem_of_lookup_1.
    apply rows_row_length in Hi. apply Forall2_length in HPs. lia.
  - unfold initial_replies. by rewrite rows_length, length_map, length_replicate.
  - exists rs. split; [done|]. intros i row Hi. apply Hrs; [done|].
    unfold initial_replies. apply lookup_replicate_2.
    apply lookup_lt_Some in Hi. by rewrite rows_length, length_map in Hi.
Qed.

Lemma valid_of_row (obs : list dict) (Ps : list (list float)) (k i : nat) :
  valid_of obs !! k = Some i →
  rows (map InsultsModel._build_ex obs) Ps !! i = Some (omap (λ P, P !! k) Ps).
Proof.
  unfold valid_of. rewrite <- (length_map InsultsModel._build_ex obs) at 1.
  rewrite valid_indices_from. intros Hk.
  pose proof (rows_lookup_valid _ 0 k i Ps Hk) as E. by rewrite Nat.sub_0_r in E.
Qed.

Lemma omap_all_some {A B} (f : A → option B) (l : list A) (ys : list B) :
  Forall2 (λ x y, f x = Some y) l ys → omap f l = ys.
Proof. induction 1 as [|x y l ys E _ IH]; cbn; [done|]. by rewrite E, IH. Qed.

(** C1.  In a batch where every adapter of the ensemble answers, at a
    position for which every adapter contributes a score (the [k]-th
    example, at batch position [i]; [scores] are the adapters' [k]-th
    scores), with as many coefficients as adapters: [batch_act] returns,
    and the reply of that position holds as score the weighted average
    (sum of weight times score over sum of weights) of the adapters' scores
    and as text the label of that score by the rule "strictly greater than
    0.5". *)
Theorem ensemble_weighted_average (a : EnsembleInsultsAgent.t) (obs : list dict)
    (Ps : list (list float)) (k i : nat) (scores : list float) :
  Shell.is_shared (EnsembleInsultsAgent.base a) = false →
  Forall2 (answers_within (examples_of obs)) (EnsembleInsultsAgent.models a) Ps →
  length (EnsembleInsultsAgent.model_coefs a) = length (EnsembleInsultsAgent.models a) →
  valid_of obs !! k = Some i →
  Forall2 (λ P s, P !! k = Some s) Ps scores →
  scores ≠ [] →
  let combined := weighted_average (EnsembleInsultsAgent.model_coefs a) scores in
  ∃ replies,
    out (EnsembleInsultsAgent.batch_act obs a) = Ok replies ∧
    replies !! i
      = Some (<["score" := PNum combined]>
                (<["text" := PStr (if PrimFloat.ltb 0.5 combined
                                   then "Insult" else "Non-insult")]>
                   (<["id" := PStr (Shell.agent_id (EnsembleInsultsAgent.base a))]> ∅))).
Proof.
  intros Hs HPs Hcoefs Hk Hscores Hne combined.
  destruct (ensemble_batch_act_replies a obs Ps Hs HPs) as (replies & Hout & Hrep);
    [lia|].
  exists replies. split; [done|].
  rewrite (Hrep i _ (valid_of_row obs Ps k i Hk)).
  rewrite (omap_all_some (λ P : list float, P !! k) Ps scores Hscores).
  unfold completed.
  destruct scores; [done|]. done.
Qed.


End Combined.

(** The literal case of C1: two adapters scoring 0.8 and 0.4 under the
    weights 1.0 and 3.0 combine to exactly 0.5, which is labelled
    [Non-insult]. *)
Lemma ensemble_weighted_average_witness :
  let a := Demo.ensemble [Demo.adapter [0.8]%float; Demo.adapter [0.4]%float]
             [1; 3]%float in
  ∃ replies,
    out (@EnsembleInsultsAgent.batch_act Demo.backend [Demo.turn "hello" true] a)
      = Ok replies ∧
    replies !! 0
      = Some (<["score" := PNum 0.5]>
                (<["text" := PStr "Non-insult"]> (<["id" := PStr "InsultsAgent"]> ∅))).
Proof.
  intros a.
  refine (@ensemble_weighted_average Demo.backend a [Demo.turn "hello" true]
            [[0.8]; [0.4]]%float 0 0 [0.8; 0.4]%float eq_refl _ eq_refl eq_refl _ _).
  - repeat constructor; eexists; split; reflexivity.
  - repeat constructor.
  - discriminate.
Defined.



(** ** C5: the reply list *)

Section Replies.
Context `{Backend}.

Lemma same_ids_initial (self_id : string) (obs rs : list dict) :
  same_ids (initial_replies self_id (length obs)) rs → well_formed_replies self_id obs rs.
Proof.
  intros Hs. split.
  - apply Forall2_length in Hs. unfold initial_replies in Hs.
    by rewrite length_replicate in Hs.
  - apply Forall_lookup. intros i r Hr.
    destruct (Forall2_lookup_r _ _ _ _ _ Hs Hr) as (r0 & Hr0 & ->).
    apply lookup_replicate in Hr0 as [-> _]. apply lookup_insert_eq.
Qed.

Lemma reply_loop_shape (self : EnsembleInsultsAgent.t) (table : list (list float))
    (ix : list nat) :
  ∀ rs rs', EnsembleInsultsAgent.reply_loop self table ix rs = Ok rs' → same_ids rs rs'.
Proof.
  induction ix as [|i ix IH]; intros rs rs'; cbn [EnsembleInsultsAgent.reply_loop].
  - intros [= ->]. apply same_ids_refl.
  - intros (row & _ & Hrest)%obind_ok.
    destruct (length row =? 0)%nat; [by apply IH|].
    apply obind_ok in Hrest as (p & _ & (texts & _ & (text & _ & (r & Hr & Hrest
      )%obind_ok)%obind_ok)%obind_ok).
    unfold index in Hr. destruct (rs !! i) as [r0|] eqn:E; [|done]. injection Hr as <-.
    eapply same_ids_trans; [|by apply IH].
    apply Forall2_same_length_lookup_2; [by rewrite length_insert|].
    intros j x y Hx Hy. destruct (decide (i = j)) as [->|Hne].
    + rewrite list_lookup_insert_eq in Hy by (by eapply lookup_lt_Some).
      injection Hy as <-. rewrite !lookup_insert_ne by done. congruence.
    + rewrite list_lookup_insert_ne in Hy by done. congruence.
Qed.

Lemma insults_replies_shape (a : InsultsAgent.t) (obs replies : list dict) :
  out (InsultsAgent.batch_act obs a) = Ok replies →
  well_formed_replies (Shell.agent_id (InsultsAgent.base a)) obs replies.
Proof.
  destruct (Shell.is_shared (InsultsAgent.base a)) eqn:Hs.
  { by rewrite insults_batch_act_shared. }
  destruct obs as [|o0 rest]; [by rewrite insults_batch_act_empty|].
  destruct (InsultsAgent.model a) as [mdl|] eqn:Hm.
  2: { by rewrite insults_batch_act_no_model. }
  rewrite (insults_batch_act_run a o0 rest mdl) by done.
  destruct (InsultsModel._batchify _ _) as [batch|e]; [|done]. cbn [out].
  destruct (out (step _ _ _)) as [p|e]; [|done].
  unfold InsultsAgent.write_replies.
  intros (texts & _ & (preds & _ & Hfill)%obind_ok)%obind_ok.
  apply same_ids_initial. by eapply fill_shape.
Qed.

Lemma ensemble_replies_shape (a : EnsembleInsultsAgent.t) (obs replies : list dict) :
  out (EnsembleInsultsAgent.batch_act obs a) = Ok replies →
  well_formed_replies (Shell.agent_id (EnsembleInsultsAgent.base a)) obs replies.
Proof.
  destruct (Shell.is_shared (EnsembleInsultsAgent.base a)) eqn:Hs.
  { by rewrite ensemble_batch_act_shared. }
  unfold EnsembleInsultsAgent.batch_act.
  rewrite bind_get, Hs. unfold Shell.guard_shared. rewrite bind_ret, bind_cases.
  destruct (out (EnsembleInsultsAgent.models_loop _ _ _ _)) as [table|e]; [|done].
  rewrite lift_run. cbn [out]. intros Hloop.
  apply same_ids_initial. by eapply reply_loop_shape.
Qed.

Lemma insults_batch_act_returns (a : InsultsAgent.t) (o0 : dict) (rest : list dict)
    (mdl : InsultsModel.t) (batch : batchv) (preds : list float) :
  Shell.is_shared (InsultsAgent.base a) = false →
  InsultsAgent.model a = Some mdl →
  InsultsModel._batchify mdl (examples_of (o0 :: rest)) = Ok batch →
  out (step (contains o0 "labels") batch mdl) = Ok (Some preds) →
  length preds ≤ length (examples_of (o0 :: rest)) →
  is_ok (out (InsultsAgent.batch_act (o0 :: rest) a)) = true.
Proof.
  intros Hs Hm Hb Hp Hlen.
  rewrite (insults_batch_act_run a o0 rest mdl) by done. rewrite Hb. cbn [out].
  rewrite Hp. unfold InsultsAgent.write_replies.
  cbn [InsultsAgent._predictions2text InsultsModel._predictions2text obind the_array].
  destruct (fill_returns (valid_of (o0 :: rest)) (map InsultsModel.label_of preds) preds
              (seq 0 (length preds))
              (initial_replies (Shell.agent_id (InsultsAgent.base a))
                 (length (o0 :: rest)))) as [rs ->]; [|done].
  apply Forall_forall. intros i [_ Hi]%elem_of_seq. cbn in Hi.
  rewrite length_map. repeat split; [done..|].
  destruct (lookup_lt_is_Some_2 (valid_of (o0 :: rest)) i) as [vi Hvi];
    [rewrite valid_of_length; lia|].
  exists vi. split; [done|]. unfold initial_replies. rewrite length_replicate.
  by eapply valid_of_bound.
Qed.

(** C5 (as amended).  Whenever [batch_act] returns a reply list, the
    list is as long as the batch and every reply carries the agent
    identifier; and [batch_act] does return one on an agent that is not
    shared when the example batch is built and the adapter answers with
    at most one score per example ([InsultsAgent], on a non-empty batch),
    or when every adapter does and there are at least as many coefficients
    as adapters ([EnsembleInsultsAgent]).  On an agent in shared mode
    [batch_act] raises [RuntimeError] for every batch. *)
Theorem batch_act_reply_list (obs : list dict) :
  (∀ (a : InsultsAgent.t) (replies : list dict),
     out (InsultsAgent.batch_act obs a) = Ok replies →
     well_formed_replies (Shell.agent_id (InsultsAgent.base a)) obs replies) ∧
  (∀ (a : EnsembleInsultsAgent.t) (replies : list dict),
     out (EnsembleInsultsAgent.batch_act obs a) = Ok replies →
     well_formed_replies (Shell.agent_id (EnsembleInsultsAgent.base a)) obs replies) ∧
  (∀ (a : InsultsAgent.t) (mdl : InsultsModel.t) (o0 : dict) (batch : batchv)
     (preds : list float),
     Shell.is_shared (InsultsAgent.base a) = false →
     InsultsAgent.model a = Some mdl →
     head obs = Some o0 →
     InsultsModel._batchify mdl (examples_of obs) = Ok batch →
     out (step (contains o0 "labels") batch mdl) = Ok (Some preds) →
     length preds ≤ length (examples_of obs) →
     is_ok (out (InsultsAgent.batch_act obs a)) = true) ∧
  (∀ (a : EnsembleInsultsAgent.t) (Ps : list (list float)),
     Shell.is_shared (EnsembleInsultsAgent.base a) = false →
     Forall2 (answers_within (examples_of obs)) (EnsembleInsultsAgent.models a) Ps →
     length (EnsembleInsultsAgent.models a)
       ≤ length (EnsembleInsultsAgent.model_coefs a) →
     is_ok (out (EnsembleInsultsAgent.batch_act obs a)) = true) ∧
  (∀ a : InsultsAgent.t,
     Shell.is_shared (InsultsAgent.base a) = true →
     out (InsultsAgent.batch_act obs a)
       = Raise (RuntimeError "Parallel act is not supported.")) ∧
  (∀ a : EnsembleInsultsAgent.t,
     Shell.is_shared (EnsembleInsultsAgent.base a) = true →
     out (EnsembleInsultsAgent.batch_act obs a)
       = Raise (RuntimeError "Parallel act is not supported.")).
Proof.
  split; [|split; [|split; [|split; [|split]]]].
  - intros a replies. apply insults_replies_shape.
  - intros a replies. apply ensemble_replies_shape.
  - intros a mdl o0 batch preds Hs Hm Hh Hb Hp Hlen.
    destruct obs as [|o rest]; [done|]. injection Hh as ->.
    by eapply insults_batch_act_returns.
  - intros a Ps Hs HPs Hc.
    destruct (ensemble_batch_act_replies a obs Ps Hs HPs Hc) as (replies & -> & _).
    done.
  - intros a Hs. by rewrite insults_batch_act_shared.
  - intros a Hs. by rewrite ensemble_batch_act_shared.
Qed.

End Replies.

Lemma batch_act_reply_list_witness :
  let obs := [Demo.turn "hello" true; Demo.textless; Demo.turn "bye" true] in
  let a := Demo.agent [0.9; 0.2]%float in
  ∃ replies,
    out (@InsultsAgent.batch_act Demo.backend obs a) = Ok replies ∧
    well_formed_replies "InsultsAgent" obs replies.
Proof.
  intros obs a.
  destruct (out (@InsultsAgent.batch_act Demo.backend obs a)) as [replies|e] eqn:E;
    [|by vm_compute in E].
  exists replies. split; [done|].
  exact (proj1 (@batch_act_reply_list Demo.backend obs) a replies E).
Defined.

(** C5, as stated, fails: [batch_act] raises on the batch of a labelled
    turn followed by an unlabelled one, both with a text, and on a batch
    given to a shared agent. *)
Lemma batch_act_can_raise :
  out (@InsultsAgent.batch_act Demo.backend
         [Demo.labelled_turn "a" "Insult"; Demo.turn "b" true]
         (Demo.agent [0.9; 0.2]%float)) = Raise (KeyError "labels") ∧
  out (@InsultsAgent.batch_act Demo.backend [Demo.turn "a" true] Demo.shared_agent)
    = Raise (RuntimeError "Parallel act is not supported.").
Proof. repeat split; vm_compute; reflexivity. Qed.

(** ** The ensemble on a batch with an observation without text *)

Section EnsembleTextless.
Context `{Backend}.

Lemma scatter_length (vs : list nat) (P : list float) (ix : list nat) :
  ∀ T T', EnsembleInsultsAgent.scatter vs P ix T = Ok T' → length T' = length T.
Proof.
  induction ix as [|i ix IH]; intros T T'; cbn [EnsembleInsultsAgent.scatter].
  - by intros [= ->].
  - intros (vi & _ & (row & _ & (p & _ & Hrest)%obind_ok)%obind_ok)%obind_ok.
    apply IH in Hrest. by rewrite length_insert in Hrest.
Qed.

Lemma models_loop_length (obs : list dict) (ms : list InsultsModel.t) :
  ∀ (T T' : list (list float)) (s : EnsembleInsultsAgent.t),
    out (EnsembleInsultsAgent.models_loop obs ms T s) = Ok T' → length T' = length T.
Proof.
  induction ms as [|mdl ms IH]; intros T T' s; cbn [EnsembleInsultsAgent.models_loop].
  - by intros [= ->].
  - rewrite (bind_cases (lift _)), lift_run. cbn [out st calls].
    destruct (InsultsModel._batchify _ _) as [batch|e]; [|done]. cbn [out].
    rewrite (bind_cases (call_on _ _)), call_on_run. cbn [out st calls].
    destruct (out (InsultsModel.predict batch mdl)) as [prediction|e]; [|done]. cbn [out].
    rewrite (bind_cases (lift _)), lift_run. cbn [out st calls].
    destruct (the_array prediction) as [P|e]; [|done]. cbn [out].
    rewrite (bind_cases (lift _)), lift_run. cbn [out st calls].
    destruct (EnsembleInsultsAgent.scatter _ _ _ T) as [T1|e] eqn:Hsc; [|done]. cbn [out].
    intros Hrest%IH. by rewrite (scatter_length _ _ _ _ _ Hsc) in Hrest.
Qed.

Lemma scatter_shift (p : nat) (vs : list nat) (P : list float) (ix : list nat) :
  ∀ T, p ≤ length T →
    EnsembleInsultsAgent.scatter (map (shift p) vs) P ix (insert_at p [] T)
      = with_row_at p (EnsembleInsultsAgent.scatter vs P ix T).
Proof.
  induction ix as [|i ix IH]; intros T Hp; cbn [EnsembleInsultsAgent.scatter]; [done|].
  unfold index. rewrite list_lookup_fmap.
  destruct (vs !! i) as [vi|]; cbn [obind fmap option_fmap option_map]; [|done].
  rewrite lookup_insert_at_shift by done.
  destruct (T !! vi) as [row|]; cbn [obind]; [|done].
  destruct (P !! i) as [x|]; cbn [obind]; [|done].
  rewrite insert_insert_at_shift by done.
  apply IH. by rewrite length_insert.
Qed.

Lemma models_loop_textless (pre post : list dict) (o : dict) (ms : list InsultsModel.t) :
  o !! "text" = None →
  ∀ (T : list (list float)) (s : EnsembleInsultsAgent.t),
    length pre ≤ length T →
    let with_o := EnsembleInsultsAgent.models_loop (pre ++ o :: post) ms
                    (insert_at (length pre) [] T) s in
    let without := EnsembleInsultsAgent.models_loop (pre ++ post) ms T s in
    out with_o = with_row_at (length pre) (out without) ∧
    st with_o = st without ∧
    calls with_o = calls without.
Proof.
  intros Ho. induction ms as [|mdl ms IH]; intros T s Hp with_o without;
    subst with_o without; [done|].
  cbn [EnsembleInsultsAgent.models_loop].
  change (not_none (map InsultsModel._build_ex (pre ++ o :: post)))
    with (examples_of (pre ++ o :: post)).
  change (not_none (map InsultsModel._build_ex (pre ++ post)))
    with (examples_of (pre ++ post)).
  change (valid_indices (length (pre ++ o :: post))
            (map InsultsModel._build_ex (pre ++ o :: post)))
    with (valid_of (pre ++ o :: post)).
  change (valid_indices (length (pre ++ post)) (map InsultsModel._build_ex (pre ++ post)))
    with (valid_of (pre ++ post)).
  rewrite examples_of_textless, valid_of_textless by done.
  rewrite !(bind_cases (lift _)), !lift_run. cbn [out st calls].
  destruct (InsultsModel._batchify mdl (examples_of (pre ++ post))) as [batch|e];
    [|done].
  rewrite !(bind_cases (call_on _ _)), !call_on_run. cbn [out st calls].
  destruct (out (InsultsModel.predict batch mdl)) as [prediction|e]; [|done].
  rewrite !(bind_cases (lift _)), !lift_run. cbn [out st calls].
  destruct (the_array prediction) as [P|e]; [|done].
  rewrite !(bind_cases (lift _)), !lift_run. cbn [out st calls].
  rewrite scatter_shift by done.
  destruct (EnsembleInsultsAgent.scatter _ _ _ T) as [T'|e] eqn:Hsc; [|done].
  cbn [with_row_at].
  destruct (IH T' s) as (-> & -> & ->);
    [by rewrite (scatter_length _ _ _ _ _ Hsc)|]. done.
Qed.

Lemma reply_loop_app (self : EnsembleInsultsAgent.t) (T : list (list float))
    (ix1 ix2 : list nat) :
  ∀ R, EnsembleInsultsAgent.reply_loop self T (ix1 ++ ix2) R
       = (try R1 <- EnsembleInsultsAgent.reply_loop self T ix1 R;
          EnsembleInsultsAgent.reply_loop self T ix2 R1).
Proof.
  induction ix1 as [|i ix1 IH]; intros R; cbn [app EnsembleInsultsAgent.reply_loop];
    [done|].
  destruct (index T i) as [row|]; cbn [obind]; [|done].
  destruct (length row =? 0)%nat; [apply IH|].
  destruct (EnsembleInsultsAgent.weighted_sum self row); cbn [obind]; [|done].
  destruct (EnsembleInsultsAgent._predictions2text _); cbn [obind]; [|done].
  destruct (index _ 0); cbn [obind]; [|done].
  destruct (index R i); cbn [obind]; [|done]. apply IH.
Qed.

Lemma reply_loop_shift (self : EnsembleInsultsAgent.t) (p : nat) (r0 : dict)
    (T : list (list float)) (ix : list nat) :
  p ≤ length T →
  ∀ R, p ≤ length R →
    EnsembleInsultsAgent.reply_loop self (insert_at p [] T) (map (shift p) ix)
      (insert_at p r0 R)
    = with_reply_at p r0 (EnsembleInsultsAgent.reply_loop self T ix R).
Proof.
  intros HT. induction ix as [|i ix IH]; intros R HR;
    cbn [map EnsembleInsultsAgent.reply_loop]; [done|].
  unfold index. rewrite lookup_insert_at_shift by done.
  destruct (T !! i) as [row|]; cbn [obind]; [|done].
  destruct (length row =? 0)%nat; [by apply IH|].
  destruct (EnsembleInsultsAgent.weighted_sum self row); cbn [obind]; [|done].
  unfold EnsembleInsultsAgent._predictions2text, InsultsModel._predictions2text.
  cbn [map obind lookup list_lookup].
  rewrite lookup_insert_at_shift by done.
  destruct (R !! i) as [r|]; cbn [obind]; [|done].
  rewrite insert_insert_at_shift by done.
  apply IH. by rewrite length_insert.
Qed.

Lemma reply_loop_skip (self : EnsembleInsultsAgent.t) (p : nat)
    (T : list (list float)) (R : list dict) :
  p ≤ length T →
  EnsembleInsultsAgent.reply_loop self (insert_at p [] T) [p] R = Ok R.
Proof.
  intros HT. cbn [EnsembleInsultsAgent.reply_loop]. unfold index.
  rewrite lookup_insert_at by done.
  rewrite Nat.ltb_irrefl, Nat.eqb_refl. done.
Qed.

Lemma seq_with_gap (p n : nat) :
  p ≤ n →
  seq 0 (S n) = map (shift p) (seq 0 p) ++ [p] ++ map (shift p) (seq p (n - p)).
Proof.
  intros Hp. replace (S n) with (p + (1 + (n - p))) by lia.
  rewrite seq_app, seq_app. cbn [plus seq app]. f_equal; [|f_equal].
  - rewrite <- (map_id (seq 0 p)) at 1. apply map_ext_in.
    intros i [_ Hi]%in_seq. unfold shift.
    by assert ((i <? p) = true) as -> by (apply Nat.ltb_lt; lia).
  - replace (p + 1) with (S p) by lia. rewrite <- seq_shift. apply map_ext_in.
    intros i [Hi _]%in_seq. unfold shift.
    by assert ((i <? p) = false) as -> by (apply Nat.ltb_ge; lia).
Qed.

Lemma reply_loop_textless (self : EnsembleInsultsAgent.t) (p n : nat) (r0 : dict)
    (T : list (list float)) (R : list dict) :
  p ≤ n → p ≤ length T → p ≤ length R →
  EnsembleInsultsAgent.reply_loop self (insert_at p [] T) (seq 0 (S n))
    (insert_at p r0 R)
  = with_reply_at p r0 (EnsembleInsultsAgent.reply_loop self T (seq 0 n) R).
Proof.
  intros Hn HT HR.
  rewrite (seq_with_gap p n Hn).
  replace (seq 0 n) with (seq 0 p ++ seq p (n - p))
    by (rewrite <- seq_app; f_equal; lia).
  rewrite !reply_loop_app, reply_loop_shift by done.
  destruct (EnsembleInsultsAgent.reply_loop self T (seq 0 p) R) as [R1|e] eqn:E1;
    cbn [with_reply_at obind]; [|done].
  rewrite reply_loop_app, reply_loop_skip by done. cbn [obind].
  apply reply_loop_shift; [done|].
  apply reply_loop_shape, Forall2_length in E1. lia.
Qed.

(** On an ensemble, the batch with a textless observation is processed
    as the batch without it; the replies are the same, with a reply that
    holds the identifier only at the textless position. *)
Lemma ensemble_textless (a : EnsembleInsultsAgent.t) (pre post : list dict) (o : dict) :
  o !! "text" = None →
  let with_o := EnsembleInsultsAgent.batch_act (pre ++ o :: post) a in
  let without := EnsembleInsultsAgent.batch_act (pre ++ post) a in
  out with_o
    = with_reply_at (length pre)
        (<["id" := PStr (Shell.agent_id (EnsembleInsultsAgent.base a))]> ∅)
        (out without) ∧
  st with_o = st without ∧
  calls with_o = calls without.
Proof.
  intros Ho with_o without. subst with_o without.
  destruct (Shell.is_shared (EnsembleInsultsAgent.base a)) eqn:Hs.
  { by rewrite !ensemble_batch_act_shared. }
  unfold EnsembleInsultsAgent.batch_act.
  rewrite !bind_get, Hs. unfold Shell.guard_shared. rewrite !bind_ret, !bind_cases.
  assert (replicate (length (pre ++ o :: post)) ([] : list float)
          = insert_at (length pre) [] (replicate (length (pre ++ post)) [])) as ->.
  { unfold insert_at. rewrite !length_app. cbn [length].
    rewrite take_replicate, drop_replicate, Nat.min_l by lia.
    replace (length pre + length post - length pre) with (length post) by lia.
    replace (length pre + S (length post)) with (length pre + (1 + length post)) by lia.
    by rewrite !replicate_add. }
  destruct (models_loop_textless pre post o (EnsembleInsultsAgent.models a) Ho
              (replicate (length (pre ++ post)) []) a) as (-> & -> & ->).
  { rewrite length_replicate, length_app. lia. }
  destruct (EnsembleInsultsAgent.models_loop (pre ++ post) _ _ a) as [[T|e] s1 c1] eqn:E;
    cbn [out st calls with_row_at]; [|done].
  rewrite !lift_run. cbn [out st calls]. split; [|done].
  rewrite initial_replies_insert_at.
  replace (length (pre ++ o :: post)) with (S (length (pre ++ post)))
    by (rewrite !length_app; cbn; lia).
  assert (length T = length (pre ++ post)) as HT.
  { pose proof (models_loop_length (pre ++ post) (EnsembleInsultsAgent.models a)
                  (replicate (length (pre ++ post)) []) T a) as HT.
    rewrite E in HT. rewrite HT by done. by rewrite length_replicate. }
  apply reply_loop_textless.
  - rewrite length_app. lia.
  - rewrite HT, length_app. lia.
  - unfold initial_replies. rewrite length_replicate, length_app. lia.
Qed.

End EnsembleTextless.

(** ** C6: the theorem *)

Section TextlessTheorem.
Context `{Backend}.

(** C6 (as amended).  An observation without text is left out of the
    example batch, and [batch_act] behaves on the batch as it does on the
    batch without that observation -- the same adapter calls, the same
    final state, the same exception if there is one -- and returns the
    same replies with one more reply, holding the agent identifier only,
    at the textless position.  For [EnsembleInsultsAgent] this holds for
    every batch; for [InsultsAgent] it holds when the batch has at least
    one other observation and the two batches (with and without the
    textless observation) agree on whether their first observation has
    labels, which is so whenever the textless observation is not the
    first. *)
Theorem textless_observation_skipped (pre post : list dict) (o : dict) :
  o !! "text" = None →
  examples_of (pre ++ o :: post) = examples_of (pre ++ post) ∧
  (∀ a : EnsembleInsultsAgent.t,
     let with_o := EnsembleInsultsAgent.batch_act (pre ++ o :: post) a in
     let without := EnsembleInsultsAgent.batch_act (pre ++ post) a in
     out with_o
       = with_reply_at (length pre)
           (<["id" := PStr (Shell.agent_id (EnsembleInsultsAgent.base a))]> ∅)
           (out without) ∧
     st with_o = st without ∧
     calls with_o = calls without) ∧
  (∀ (a : InsultsAgent.t) (h : dict),
     head (pre ++ post) = Some h →
     (pre = [] → contains o "labels" = contains h "labels") →
     let with_o := InsultsAgent.batch_act (pre ++ o :: post) a in
     let without := InsultsAgent.batch_act (pre ++ post) a in
     out with_o
       = with_reply_at (length pre)
           (<["id" := PStr (Shell.agent_id (InsultsAgent.base a))]> ∅) (out without) ∧
     st with_o = st without ∧
     calls with_o = calls without).
Proof.
  intros Ho. split; [by apply examples_of_textless|]. split.
  - intros a. by apply ensemble_textless.
  - intros a h Hh Hl. by apply (insults_textless a pre post o h).
Qed.

End TextlessTheorem.

Lemma textless_observation_skipped_witness :
  let a := Demo.agent [0.9; 0.2]%float in
  let e := Demo.ensemble [Demo.adapter [0.8; 0.7]%float; Demo.adapter [0.4; 0.9]%float]
             [1; 3]%float in
  let hello := Demo.turn "hello" true in
  let bye := Demo.turn "bye" true in
  let with_o := @InsultsAgent.batch_act Demo.backend [hello; Demo.textless; bye] a in
  let without := @InsultsAgent.batch_act Demo.backend [hello; bye] a in
  (out with_o = with_reply_at 1 (<["id" := PStr "InsultsAgent"]> ∅) (out without) ∧
   st with_o = st without ∧
   calls with_o = calls without) ∧
  is_ok (out with_o) = true ∧
  out (@EnsembleInsultsAgent.batch_act Demo.backend [hello; Demo.textless; bye] e)
    = with_reply_at 1 (<["id" := PStr "InsultsAgent"]> ∅)
        (out (@EnsembleInsultsAgent.batch_act Demo.backend [hello; bye] e)) ∧
  is_ok (out (@EnsembleInsultsAgent.batch_act Demo.backend
                [hello; Demo.textless; bye] e)) = true.
Proof.
  intros a e hello bye with_o without.
  pose proof (@textless_observation_skipped Demo.backend [hello] [bye] Demo.textless
                eq_refl) as (_ & Hens & Hins).
  split; [|split; [|split]].
  - apply (Hins a hello); [reflexivity | discriminate].
  - reflexivity.
  - apply (Hens e).
  - reflexivity.
Defined.

(** C6, as stated, fails: with the textless observation first and
    labelled, the batch is handed to [update], which cannot unpack the
    questions alone, so [batch_act] raises; without that observation the
    other position gets its reply. *)
Lemma textless_first_raises :
  let a := Demo.agent [0.9]%float in
  Demo.textless_labelled !! "text" = None ∧
  out (@InsultsAgent.batch_act Demo.backend
         [Demo.textless_labelled; Demo.turn "hi" true] a) = Raise ValueError ∧
  is_ok (out (@InsultsAgent.batch_act Demo.backend [Demo.turn "hi" true] a)) = true.
Proof. repeat split; vm_compute; reflexivity. Qed.

(** ** C8: a name outside the four *)

Section Construct.
Context `{Backend}.

Lemma family_of_other (name : string) :
  name ≠ "cnn_word" → name ≠ "lstm_word" → name ≠ "log_reg" → name ≠ "svc" →
  InsultsModel.family_of name = None.
Proof.
  intros H1 H2 H3 H4. unfold InsultsModel.family_of.
  apply String.eqb_neq in H1, H2, H3, H4. by rewrite H1, H2, H3, H4.
Qed.

Lemma build_network_other (self : InsultsModel.t) :
  InsultsModel.family_of (InsultsModel.model_name self) ≠ Some nn →
  InsultsModel.build_network self = Ok self.
Proof.
  unfold InsultsModel.family_of, InsultsModel.build_network.
  destruct (String.eqb _ "cnn_word") eqn:E1; [done|].
  destruct (String.eqb _ "lstm_word") eqn:E2; [done|]. cbn. by rewrite E2.
Qed.

(** C8 (as amended).  Constructing an adapter under a name other than
    [cnn_word], [lstm_word], [log_reg] and [svc] raises nothing (given an
    option dictionary with the keys the constructor reads, a model file
    path that is a string if present, and no pretrained model path): the
    adapter is returned with no model family, no model, [from_saved]
    false, and its [predict] returns [None] for every batch. *)
Theorem unknown_name_constructs (fs : files) (name : string)
    (word_index : pyval) (embedding_dict : option Emb) (opt : dict)
    (ks ps : list Z) (seed no_cuda : pyval) :
  name ≠ "cnn_word" → name ≠ "lstm_word" → name ≠ "log_reg" → name ≠ "svc" →
  InsultsModel.sizes opt "kernel_sizes_cnn" = Ok ks →
  InsultsModel.sizes opt "pool_sizes_cnn" = Ok ps →
  opt !! "model_seed" = Some seed →
  opt !! "no_cuda" = Some no_cuda →
  (∀ v, opt !! "model_file" = Some v → ∃ f, v = PStr f) →
  truthy (default PNone (opt !! "pretrained_model")) = false →
  let m := InsultsModel.mk name word_index None
             (<["cuda" := PBool (negb (truthy no_cuda))]> opt) ks ps None false
             PNone None None None 0 0 0 0 0 in
  InsultsModel.__init__ fs name word_index embedding_dict opt = Ok m ∧
  ∀ b, out (InsultsModel.predict b m) = Ok None.
Proof.
  intros H1 H2 H3 H4 Hks Hps Hseed Hcuda Hfile Hpre m.
  pose proof (family_of_other name H1 H2 H3 H4) as Hfam.
  split; [|done].
  unfold InsultsModel.__init__. rewrite Hks, Hps. cbn [obind].
  unfold getitem at 1. rewrite Hseed. cbn [obind]. rewrite Hfam.
  cbn [InsultsModel.is_family obind].
  assert (InsultsModel.saved_at fs opt None = Ok false) as ->.
  { unfold InsultsModel.saved_at. destruct (opt !! "model_file") as [v|] eqn:E; [|done].
    destruct (Hfile v eq_refl) as [f ->]. destruct (truthy (PStr f)); [|done].
    unfold InsultsModel.artifacts_present. cbn [InsultsModel.is_family].
    by rewrite !andb_false_r. }
  cbn [obind]. rewrite Hpre.
  unfold InsultsModel._init_from_scratch.
  apply String.eqb_neq in H3, H4. cbn [InsultsModel.model_name].
  rewrite H3. cbn [InsultsModel.model_name]. rewrite H4.
  rewrite build_network_other by (cbn [InsultsModel.model_name]; by rewrite Hfam).
  cbn [obind InsultsModel.model_type InsultsModel.is_family InsultsModel.opt].
  unfold getitem. by rewrite Hcuda.
Qed.

End Construct.

Lemma unknown_name_constructs_witness :
  ∃ m, @InsultsModel.__init__ Demo.backend ∅ "foo" PNone None Demo.base_opt = Ok m ∧
       InsultsModel.model_type m = None ∧
       InsultsModel.model m = None ∧
       ∀ b, out (InsultsModel.predict b m) = Ok None.
Proof.
  pose proof (@unknown_name_constructs Demo.backend ∅ "foo" PNone None Demo.base_opt
                [3; 3]%Z [3]%Z (PNum 23) (PBool true)
                ltac:(discriminate) ltac:(discriminate) ltac:(discriminate)
                ltac:(discriminate) eq_refl eq_refl eq_refl eq_refl
                ltac:(intros v Hv; vm_compute in Hv; discriminate) eq_refl)
    as [E Hp].
  eexists. split; [exact E|]. split; [reflexivity|]. split; [reflexivity|]. exact Hp.
Defined.

(** C8, as stated, fails: the name [foo] is none of the four and the
    constructor returns an adapter. *)
Lemma unknown_name_is_accepted :
  is_ok (@InsultsModel.__init__ Demo.backend ∅ "foo" PNone None Demo.base_opt) = true.
Proof. vm_compute. reflexivity. Qed.

(** ** C7: a missing artifact *)

Section Missing.
Context `{Backend}.

Lemma saved_at_absent (fs : files) (opt : dict) (f : string) (model_type : option family) :
  opt !! "model_file" = Some (PStr f) →
  InsultsModel.artifacts_present fs f model_type = false →
  InsultsModel.saved_at fs opt model_type = Ok false.
Proof.
  intros Hf Ha. unfold InsultsModel.saved_at. rewrite Hf, Ha.
  by destruct (truthy (PStr f)).
Qed.

Lemma artifacts_present_empty (f : string) (model_type : option family) :
  InsultsModel.artifacts_present ∅ f model_type = false.
Proof. done. Qed.

Lemma artifact_missing_absent (fs : files) (f : string) (model_type : option family) :
  artifact_missing fs f model_type →
  InsultsModel.artifacts_present fs f model_type = false.
Proof.
  unfold InsultsModel.artifacts_present.
  destruct model_type as [[]|]; cbn [InsultsModel.is_family artifact_missing].
  - intros Hm. unfold InsultsModel.isfile at 1. rewrite Hm.
    rewrite bool_decide_eq_false_2 by (by intros []). by rewrite !andb_false_r.
  - intros (p & Hp & Hm). rewrite !andb_false_r, orb_false_l, andb_true_r.
    apply not_true_is_false. intros Hall. rewrite forallb_forall in Hall.
    specialize (Hall p (proj1 (list_elem_of_In _ _) Hp)).
    unfold InsultsModel.isfile in Hall. rewrite Hm in Hall.
    by rewrite bool_decide_eq_false_2 in Hall by (by intros []).
  - intros _. by rewrite !andb_false_r.
Qed.

Lemma family_ngrams_names (name : string) :
  InsultsModel.family_of name = Some ngrams → name = "log_reg" ∨ name = "svc".
Proof.
  unfold InsultsModel.family_of.
  destruct (String.eqb name "cnn_word" || String.eqb name "lstm_word"); [done|].
  destruct (String.eqb name "log_reg") eqn:E1; [apply String.eqb_eq in E1; auto|].
  destruct (String.eqb name "svc") eqn:E2; [apply String.eqb_eq in E2; auto|done].
Qed.

(** C7 (as amended).  An adapter constructed with a model file path of
    which a required artifact is missing, and with no pretrained model
    path, is constructed exactly as it would be with no file on disk at
    all: the missing artifact raises nothing and nothing is restored from
    the path.  For the n-gram family (and an option dictionary with the
    keys the constructor reads) the constructor returns an adapter with
    [from_saved] false, a fresh classifier and no vectorizers. *)
Theorem missing_artifact_starts_afresh (fs : files) (name : string) (word_index : pyval)
    (embedding_dict : option Emb) (opt : dict) (f : string) :
  opt !! "model_file" = Some (PStr f) →
  artifact_missing fs f (InsultsModel.family_of name) →
  truthy (default PNone (opt !! "pretrained_model")) = false →
  InsultsModel.__init__ fs name word_index embedding_dict opt
    = InsultsModel.__init__ ∅ name word_index embedding_dict opt ∧
  (∀ (ks ps : list Z) (seed no_cuda : pyval),
     InsultsModel.family_of name = Some ngrams →
     InsultsModel.sizes opt "kernel_sizes_cnn" = Ok ks →
     InsultsModel.sizes opt "pool_sizes_cnn" = Ok ps →
     opt !! "model_seed" = Some seed →
     opt !! "no_cuda" = Some no_cuda →
     ∃ m, InsultsModel.__init__ fs name word_index embedding_dict opt = Ok m ∧
          InsultsModel.from_saved m = false ∧
          InsultsModel.model m
            = Some (if String.eqb name "log_reg" then log_reg_model else svc_model) ∧
          InsultsModel.vectorizers m = None ∧
          InsultsModel.selectors m = None).
Proof.
  intros Hf Ha%artifact_missing_absent Hpre.
  assert (InsultsModel.__init__ fs name word_index embedding_dict opt
          = InsultsModel.__init__ ∅ name word_index embedding_dict opt) as Heq.
  { unfold InsultsModel.__init__.
    destruct (InsultsModel.sizes opt "kernel_sizes_cnn"); cbn [obind]; [|done].
    destruct (InsultsModel.sizes opt "pool_sizes_cnn"); cbn [obind]; [|done].
    destruct (getitem opt "model_seed"); cbn [obind]; [|done].
    match goal with |- obind ?e _ = _ => destruct e; cbn [obind]; [|done] end.
    rewrite (saved_at_absent fs opt f) by done.
    rewrite (saved_at_absent ∅ opt f) by (done || apply artifacts_present_empty).
    cbn [obind]. by rewrite Hpre. }
  split; [done|].
  intros ks ps seed no_cuda Hfam Hks Hps Hseed Hcuda.
  rewrite Heq. unfold InsultsModel.__init__. rewrite Hks, Hps. cbn [obind].
  unfold getitem at 1. rewrite Hseed. cbn [obind]. rewrite Hfam.
  cbn [InsultsModel.is_family obind].
  rewrite (saved_at_absent ∅ opt f) by (done || apply artifacts_present_empty).
  cbn [obind]. rewrite Hpre.
  destruct (family_ngrams_names name Hfam) as [-> | ->];
    cbn; unfold getitem; rewrite Hcuda; cbn; by eexists.
Qed.

End Missing.

Lemma missing_artifact_starts_afresh_witness :
  ∃ m, @InsultsModel.__init__ Demo.backend Demo.all_but_classifier "log_reg" PNone None
         Demo.file_opt = Ok m ∧
       InsultsModel.from_saved m = false ∧
       InsultsModel.model m = Some [] ∧
       InsultsModel.vectorizers m = None ∧
       InsultsModel.selectors m = None.
Proof.
  refine (proj2 (@missing_artifact_starts_afresh Demo.backend Demo.all_but_classifier
                   "log_reg" PNone None Demo.file_opt "m" eq_refl _ eq_refl)
            [3; 3]%Z [3]%Z (PNum 23) (PBool true) eq_refl eq_refl eq_refl eq_refl eq_refl).
  exists "m_cls.pkl". split; [|reflexivity].
  apply list_elem_of_In. right. left. reflexivity.
Defined.

(** C7, as stated, fails: with the pickled classifier missing (all other
    artifacts of the path present) the constructor returns an adapter,
    initialised from scratch. *)
Lemma missing_classifier_is_not_fatal :
  Demo.all_but_classifier !! "m_cls.pkl" = None ∧
  is_ok (@InsultsModel.__init__ Demo.backend Demo.all_but_classifier "log_reg" PNone None
           Demo.file_opt) = true.
Proof. split; vm_compute; reflexivity. Qed.

(** ** C3: saving and loading *)

Section RoundTrip.
Context `{Backend}.

(** What [predict] returns depends on the family, the model, and the
    vectorizers and selectors only. *)
Lemma predict_out_ext (b : batchv) (m m' : InsultsModel.t) :
  InsultsModel.model_type m = InsultsModel.model_type m' →
  InsultsModel.model m = InsultsModel.model m' →
  InsultsModel.vectorizers m = InsultsModel.vectorizers m' →
  InsultsModel.selectors m = InsultsModel.selectors m' →
  out (InsultsModel.predict b m) = out (InsultsModel.predict b m').
Proof.
  intros Ht Hm Hv Hs. unfold InsultsModel.predict.
  rewrite !bind_get, !bind_emit. cbn [out]. rewrite <- Ht.
  unfold InsultsModel.the_model. rewrite <- Hm, <- Hv, <- Hs.
  destruct (InsultsModel.model_type m) as [[]|]; [| |done].
  - rewrite !bind_cases, !lift_run. cbn [out st].
    destruct (InsultsModel.model m); [|done].
    rewrite !bind_cases, !lift_run. cbn [out st].
    destruct (InsultsModel.as_arr b); [|done].
    rewrite !bind_cases, !lift_run. cbn [out st].
    by destruct (predict_on_batch _ _).
  - rewrite !bind_cases, !lift_run. cbn [out st].
    destruct (InsultsModel.as_arr b); [|done].
    rewrite !bind_cases, !lift_run. cbn [out st].
    destruct (vectorize_select_from_data _ _ _); [|done].
    rewrite !bind_cases, !lift_run. cbn [out st].
    destruct (InsultsModel.model m); [|done].
    rewrite !bind_cases, !lift_run. cbn [out st].
    by destruct (predict_proba _ _).
Qed.

Lemma build_network_same (a b : InsultsModel.t) :
  InsultsModel.build_network a = Ok b → same_but_model a b.
Proof.
  unfold InsultsModel.build_network.
  destruct (String.eqb (InsultsModel.model_name a) "cnn_word").
  - destruct (cnn_word_model _ _) as [e|]; cbn [obind]; [|done].
    cbn [InsultsModel.model_name InsultsModel.set_model].
    destruct (String.eqb _ "lstm_word").
    + destruct (lstm_word_model _) as [e'|]; cbn [obind]; [|done].
      intros [= <-]. by repeat split.
    + intros [= <-]. by repeat split.
  - cbn [obind]. destruct (String.eqb _ "lstm_word").
    + destruct (lstm_word_model _) as [e'|]; cbn [obind]; [|done].
      intros [= <-]. by repeat split.
    + intros [= <-]. by repeat split.
Qed.

Lemma compile_network_same (a b : InsultsModel.t) :
  InsultsModel.compile_network a = Ok b → same_but_model a b.
Proof.
  unfold InsultsModel.compile_network.
  destruct (InsultsModel.the_model a); cbn [obind]; [|done].
  destruct (compile _ _); cbn [obind]; [|done].
  intros [= <-]. by repeat split.
Qed.

Lemma rebuilt_same (m0 s1 : InsultsModel.t) (o : dict) :
  rebuilt m0 o = Ok s1 → same_but_model (InsultsModel.set_opt o m0) s1.
Proof.
  unfold rebuilt. intros (s & Hb%build_network_same & Hc%compile_network_same)%obind_ok.
  destruct Hb as (? & ? & ? & ?), Hc as (? & ? & ? & ?).
  repeat split; congruence.
Qed.

Lemma suffix_ne (f a b : string) : a ≠ b → f +:+ a ≠ f +:+ b.
Proof. intros Hne E. by apply (inj (String.app f)) in E. Qed.

(** C3 (as amended).  A ready adapter whose options name a model file:
    [save] succeeds, and [_init_from_saved] on the saved path, run for an
    adapter of the same family under construction, restores the option
    dictionary and the model (for the neural family, given that the
    library builds the network from the saved options and loads the saved
    weights into it unchanged).  The vectorizers and selectors are not
    restored: they stay what they were in the adapter under construction.
    Once the saved adapter's vectorizers and selectors are attached,
    [predict] returns on every batch what it returns for the saved
    adapter. *)
Theorem save_then_load (m m0 : InsultsModel.t) (fs : files) (f : string) (e : Est)
    (fam : family) :
  InsultsModel.model_type m = Some fam →
  InsultsModel.opt m !! "model_file" = Some (PStr f) →
  f ≠ "" →
  InsultsModel.model m = Some e →
  (fam = nn → is_Some (InsultsModel.embedding_dict m)) →
  InsultsModel.model_type m0 = Some fam →
  (fam = nn → ∃ s1 e1, rebuilt m0 (InsultsModel.opt m) = Ok s1 ∧
                       InsultsModel.model s1 = Some e1 ∧ load_weights e1 e = Ok e) →
  let r := InsultsModel.save None m fs in
  r.1 = Ok tt ∧
  ∃ m1, InsultsModel._init_from_saved r.2 (PStr f) m0 = Ok m1 ∧
        InsultsModel.model m1 = Some e ∧
        InsultsModel.opt m1 = InsultsModel.opt m ∧
        InsultsModel.vectorizers m1 = InsultsModel.vectorizers m0 ∧
        InsultsModel.selectors m1 = InsultsModel.selectors m0 ∧
        ∀ b, out (InsultsModel.predict b
                    (InsultsModel.set_vectorizers (InsultsModel.vectorizers m)
                       (InsultsModel.selectors m) m1))
             = out (InsultsModel.predict b m).
Proof.
  intros Hfam Hfile Hf Hmodel Hemb Hfam0 Hlib r. subst r.
  unfold InsultsModel.save. rewrite Hfile.
  change (default PNone (Some (PStr f))) with (PStr f). cbn [truthy].
  apply String.eqb_neq in Hf. rewrite Hf. cbn [negb]. rewrite Hfam, Hmodel.
  destruct fam; cbn [InsultsModel.is_family].
  - destruct (Hemb eq_refl) as [emb ->]. cbn [fst snd]. split; [done|].
    destruct (Hlib eq_refl) as (s1 & e1 & Hre & Hs1 & Hload).
    pose proof (rebuilt_same _ _ _ Hre) as (Ho & Ht & Hv & Hs).
    unfold rebuilt in Hre. apply obind_ok in Hre as (s & Hb & Hc).
    unfold InsultsModel._init_from_saved. cbn [InsultsModel.path_add obind].
    unfold InsultsModel.read_json. rewrite lookup_insert_eq. cbn [obind].
    cbn [InsultsModel.model_type InsultsModel.set_opt]. rewrite Hfam0.
    rewrite Hb. cbn [obind]. rewrite Hc. cbn [obind].
    unfold InsultsModel.read_weights.
    rewrite lookup_insert_ne by (by apply suffix_ne).
    rewrite lookup_insert_eq. cbn [obind].
    unfold InsultsModel.the_model. rewrite Hs1. cbn [obind]. rewrite Hload. cbn [obind].
    eexists. split; [done|]. cbn in Ho, Ht, Hv, Hs.
    repeat split; try done.
    intros b. apply predict_out_ext; cbn; congruence.
  - cbn [fst snd]. split; [done|].
    unfold InsultsModel._init_from_saved. cbn [InsultsModel.path_add obind].
    unfold InsultsModel.read_json. rewrite lookup_insert_eq. cbn [obind].
    cbn [InsultsModel.model_type InsultsModel.set_opt]. rewrite Hfam0.
    unfold InsultsModel.read_pickle.
    rewrite lookup_insert_ne by (by apply suffix_ne).
    rewrite lookup_insert_eq. cbn [obind].
    eexists. split; [done|]. repeat split.
    intros b. apply predict_out_ext; cbn; congruence.
Qed.

End RoundTrip.

Section OnDemo.
#[local] Existing Instance Demo.backend.

Lemma save_then_load_witness :
  let r := @InsultsModel.save Demo.backend None Demo.trained ∅ in
  r.1 = Ok tt ∧
  ∃ m1, InsultsModel._init_from_saved r.2 (PStr "m") Demo.under_construction = Ok m1 ∧
        InsultsModel.model m1 = Some [0.9]%float ∧
        InsultsModel.opt m1 = InsultsModel.opt Demo.trained ∧
        InsultsModel.vectorizers m1 = None ∧
        InsultsModel.selectors m1 = None ∧
        ∀ b, out (InsultsModel.predict b
                    (InsultsModel.set_vectorizers (Some tt) (Some tt) m1))
             = out (InsultsModel.predict b Demo.trained).
Proof.
  exact (@save_then_load Demo.backend Demo.trained Demo.under_construction ∅ "m"
           [0.9]%float ngrams eq_refl eq_refl ltac:(discriminate) eq_refl
           ltac:(discriminate) eq_refl ltac:(discriminate)).
Defined.

(** C3, as stated, fails for the n-gram family.  A trained adapter is
    saved under the path [m].  An adapter constructed with the same
    options (model file [m]) does not load it, the vectorizer files not
    being there, and starts from scratch; an adapter constructed to load
    the path as a pretrained model gets the classifier back but no
    vectorizers.  On the batch of one question the saved adapter predicts
    [0.9]; the first of the new adapters, even with the vectorizers
    attached, predicts nothing, and the second one raises. *)
Lemma saved_adapter_predicts_differently :
  let fs := (@InsultsModel.save Demo.backend None Demo.trained ∅).2 in
  let b := BQuestions [PStr "you"] in
  out (InsultsModel.predict b Demo.trained) = Ok (Some [0.9]%float) ∧
  (∃ m1, InsultsModel.__init__ fs "log_reg" PNone None Demo.file_opt = Ok m1 ∧
         InsultsModel.from_saved m1 = false ∧
         out (InsultsModel.predict b (InsultsModel.set_vectorizers (Some tt) (Some tt) m1))
           = Ok (Some [])) ∧
  (∃ m2, InsultsModel.__init__ fs "log_reg" PNone None Demo.pretrained_opt = Ok m2 ∧
         InsultsModel.from_saved m2 = true ∧
         InsultsModel.model m2 = Some [0.9]%float ∧
         InsultsModel.vectorizers m2 = None ∧
         out (InsultsModel.predict b m2) = Raise TypeError).
Proof.
  repeat split; try (eexists; repeat split); vm_compute; reflexivity.
Qed.

End OnDemo.

(** * Further properties of the code *)

(** ** [InsultsModel.create_batch] *)

Lemma traverse_ok {A B} (f : A → outcome B) (g : A → B) (l : list A) :
  (∀ a, a ∈ l → f a = Ok (g a)) → traverse f l = Ok (map g l).
Proof.
  induction l as [|a l IH]; intros Hf; [done|].
  cbn [traverse map]. rewrite Hf by left. cbn [obind].
  rewrite IH; [done|]. intros b Hb. apply Hf. by right.
Qed.

Lemma traverse_length {A B} (f : A → outcome B) (l : list A) (bs : list B) :
  traverse f l = Ok bs → length bs = length l.
Proof.
  revert bs. induction l as [|a l IH]; intros bs; cbn [traverse].
  - by intros [= <-].
  - destruct (f a) as [b|]; cbn [obind]; [|done].
    destruct (traverse f l) as [bs'|]; cbn [obind]; [|done].
    intros [= <-]. cbn. by rewrite (IH bs').
Qed.

Lemma traverse_Forall2 {A B} (f : A → outcome B) (l : list A) (bs : list B) :
  traverse f l = Ok bs → Forall2 (λ a b, f a = Ok b) l bs.
Proof.
  revert bs. induction l as [|a l IH]; intros bs; cbn [traverse].
  - intros [= <-]. constructor.
  - destruct (f a) as [b|] eqn:E; cbn [obind]; [|done].
    destruct (traverse f l) as [bs'|]; cbn [obind]; [|done].
    intros [= <-]. constructor; [done|]. by apply IH.
Qed.

Lemma map_const_replicate {A B} (b : B) (l : list A) :
  map (λ _, b) l = replicate (length l) b.
Proof. induction l; cbn; by f_equal. Qed.

Lemma asarray_ok {A} (accepted : list A → bool) (l l' : list A) :
  InsultsModelMore.asarray accepted l = Ok l' → l' = l.
Proof. unfold InsultsModelMore.asarray. destruct (accepted l); by intros [= <-]. Qed.

(** A loop whose body makes [g a] and raises [ValueError] when [g a]
    fails the test. *)
Lemma traverse_tested {A B} (f : A → outcome B) (g : A → B) (test : B → bool)
    (l : list A) :
  (∀ a, a ∈ l → f a = if test (g a) then Ok (g a) else Raise ValueError) →
  traverse f l = if forallb test (map g l) then Ok (map g l) else Raise ValueError.
Proof.
  induction l as [|a l IH]; intros Hf; [done|].
  cbn [traverse map forallb]. rewrite Hf by left.
  destruct (test (g a)); cbn [obind andb]; [|done].
  rewrite IH by (intros b Hb; apply Hf; by right).
  by destruct (forallb test (map g l)).
Qed.

Section CreateBatch.
Context `{Numpy}.

(** The row of one sentence, in closed form. *)
Lemma embeddings_of_words (opt : gmap string Z) (tok2emb : gmap string (list float))
    (n d : nat) (s : string) :
  opt !! "max_sequence_length" = Some (Z.of_nat n) →
  opt !! "embedding_dim" = Some (Z.of_nat d) →
  InsultsModelMore.embeddings_of opt (Some tok2emb) (PStr s)
    = InsultsModelMore.asarray row_accepted (padded_row n d tok2emb (words s)).
Proof.
  intros Hn Hd. unfold InsultsModelMore.embeddings_of, padded_row.
  cbn [InsultsModelMore.split obind]. fold (words s).
  unfold InsultsModelMore.opt_int at 1. rewrite Hn. cbn [obind].
  destruct (Z.ltb_spec (Z.of_nat n) (Z.of_nat (length (words s)))) as [Hlt|Hge].
  - unfold InsultsModelMore.slice_to.
    destruct (Z.ltb_spec (Z.of_nat n) 0) as [?|_]; [lia|]. rewrite Nat2Z.id.
    rewrite (traverse_ok _ (λ w, tok2emb !! w)) by done. cbn [obind].
    rewrite length_take.
    destruct (Z.ltb_spec (Z.of_nat (n `min` length (words s))) (Z.of_nat n)); [lia|].
    replace (n - length (words s)) with 0 by lia. done.
  - rewrite (traverse_ok _ (λ w, tok2emb !! w)) by done. cbn [obind].
    rewrite take_ge by lia.
    destruct (Z.ltb_spec (Z.of_nat (length (words s))) (Z.of_nat n)) as [Hlt|Hge'].
    + rewrite (traverse_ok _ (λ _, replicate d 0%float)).
      2: { intros i _. unfold InsultsModelMore.opt_int. rewrite Hd. cbn [obind].
           unfold InsultsModelMore.zeros.
           destruct (Z.ltb_spec (Z.of_nat d) 0); [lia|]. by rewrite Nat2Z.id. }
      cbn [obind]. rewrite map_map, map_const_replicate, length_seq.
      do 3 f_equal. lia.
    + replace (n - length (words s)) with 0 by lia. done.
Qed.

(** X1.  [create_batch] on sentences that are strings, with a token
    table and the two integer options set to [n] and [d].  The row made
    for a sentence holds the vectors of its first [n] words, in order (a
    word the table does not know gives [None]), preceded by as many zero
    vectors of dimension [d] as are needed to make [n] entries: words
    beyond the [n]-th are dropped, and runs of spaces make no word.  The
    method returns these rows when [np.asarray] accepts every row and the
    list of the rows, and raises [ValueError] when it refuses one. *)
Theorem create_batch_pads_and_truncates (opt : gmap string Z)
    (tok2emb : gmap string (list float)) (n d : nat) (sentences : list string) :
  opt !! "max_sequence_length" = Some (Z.of_nat n) →
  opt !! "embedding_dim" = Some (Z.of_nat d) →
  let rows := map (λ s, padded_row n d tok2emb (words s)) sentences in
  InsultsModelMore.create_batch opt (Some tok2emb) (map PStr sentences)
    = if forallb row_accepted rows && batch_accepted rows then Ok rows
      else Raise ValueError.
Proof.
  intros Hn Hd rows. subst rows. unfold InsultsModelMore.create_batch.
  rewrite (traverse_tested _ (λ sen, match sen with
                                     | PStr s => padded_row n d tok2emb (words s)
                                     | _ => []
                                     end) row_accepted).
  - rewrite map_map. destruct (forallb row_accepted _); cbn [obind andb]; done.
  - intros sen (s & -> & _)%list_elem_of_fmap. by apply embeddings_of_words.
Qed.

Lemma embeddings_of_length (opt : gmap string Z)
    (embedding_dict : option (gmap string (list float))) (n : nat) (sen : pyval)
    (row : list (option (list float))) :
  opt !! "max_sequence_length" = Some (Z.of_nat n) →
  InsultsModelMore.embeddings_of opt embedding_dict sen = Ok row →
  length row = n.
Proof.
  intros Hn. unfold InsultsModelMore.embeddings_of.
  destruct (InsultsModelMore.split sen) as [pieces|]; cbn [obind]; [|done].
  set (ws := List.filter _ pieces).
  unfold InsultsModelMore.opt_int at 1. rewrite Hn. cbn [obind].
  set (tokens := if (Z.of_nat n <? Z.of_nat (length ws))%Z then _ else ws).
  assert (length tokens ≤ n) as Hle.
  { subst tokens. destruct (Z.ltb_spec (Z.of_nat n) (Z.of_nat (length ws))); [|lia].
    unfold InsultsModelMore.slice_to.
    destruct (Z.ltb_spec (Z.of_nat n) 0); [lia|]. rewrite length_take. lia. }
  destruct (traverse _ tokens) as [embeddings|] eqn:He; cbn [obind]; [|done].
  apply traverse_length in He.
  destruct (Z.ltb_spec (Z.of_nat (length tokens)) (Z.of_nat n)) as [Hlt|Hge].
  - destruct (traverse _ (seq _ _)) as [pads|] eqn:Hp; cbn [obind]; [|done].
    apply traverse_length in Hp. rewrite length_seq in Hp.
    intros ->%asarray_ok. rewrite length_app, length_map. lia.
  - cbn [obind]. intros ->%asarray_ok. lia.
Qed.

(** X2.  Whenever [create_batch] returns, with [max_sequence_length]
    set to [n], the batch is rectangular: it has one row per sentence and
    every row has exactly [n] entries, whatever the sentences and the
    token table are. *)
Theorem create_batch_rectangular (opt : gmap string Z)
    (embedding_dict : option (gmap string (list float))) (n : nat)
    (sentences : list pyval) (rows : list (list (option (list float)))) :
  opt !! "max_sequence_length" = Some (Z.of_nat n) →
  InsultsModelMore.create_batch opt embedding_dict sentences = Ok rows →
  length rows = length sentences ∧ Forall (λ row, length row = n) rows.
Proof.
  intros Hn (rows0 & Hr & ->%asarray_ok)%obind_ok.
  split; [by eapply traverse_length|].
  apply traverse_Forall2 in Hr.
  induction Hr as [|sen row ? ? Hrow _ IH]; constructor; [|done].
  by eapply embeddings_of_length.
Qed.

End CreateBatch.

Lemma create_batch_pads_and_truncates_witness :
  let opt : gmap string Z :=
    <["max_sequence_length" := 3%Z]> (<["embedding_dim" := 2%Z]> ∅) in
  let tok2emb : gmap string (list float) :=
    <["so" := [5; 6]%float]> (<["you" := [1; 2]%float]> (<["are" := [3; 4]%float]> ∅)) in
  @InsultsModelMore.create_batch DemoMore.numpy opt (Some tok2emb)
    [PStr "you  are"; PStr "so you are not here"]
  = Ok [[Some [0; 0]; Some [1; 2]; Some [3; 4]];
        [Some [5; 6]; Some [1; 2]; Some [3; 4]]]%float.
Proof.
  intros opt tok2emb.
  exact (@create_batch_pads_and_truncates DemoMore.numpy opt tok2emb 3 2
           ["you  are"; "so you are not here"] eq_refl eq_refl).
Defined.

Lemma create_batch_rectangular_witness :
  let opt : gmap string Z :=
    <["max_sequence_length" := 3%Z]> (<["embedding_dim" := 2%Z]> ∅) in
  let rows := [[Some [0; 0]; Some [0; 0]; None]; [None; None; None]]%float in
  @InsultsModelMore.create_batch DemoMore.numpy opt (Some ∅)
    [PStr "hello"; PStr "a b c d"] = Ok rows ∧
  length rows = 2 ∧ Forall (λ row, length row = 3) rows.
Proof.
  intros opt rows. split; [reflexivity|].
  exact (@create_batch_rectangular DemoMore.numpy opt (Some ∅) 3
           [PStr "hello"; PStr "a b c d"] rows eq_refl eq_refl).
Defined.

(** ** [_build_ex] followed by [_batchify] *)

Section Batchify.
Context `{Backend}.

Lemma examples_of_cons (o : dict) (obs : list dict) :
  examples_of (o :: obs)
    = match InsultsModel._build_ex o with
      | Some ex => ex :: examples_of obs
      | None => examples_of obs
      end.
Proof. unfold examples_of, not_none. cbn. by destruct (InsultsModel._build_ex o). Qed.

Lemma build_ex_question (o ex : dict) :
  InsultsModel._build_ex o = Some ex → ex !! "question" = o !! "text".
Proof.
  unfold InsultsModel._build_ex. destruct (o !! "text") as [t|]; [|done].
  destruct (o !! "labels") as [l|]; intros [= <-].
  - rewrite lookup_insert_ne by done. by rewrite lookup_insert_eq.
  - by rewrite lookup_insert_eq.
Qed.

(** The questions of the example batch are the texts of the observations
    that have one. *)
Lemma questions_of_examples (obs : list dict) :
  traverse (λ ex, getitem ex "question") (examples_of obs) = Ok (texts_of obs).
Proof.
  induction obs as [|o obs IH]; [done|].
  rewrite examples_of_cons. unfold texts_of. cbn [omap list_omap].
  destruct (InsultsModel._build_ex o) as [ex|] eqn:E.
  - cbn [traverse]. unfold getitem at 1. rewrite (build_ex_question o ex E).
    destruct (o !! "text") as [t|] eqn:Et.
    + cbn [obind]. by rewrite IH.
    + unfold InsultsModel._build_ex in E. by rewrite Et in E.
  - unfold InsultsModel._build_ex in E.
    destruct (o !! "text") as [t|]; [by destruct (o !! "labels")|]. done.
Qed.

Lemma build_ex_size (o ex : dict) :
  InsultsModel._build_ex o = Some ex →
  (size ex =? 2)%nat = contains o "labels".
Proof.
  unfold InsultsModel._build_ex, contains. destruct (o !! "text") as [t|]; [|done].
  destruct (o !! "labels") as [l|]; intros [= <-].
  - rewrite map_size_insert_None by (by rewrite lookup_insert_ne).
    rewrite map_size_insert_None by done. rewrite map_size_empty.
    by rewrite bool_decide_eq_true_2.
  - rewrite map_size_insert_None by done. rewrite map_size_empty.
    by rewrite bool_decide_eq_false_2 by (by intros []).
Qed.

Lemma build_ex_label_bit (o ex : dict) (tl : pyval * string) :
  labelled_with o tl → InsultsModel._build_ex o = Some ex →
  InsultsModel.label_bit ex = Ok (class_of tl.2).
Proof.
  intros [Ht (ls & Hl)]. unfold InsultsModel._build_ex. rewrite Ht, Hl. intros [= <-].
  unfold InsultsModel.label_bit, getitem. by rewrite lookup_insert_eq.
Qed.

Lemma labelled_examples (obs : list dict) (tls : list (pyval * string)) :
  Forall2 labelled_with obs tls →
  texts_of obs = map fst tls ∧
  traverse InsultsModel.label_bit (examples_of obs) = Ok (map (λ tl, class_of tl.2) tls).
Proof.
  induction 1 as [|o tl obs tls Ho _ [IHt IHl]]; [done|].
  rewrite examples_of_cons. unfold texts_of. cbn [omap list_omap map].
  destruct Ho as [Ht (ls & Hl)]. rewrite Ht. fold (texts_of obs). rewrite IHt.
  split; [done|].
  destruct (InsultsModel._build_ex o) as [ex|] eqn:E.
  - cbn [traverse]. rewrite (build_ex_label_bit o ex tl) by (done || by split; eauto).
    cbn [obind]. by rewrite IHl.
  - unfold InsultsModel._build_ex in E. by rewrite Ht, Hl in E.
Qed.

(** X3.  Observations that all have a text and a non-empty list of
    labels: the example batch built from them is turned by [_batchify],
    for the n-gram family, into the pair of their texts and of the
    classes of their first labels (1 for [Insult], 0 otherwise), both in
    the order of the observations; for the neural family the texts are
    replaced by what [create_batch] makes of them. *)
Theorem batchify_labelled (self : InsultsModel.t) (obs : list dict)
    (tls : list (pyval * string)) :
  obs ≠ [] →
  Forall2 labelled_with obs tls →
  let y := map (λ tl, class_of tl.2) tls in
  (InsultsModel.model_type self = Some ngrams →
   InsultsModel._batchify self (examples_of obs) = Ok (BPair (map fst tls) y)) ∧
  (∀ emb x,
     InsultsModel.model_type self = Some nn →
     InsultsModel.embedding_dict self = Some emb →
     create_batch emb (InsultsModel.opt self) (map fst tls) = Ok x →
     InsultsModel._batchify self (examples_of obs) = Ok (BPair x y)).
Proof.
  intros Hne Hall y. destruct (labelled_examples obs tls Hall) as [Ht Hl].
  assert (∀ x, InsultsModel.with_labels (examples_of obs) x = Ok (BPair x y)) as Hw.
  { intros x. unfold InsultsModel.with_labels.
    destruct Hall as [|o tl obs tls Ho Hall]; [done|].
    rewrite examples_of_cons in Hl |- *.
    destruct (InsultsModel._build_ex o) as [ex|] eqn:E.
    - cbn [index lookup list_lookup obind]. rewrite (build_ex_size o ex E).
      destruct Ho as [_ (ls & Hls)]. unfold contains. rewrite Hls.
      rewrite bool_decide_eq_true_2 by done. by rewrite Hl.
    - destruct Ho as [Hto _]. unfold InsultsModel._build_ex in E. rewrite Hto in E.
      by destruct (o !! "labels"). }
  split.
  - intros Hf. unfold InsultsModel._batchify. rewrite Hf, questions_of_examples.
    cbn [obind]. by rewrite Ht, Hw.
  - intros emb x Hf He Hx. unfold InsultsModel._batchify.
    rewrite Hf, questions_of_examples. cbn [obind]. rewrite He, Ht, Hx.
    cbn [obind]. by rewrite Hw.
Qed.

(** X4.  When the first observation has a text and no labels, the
    n-gram family's [_batchify] returns the texts alone: the labels that
    later observations carry are not read. *)
Theorem batchify_first_unlabelled (self : InsultsModel.t) (o0 : dict) (rest : list dict) :
  InsultsModel.model_type self = Some ngrams →
  is_Some (o0 !! "text") →
  o0 !! "labels" = None →
  InsultsModel._batchify self (examples_of (o0 :: rest))
    = Ok (BQuestions (texts_of (o0 :: rest))).
Proof.
  intros Hf [t Ht] Hl. unfold InsultsModel._batchify.
  rewrite Hf, questions_of_examples. cbn [obind].
  unfold InsultsModel.with_labels. rewrite examples_of_cons.
  destruct (InsultsModel._build_ex o0) as [ex|] eqn:E.
  - cbn [index lookup list_lookup obind]. rewrite (build_ex_size o0 ex E).
    unfold contains. rewrite Hl. by rewrite bool_decide_eq_false_2 by (by intros []).
  - unfold InsultsModel._build_ex in E. by rewrite Ht, Hl in E.
Qed.

Lemma examples_of_no_text (obs : list dict) :
  Forall (λ o : dict, o !! "text" = None) obs → examples_of obs = [].
Proof.
  induction 1 as [|o obs Ho _ IH]; [done|].
  by rewrite examples_of_cons, (build_ex_textless o Ho).
Qed.

Lemma batchify_empty (self : InsultsModel.t) :
  InsultsModel.model_type self = Some ngrams →
  InsultsModel._batchify self [] = Raise IndexError.
Proof. intros Hf. unfold InsultsModel._batchify. by rewrite Hf. Qed.

(** X5.  A batch in which no observation has a text, the empty batch
    included, makes [InsultsAgent.batch_act] of an agent with an n-gram
    adapter raise [IndexError], and no call reaches the adapter. *)
Theorem batch_without_text_raises (a : InsultsAgent.t) (mdl : InsultsModel.t)
    (obs : list dict) :
  Shell.is_shared (InsultsAgent.base a) = false →
  InsultsAgent.model a = Some mdl →
  InsultsModel.model_type mdl = Some ngrams →
  Forall (λ o : dict, o !! "text" = None) obs →
  out (InsultsAgent.batch_act obs a) = Raise IndexError ∧
  calls (InsultsAgent.batch_act obs a) = [].
Proof.
  intros Hs Hm Hf Hall. destruct obs as [|o0 rest].
  - by rewrite insults_batch_act_empty.
  - rewrite (insults_batch_act_run a o0 rest mdl) by done.
    by rewrite (examples_of_no_text _ Hall), (batchify_empty mdl Hf).
Qed.

End Batchify.

Lemma batchify_labelled_witness :
  let obs := [Demo.labelled_turn "you fool" "Insult"; Demo.labelled_turn "hello" "no"] in
  InsultsModel._batchify (Demo.adapter []) (examples_of obs)
    = Ok (BPair [PStr "you fool"; PStr "hello"] [1%Z; 0%Z]).
Proof.
  intros obs.
  refine (proj1 (@batchify_labelled Demo.backend (Demo.adapter []) obs
                   [(PStr "you fool", "Insult"); (PStr "hello", "no")] _ _) eq_refl).
  - discriminate.
  - repeat constructor; by exists [].
Defined.

Lemma batchify_first_unlabelled_witness :
  InsultsModel._batchify (Demo.adapter [])
    (examples_of [Demo.turn "hello" true; Demo.labelled_turn "you fool" "Insult"])
  = Ok (BQuestions [PStr "hello"; PStr "you fool"]).
Proof.
  exact (@batchify_first_unlabelled Demo.backend (Demo.adapter [])
           (Demo.turn "hello" true) [Demo.labelled_turn "you fool" "Insult"]
           eq_refl ltac:(by eexists) eq_refl).
Defined.

Lemma batch_without_text_raises_witness :
  let r := @InsultsAgent.batch_act Demo.backend [Demo.textless; Demo.textless_labelled]
             (Demo.agent [0.9]%float) in
  out r = Raise IndexError ∧ calls r = [].
Proof.
  intros r.
  apply (@batch_without_text_raises Demo.backend (Demo.agent [0.9]%float)
           (Demo.adapter [0.9]%float)); try reflexivity.
  repeat constructor.
Defined.

(** ** [update], [predict] and the report *)

Section AdapterState.
Context `{Backend}.

Lemma update_nn_state (x y : arr) (m : InsultsModel.t) :
  let r := InsultsModel.update_nn x y m in
  InsultsModel.updates (st r) = InsultsModel.updates m ∧ same_configuration m (st r).
Proof.
  unfold InsultsModel.update_nn, bind, get, lift, modify, ret; simpl.
  destruct (InsultsModel.the_model m); simpl; [|done].
  destruct (train_on_batch _ _ _) as [[[e l] c]|]; simpl; [|done].
  destruct (predict_on_batch _ _); simpl; [|done].
  by destruct (roc_auc_score _ _).
Qed.

Lemma update_ngrams_state (x y : arr) (m : InsultsModel.t) :
  let r := InsultsModel.update_ngrams x y m in
  InsultsModel.updates (st r) = InsultsModel.updates m ∧ same_configuration m (st r).
Proof.
  unfold InsultsModel.update_ngrams, bind, get, lift, modify, ret; simpl.
  destruct (vectorize_select_from_data _ _ _); simpl; [|done].
  destruct (InsultsModel.the_model m); simpl; [|done].
  destruct (fit _ _ _); simpl; [|done].
  destruct (predict_proba _ _); simpl; [|done].
  destruct (binary_crossentropy _ _); simpl; [|done].
  destruct (binary_accuracy _ _); simpl; [|done].
  by destruct (roc_auc_score _ _).
Qed.

Lemma update_state (b : batchv) (m : InsultsModel.t) :
  let r := InsultsModel.update b m in
  InsultsModel.updates (st r)
    = (if is_ok (out r) then InsultsModel.updates m + 1 else InsultsModel.updates m) ∧
  same_configuration m (st r).
Proof.
  unfold InsultsModel.update, bind, get, emit, lift, modify, ret; simpl.
  destruct (InsultsModel.unpack2 b) as [[x y]|]; simpl; [|done].
  destruct (InsultsModel.model_type m) as [[]|] eqn:Hf; simpl.
  - pose proof (update_nn_state x y m) as [Hu Hc].
    destruct (InsultsModel.update_nn x y m) as [[p|e] s1 c1]; simpl in *;
      by rewrite ?Hu.
  - pose proof (update_ngrams_state x y m) as [Hu Hc].
    destruct (InsultsModel.update_ngrams x y m) as [[p|e] s1 c1]; simpl in *;
      by rewrite ?Hu.
  - done.
Qed.

End AdapterState.

(** X6.  [update] adds one to the adapter's count of updates exactly
    when it returns, and whether it returns or raises it keeps the
    adapter's name, options, family, origin, vectorizers, selectors and
    embedding dictionary. *)
Theorem update_counts_when_it_returns `{Backend} (b : batchv) (m : InsultsModel.t) :
  let r := InsultsModel.update b m in
  InsultsModel.updates (st r)
    = (if is_ok (out r) then InsultsModel.updates m + 1 else InsultsModel.updates m) ∧
  same_configuration m (st r).
Proof. apply update_state. Qed.

Section AgentState.
Context `{Backend}.

Lemma set_model_same (a : InsultsAgent.t) (mdl : InsultsModel.t) :
  InsultsAgent.model a = Some mdl → InsultsAgent.set_model (Some mdl) a = a.
Proof. destruct a; cbn. by intros ->. Qed.

Lemma examples_texts_length (obs : list dict) :
  length (examples_of obs) = length (texts_of obs).
Proof.
  symmetry. apply (traverse_length (λ ex, getitem ex "question")).
  apply questions_of_examples.
Qed.

(** A predicting call leaves the agent as it was. *)
Lemma insults_predict_state (a : InsultsAgent.t) (obs : list dict) :
  (∀ o0, head obs = Some o0 → contains o0 "labels" = false) →
  st (InsultsAgent.batch_act obs a) = a.
Proof.
  intros Hu.
  destruct (Shell.is_shared (InsultsAgent.base a)) eqn:Hs.
  { by rewrite insults_batch_act_shared. }
  destruct obs as [|o0 rest]; [by rewrite insults_batch_act_empty|].
  specialize (Hu o0 eq_refl).
  destruct (InsultsAgent.model a) as [mdl|] eqn:Hm.
  2: { rewrite insults_batch_act_no_model by done. by rewrite Hu. }
  rewrite (insults_batch_act_run a o0 rest mdl) by done. rewrite Hu.
  destruct (InsultsModel._batchify _ _) as [batch|e]; cbn [st step].
  - destruct (predict_calls batch mdl) as [_ ->]. by apply set_model_same.
  - by apply set_model_same.
Qed.

(** X7.  A call of [InsultsAgent.batch_act] that predicts (the first
    observation has no labels, or the batch is empty) leaves the report
    of the agent as it was, whether the call returns or raises. *)
Theorem prediction_keeps_report (a : InsultsAgent.t) (obs : list dict) :
  (∀ o0, head obs = Some o0 → contains o0 "labels" = false) →
  InsultsAgentMore.report (st (InsultsAgent.batch_act obs a))
    = InsultsAgentMore.report a.
Proof. intros Hu. by rewrite insults_predict_state. Qed.

(** X8.  After a call of [InsultsAgent.batch_act] that trains and
    returns, the report counts one update more and as many examples more
    as the batch has observations with a text. *)
Theorem report_after_training (a : InsultsAgent.t) (mdl : InsultsModel.t) (o0 : dict)
    (rest replies : list dict) :
  InsultsAgent.model a = Some mdl →
  contains o0 "labels" = true →
  out (InsultsAgent.batch_act (o0 :: rest) a) = Ok replies →
  ∃ report,
    InsultsAgentMore.report (st (InsultsAgent.batch_act (o0 :: rest) a)) = Ok report ∧
    report !! "updates" = Some (Int (InsultsModel.updates mdl + 1)) ∧
    report !! "n_examples"
      = Some (Int (InsultsAgent.n_examples a + length (texts_of (o0 :: rest)))).
Proof.
  intros Hm Hl.
  destruct (Shell.is_shared (InsultsAgent.base a)) eqn:Hs.
  { by rewrite insults_batch_act_shared. }
  rewrite (insults_batch_act_run a o0 rest mdl) by done. rewrite Hl.
  destruct (InsultsModel._batchify _ _) as [batch|e]; [|done]. cbn [out st step].
  pose proof (update_state batch mdl) as [Hu _]. cbn zeta in Hu.
  destruct (out (InsultsModel.update batch mdl)) as [p|e]; [|done]. cbn [is_ok] in Hu.
  intros _. unfold InsultsAgentMore.report. cbn [InsultsAgent.model InsultsAgent.set_model].
  eexists. split; [done|]. rewrite Hu, examples_texts_length. done.
Qed.

End AgentState.

Lemma prediction_keeps_report_witness :
  let a := Demo.agent [0.9; 0.2]%float in
  InsultsAgentMore.report
    (st (@InsultsAgent.batch_act Demo.backend
           [Demo.turn "a" true; Demo.labelled_turn "b" "Insult"] a))
  = InsultsAgentMore.report a.
Proof.
  intros a.
  apply (@prediction_keeps_report Demo.backend a). by intros o0 [= <-].
Defined.

Lemma report_after_training_witness :
  let a := Demo.agent [0.9; 0.2]%float in
  let obs := [Demo.labelled_turn "a" "Insult"; Demo.textless_labelled;
              Demo.labelled_turn "b" "no"] in
  ∃ report,
    InsultsAgentMore.report (st (@InsultsAgent.batch_act Demo.backend obs a)) = Ok report ∧
    report !! "updates" = Some (Int 1) ∧
    report !! "n_examples" = Some (Int 2).
Proof.
  intros a obs.
  destruct (out (@InsultsAgent.batch_act Demo.backend obs a)) as [replies|e] eqn:E;
    [|by vm_compute in E].
  exact (@report_after_training Demo.backend a (Demo.adapter [0.9; 0.2]%float)
           (Demo.labelled_turn "a" "Insult")
           [Demo.textless_labelled; Demo.labelled_turn "b" "no"] replies
           eq_refl eq_refl E).
Defined.

(** ** What [save] writes, [shutdown], and the load paths of the constructor *)

Section Persistence.
Context `{Backend}.

Lemma save_frame (fname : option pyval) (self : InsultsModel.t) (fs : files) (p : string) :
  InsultsModel.model_type self ≠ Some nn →
  (∀ f, save_path fname self = PStr f → p ∉ saved_files f) →
  (InsultsModel.save fname self fs).2 !! p = fs !! p.
Proof.
  intros Hfam Hp. unfold InsultsModel.save. fold (save_path fname self).
  destruct (truthy (save_path fname self)); [|done].
  destruct (save_path fname self) as [| |f| |] eqn:E; try done.
  specialize (Hp f eq_refl). unfold saved_files in Hp.
  apply not_elem_of_cons in Hp as [H1 Hp].
  apply not_elem_of_cons in Hp as [H2 _].
  destruct (InsultsModel.model_type self) as [[]|]; [done|..];
    cbn [InsultsModel.is_family]; destruct (InsultsModel.model self); cbn [snd];
    by rewrite ?lookup_insert_ne by done.
Qed.

Lemma save_nowhere (fname : option pyval) (self : InsultsModel.t) (fs : files) :
  truthy (save_path fname self) = false →
  InsultsModel.save fname self fs = (Ok tt, fs).
Proof.
  intros Hp. unfold InsultsModel.save. fold (save_path fname self). by rewrite Hp.
Qed.

End Persistence.

(** X9.  [save] of an adapter that is not of the neural family writes
    under its path only: a file that is neither [<path>_cls.pkl] nor
    [<path>_opt.json] is after the call what it was before, whatever the
    call's outcome; in particular the vectorizer files are never written.
    The path is the argument or, when that is missing or [None], the
    option [model_file].  Without a path (no such option or a [None] or
    empty one, or an empty argument) [save] of any adapter returns and
    writes no file. *)
Theorem save_writes_own_files_only `{Backend} (fname : option pyval)
    (self : InsultsModel.t) (fs : files) :
  (InsultsModel.model_type self ≠ Some nn →
   ∀ p, (∀ f, save_path fname self = PStr f → p ∉ saved_files f) →
        (InsultsModel.save fname self fs).2 !! p = fs !! p) ∧
  (truthy (save_path fname self) = false →
   InsultsModel.save fname self fs = (Ok tt, fs)).
Proof.
  split.
  - intros Hfam p. by apply save_frame.
  - apply save_nowhere.
Qed.

(** The vectorizer file is untouched by a [save] that is given [None]
    for its argument and takes the path from the options. *)
Lemma save_writes_own_files_only_witness :
  let r := @InsultsModel.save Demo.backend (Some PNone) Demo.trained
             Demo.all_but_classifier in
  r.2 !! "m_ngrams_vect_special.bin"
    = Demo.all_but_classifier !! "m_ngrams_vect_special.bin" ∧
  r.2 !! "m_cls.pkl" = Some (@InsultsModel.PickleFile Demo.backend [0.9]%float).
Proof.
  intros r. split; [|reflexivity].
  apply (proj1 (@save_writes_own_files_only Demo.backend (Some PNone) Demo.trained
                  Demo.all_but_classifier)); [discriminate|].
  intros f [= <-]. vm_compute. intros H.
  repeat (apply elem_of_cons in H as [H|H]; [discriminate|]).
  by apply elem_of_nil in H.
Defined.

Section Shutdown.
Context `{Backend}.

(** X10.  After [shutdown], which drops the embedding dictionary, what
    [predict] returns is what it returned before.  For an adapter that is not
    of the neural family, [save] and [_batchify] are not affected
    either.  For a neural adapter, [_batchify] afterwards raises
    [AttributeError] on every batch whose examples have a question, and
    [save] writes the weights file, raises [AttributeError] and does not
    write the options file. *)
Theorem shutdown_effects (m : InsultsModel.t) :
  (∀ b, out (InsultsModel.predict b (InsultsModelMore.shutdown m))
        = out (InsultsModel.predict b m)) ∧
  (InsultsModel.model_type m ≠ Some nn →
   (∀ fname fs, InsultsModel.save fname (InsultsModelMore.shutdown m) fs
                = InsultsModel.save fname m fs) ∧
   (∀ batch, InsultsModel._batchify (InsultsModelMore.shutdown m) batch
             = InsultsModel._batchify m batch)) ∧
  (InsultsModel.model_type m = Some nn →
   (∀ batch, is_ok (traverse (λ ex, getitem ex "question") batch) = true →
             InsultsModel._batchify (InsultsModelMore.shutdown m) batch
             = Raise (AttributeError "add_items")) ∧
   (∀ fname fs f e,
      save_path fname m = PStr f → f ≠ "" → InsultsModel.model m = Some e →
      InsultsModel.save fname (InsultsModelMore.shutdown m) fs
      = (Raise (AttributeError "save_items"), <[f +:+ ".h5" := InsultsModel.WeightsFile e]> fs))).
Proof.
  split; [intros b; by apply predict_out_ext|]. split.
  - intros Hf. split.
    + intros fname fs. unfold InsultsModel.save.
      cbn [InsultsModelMore.shutdown InsultsModelMore.set_embedding_dict
           InsultsModel.opt InsultsModel.model_type InsultsModel.model
           InsultsModel.embedding_dict].
      by destruct (InsultsModel.model_type m) as [[]|].
    + intros batch. unfold InsultsModel._batchify.
      cbn [InsultsModelMore.shutdown InsultsModelMore.set_embedding_dict
           InsultsModel.opt InsultsModel.model_type InsultsModel.embedding_dict].
      by destruct (InsultsModel.model_type m) as [[]|].
  - intros Hf. split.
    + intros batch Hq. unfold InsultsModel._batchify.
      cbn [InsultsModelMore.shutdown InsultsModelMore.set_embedding_dict
           InsultsModel.opt InsultsModel.model_type InsultsModel.embedding_dict].
      rewrite Hf. by destruct (traverse _ batch).
    + intros fname fs f e Hp Hne He. unfold InsultsModel.save.
      fold (save_path fname (InsultsModelMore.shutdown m)).
      change (save_path fname (InsultsModelMore.shutdown m)) with (save_path fname m).
      rewrite Hp. cbn [truthy]. apply String.eqb_neq in Hne. rewrite Hne. cbn [negb].
      cbn [InsultsModelMore.shutdown InsultsModelMore.set_embedding_dict
           InsultsModel.opt InsultsModel.model_type InsultsModel.model
           InsultsModel.embedding_dict].
      by rewrite Hf, He.
Qed.

End Shutdown.

Section Loading.
Context `{Backend}.

Lemma artifacts_all_present (fs : files) (f : string) :
  Forall (λ p, is_Some (fs !! p)) (InsultsModel.ngrams_artifacts f) →
  InsultsModel.artifacts_present fs f (Some ngrams) = true.
Proof.
  intros Hall. unfold InsultsModel.artifacts_present. cbn [InsultsModel.is_family].
  rewrite andb_false_r, andb_true_r, orb_false_l.
  apply forallb_forall. intros p Hp%list_elem_of_In.
  rewrite Forall_forall in Hall. unfold InsultsModel.isfile.
  by rewrite bool_decide_eq_true_2 by (by apply Hall).
Qed.

Lemma init_loads_saved (fs : files) (name : string) (word_index : pyval)
    (embedding_dict : option Emb) (opt saved : dict) (f : string) (e : Est)
    (ks ps : list Z) (seed no_cuda : pyval) :
  InsultsModel.family_of name = Some ngrams →
  InsultsModel.sizes opt "kernel_sizes_cnn" = Ok ks →
  InsultsModel.sizes opt "pool_sizes_cnn" = Ok ps →
  opt !! "model_seed" = Some seed →
  opt !! "model_file" = Some (PStr f) →
  f ≠ "" →
  Forall (λ p, is_Some (fs !! p)) (InsultsModel.ngrams_artifacts f) →
  fs !! (f +:+ "_opt.json") = Some (InsultsModel.JsonFile saved) →
  fs !! (f +:+ "_cls.pkl") = Some (InsultsModel.PickleFile e) →
  saved !! "no_cuda" = Some no_cuda →
  InsultsModel.__init__ fs name word_index embedding_dict opt
    = Ok (InsultsModel.mk name word_index None
            (<["cuda" := PBool (negb (truthy no_cuda))]> saved) ks ps (Some ngrams)
            true PNone None None (Some e) 0 0 0 0 0).
Proof.
  intros Hfam Hks Hps Hseed Hfile Hne Hall Hjson Hpkl Hcuda.
  unfold InsultsModel.__init__. rewrite Hks, Hps. cbn [obind].
  unfold getitem at 1. rewrite Hseed. cbn [obind]. rewrite Hfam.
  cbn [InsultsModel.is_family obind].
  unfold InsultsModel.saved_at. rewrite Hfile. cbn [truthy].
  apply String.eqb_neq in Hne. rewrite Hne. cbn [negb].
  rewrite artifacts_all_present by done. cbn [obind].
  unfold getitem at 1. rewrite Hfile. cbn [obind].
  unfold InsultsModel._init_from_saved. cbn [InsultsModel.path_add obind].
  unfold InsultsModel.read_json. rewrite Hjson. cbn [obind].
  cbn [InsultsModel.model_type InsultsModel.set_opt InsultsModel.set_from_saved].
  unfold InsultsModel.read_pickle. rewrite Hpkl. cbn [obind].
  cbn [InsultsModel.opt InsultsModel.set_model InsultsModel.set_opt
       InsultsModel.set_from_saved].
  unfold getitem. rewrite Hcuda. done.
Qed.

(** X11.  The load path of the constructor for the n-gram family: when
    the nine files of the model file path are there, the adapter is
    loaded.  Its classifier is the pickled one, and its options are the
    saved ones with the [cuda] flag set from their [no_cuda]: of the
    options given to the constructor only the path survives.  The
    vectorizers and selectors are not loaded. *)
Theorem constructor_loads_saved (fs : files) (name : string) (word_index : pyval)
    (embedding_dict : option Emb) (opt saved : dict) (f : string) (e : Est)
    (ks ps : list Z) (seed no_cuda : pyval) :
  InsultsModel.family_of name = Some ngrams →
  InsultsModel.sizes opt "kernel_sizes_cnn" = Ok ks →
  InsultsModel.sizes opt "pool_sizes_cnn" = Ok ps →
  opt !! "model_seed" = Some seed →
  opt !! "model_file" = Some (PStr f) →
  f ≠ "" →
  Forall (λ p, is_Some (fs !! p)) (InsultsModel.ngrams_artifacts f) →
  fs !! (f +:+ "_opt.json") = Some (InsultsModel.JsonFile saved) →
  fs !! (f +:+ "_cls.pkl") = Some (InsultsModel.PickleFile e) →
  saved !! "no_cuda" = Some no_cuda →
  InsultsModel.__init__ fs name word_index embedding_dict opt
    = Ok (InsultsModel.mk name word_index None
            (<["cuda" := PBool (negb (truthy no_cuda))]> saved) ks ps (Some ngrams)
            true PNone None None (Some e) 0 0 0 0 0).
Proof. apply init_loads_saved. Qed.

(** X12.  Loading reads the options file first, and a missing options
    file is fatal.  For the neural family the constructor tests the
    weights file only: with the weights there and the options file
    missing it raises [FileNotFoundError].  It raises the same, for
    every family, when nothing is loaded from the model file path and a
    pretrained model path is given whose options file is missing. *)
Theorem constructor_needs_options_file (fs : files) (name : string) (word_index : pyval)
    (emb : Emb) (opt : dict) (f : string) (ks ps : list Z) (seed : pyval) :
  InsultsModel.sizes opt "kernel_sizes_cnn" = Ok ks →
  InsultsModel.sizes opt "pool_sizes_cnn" = Ok ps →
  opt !! "model_seed" = Some seed →
  f ≠ "" →
  fs !! (f +:+ "_opt.json") = None →
  (InsultsModel.family_of name = Some nn →
   opt !! "model_file" = Some (PStr f) →
   is_Some (fs !! (f +:+ ".h5")) →
   InsultsModel.__init__ fs name word_index (Some emb) opt
     = Raise (FileNotFoundError (f +:+ "_opt.json"))) ∧
  (InsultsModel.saved_at fs opt (InsultsModel.family_of name) = Ok false →
   opt !! "pretrained_model" = Some (PStr f) →
   InsultsModel.__init__ fs name word_index (Some emb) opt
     = Raise (FileNotFoundError (f +:+ "_opt.json"))).
Proof.
  intros Hks Hps Hseed Hne Hjson. apply String.eqb_neq in Hne. split.
  - intros Hfam Hfile Hh5.
    unfold InsultsModel.__init__. rewrite Hks, Hps. cbn [obind].
    unfold getitem at 1. rewrite Hseed. cbn [obind]. rewrite Hfam.
    cbn [InsultsModel.is_family obind].
    unfold InsultsModel.saved_at. rewrite Hfile. cbn [truthy]. rewrite Hne. cbn [negb].
    unfold InsultsModel.artifacts_present, InsultsModel.isfile at 1.
    rewrite bool_decide_eq_true_2 by done. cbn [InsultsModel.is_family andb orb obind].
    unfold getitem at 1. rewrite Hfile. cbn [obind].
    unfold InsultsModel._init_from_saved. cbn [InsultsModel.path_add obind].
    unfold InsultsModel.read_json. by rewrite Hjson.
  - intros Hsaved Hpre.
    unfold InsultsModel.__init__. rewrite Hks, Hps. cbn [obind].
    unfold getitem at 1. rewrite Hseed. cbn [obind].
    assert ((if InsultsModel.is_family nn (InsultsModel.family_of name)
             then Ok (Some emb) else Ok None) = Ok (if InsultsModel.is_family nn
                                                        (InsultsModel.family_of name)
                                                    then Some emb else None)) as ->
      by (by destruct (InsultsModel.is_family _ _)).
    cbn [obind]. rewrite Hsaved. cbn [obind]. rewrite Hpre.
    change (default PNone (Some (PStr f))) with (PStr f).
    cbn [truthy]. rewrite Hne. cbn [negb].
    unfold getitem at 1. rewrite Hpre. cbn [obind].
    unfold InsultsModel._init_from_saved. cbn [InsultsModel.path_add obind].
    unfold InsultsModel.read_json. by rewrite Hjson.
Qed.

End Loading.

Lemma constructor_loads_saved_witness :
  @InsultsModel.__init__ Demo.backend DemoMore.saved_files "log_reg" PNone None
    Demo.file_opt
  = Ok (@InsultsModel.mk Demo.backend "log_reg" PNone None
          (<["cuda" := PBool false]> (<["cuda" := PBool false]> Demo.file_opt))
          [3; 3]%Z [3]%Z (Some ngrams) true PNone None None (Some [0.9]%float)
          0 0 0 0 0).
Proof.
  refine (@constructor_loads_saved Demo.backend DemoMore.saved_files "log_reg" PNone
            None Demo.file_opt (<["cuda" := PBool false]> Demo.file_opt) "m"
            [0.9]%float [3; 3]%Z [3]%Z (PNum 23) (PBool true)
            eq_refl eq_refl eq_refl eq_refl eq_refl _ _ eq_refl eq_refl eq_refl).
  - discriminate.
  - repeat constructor; by eexists.
Defined.

Lemma constructor_needs_options_file_witness :
  @InsultsModel.__init__ Demo.backend DemoMore.weights_only "cnn_word" PNone (Some tt)
    Demo.file_opt = Raise (FileNotFoundError "m_opt.json") ∧
  @InsultsModel.__init__ Demo.backend ∅ "log_reg" PNone (Some tt) Demo.pretrained_opt
    = Raise (FileNotFoundError "m_opt.json").
Proof.
  split.
  - refine (proj1 (@constructor_needs_options_file Demo.backend DemoMore.weights_only
                     "cnn_word" PNone tt Demo.file_opt "m" [3; 3]%Z [3]%Z (PNum 23)
                     eq_refl eq_refl eq_refl _ eq_refl) eq_refl eq_refl _).
    + discriminate.
    + by eexists.
  - refine (proj2 (@constructor_needs_options_file Demo.backend ∅
                     "log_reg" PNone tt Demo.pretrained_opt "m" [3; 3]%Z [3]%Z (PNum 23)
                     eq_refl eq_refl eq_refl _ eq_refl) eq_refl eq_refl).
    discriminate.
Defined.

(** ** [observe] and [act] *)

Section Observe.
Context `{Backend}.

Lemma zoom_run {S T A} (get : S → T) (set : T → S → S) (m : M T A) (s : S) :
  zoom get set m s = Res (out (m (get s))) (set (st (m (get s))) s) (calls (m (get s))).
Proof. done. Qed.

(** Inside an episode, a turn without text raises before anything is
    stored. *)
Lemma observe_textless_inside (s : Shell.t) (d o : dict) (acc : string) :
  truthy (Shell.episode_done s) = false →
  Shell.observation s = Some d →
  d !! "text" = Some (PStr acc) →
  o !! "text" = None →
  Shell.observe o s = Res (Raise (KeyError "text")) s [].
Proof.
  intros Hd Ho Hacc Ht.
  unfold Shell.observe, bind, get, lift, modify, ret, getitem, Shell.prev_text; simpl.
  rewrite Hd, Ho; simpl. unfold getitem. rewrite Hacc; simpl. by rewrite Ht.
Qed.

(** At an episode boundary, a turn without the flag is stored before
    the flag is missed. *)
Lemma observe_flagless_at_boundary (s : Shell.t) (o : dict) :
  truthy (Shell.episode_done s) = true →
  o !! "episode_done" = None →
  Shell.observe o s
    = Res (Raise (KeyError "episode_done")) (Shell.set_observation (Some o) s) [].
Proof.
  intros Hd Hv. unfold Shell.observe, bind, get, lift, modify, ret, getitem; simpl.
  rewrite Hd; simpl. by rewrite Hv.
Qed.

(** X13.  The two ways [InsultsAgent.observe] fails on a turn with a
    missing field.  Inside an episode a turn without [text] raises
    [KeyError] and the agent is as it was.  At an episode boundary a turn
    without [episode_done] raises [KeyError] too, but only after the turn
    has replaced the stored observation; the episode flag is as it was. *)
Theorem observe_missing_field (a : InsultsAgent.t) (o : dict) :
  (∀ d acc,
     truthy (Shell.episode_done (InsultsAgent.base a)) = false →
     Shell.observation (InsultsAgent.base a) = Some d →
     d !! "text" = Some (PStr acc) →
     o !! "text" = None →
     out (InsultsAgent.observe o a) = Raise (KeyError "text") ∧
     st (InsultsAgent.observe o a) = a) ∧
  (truthy (Shell.episode_done (InsultsAgent.base a)) = true →
   o !! "episode_done" = None →
   let r := InsultsAgent.observe o a in
   out r = Raise (KeyError "episode_done") ∧
   Shell.observation (InsultsAgent.base (st r)) = Some o ∧
   Shell.episode_done (InsultsAgent.base (st r))
     = Shell.episode_done (InsultsAgent.base a)).
Proof.
  split.
  - intros d acc Hd Ho Hacc Ht. unfold InsultsAgent.observe. rewrite zoom_run.
    rewrite (observe_textless_inside _ d o acc) by done. cbn [out st].
    split; [done|]. by destruct a.
  - intros Hd Hv r. subst r. unfold InsultsAgent.observe. rewrite zoom_run.
    rewrite observe_flagless_at_boundary by done. done.
Qed.

Lemma for_each_app {S A B} (f : A → M S B) (l1 l2 : list A) (s : S) :
  out (for_each f l1 s) = Ok tt →
  out (for_each f (l1 ++ l2) s) = out (for_each f l2 (st (for_each f l1 s))) ∧
  st (for_each f (l1 ++ l2) s) = st (for_each f l2 (st (for_each f l1 s))).
Proof.
  revert s. induction l1 as [|x l1 IH]; intros s; [done|].
  cbn [app for_each]. rewrite !bind_cases.
  destruct (out (f x s)) as [b|e]; [|done]. cbn [out st].
  intros Hok. by apply IH.
Qed.

Lemma for_each_snoc_ok {S A B} (f : A → M S B) (l : list A) (x : A) (s : S) :
  out (for_each f (l ++ [x]) s) = Ok tt →
  out (for_each f l s) = Ok tt ∧
  is_ok (out (f x (st (for_each f l s)))) = true ∧
  st (for_each f (l ++ [x]) s) = st (f x (st (for_each f l s))).
Proof.
  revert s. induction l as [|y l IH]; intros s.
  - cbn [app for_each]. rewrite bind_cases.
    destruct (out (f x s)) as [b|e] eqn:E; [|done]. cbn. by rewrite E.
  - cbn [app for_each]. rewrite !bind_cases.
    destruct (out (f y s)) as [b|e]; [|done]. cbn [out st]. apply IH.
Qed.

(** A turn that [observe] accepts sets the episode flag to its own. *)
Lemma observe_ok_flag (s : Shell.t) (o : dict) (v : pyval) :
  is_ok (out (Shell.observe o s)) = true →
  o !! "episode_done" = Some v →
  Shell.episode_done (st (Shell.observe o s)) = v.
Proof.
  intros Hok Hv. revert Hok.
  unfold Shell.observe, bind, get, lift, modify, ret; simpl.
  destruct (truthy (Shell.episode_done s)); simpl.
  - unfold getitem. by rewrite Hv.
  - destruct (Shell.prev_text _) as [prev|]; simpl; [|done].
    destruct (py_add prev _) as [x|]; simpl; [|done].
    destruct (getitem o "text") as [t|]; simpl; [|done].
    destruct (py_add x t) as [joined|]; simpl; [|done].
    unfold getitem. rewrite lookup_insert_ne by done. by rewrite Hv.
Qed.

Lemma episode_after_history (history : list dict) (closing : dict) (front : list dict)
    (final : dict) (texts : list string) (s : Shell.t) :
  out (for_each Shell.observe (history ++ [closing]) s) = Ok tt →
  (∃ v, closing !! "episode_done" = Some v ∧ truthy v = true) →
  Forall2 has_text (front ++ [final]) texts →
  Forall keeps_open front →
  is_Some (final !! "episode_done") →
  let r := for_each Shell.observe ((history ++ [closing]) ++ front ++ [final]) s in
  out r = Ok tt ∧ stores_text (st r) (String.concat Shell.nl texts).
Proof.
  intros Hok (v & Hv & Hvt) Ht Hopen Hfin r. subst r.
  destruct (for_each_app Shell.observe (history ++ [closing]) (front ++ [final]) s Hok)
    as [-> ->].
  destruct (for_each_snoc_ok _ _ _ _ Hok) as (_ & Hlast & ->).
  set (s1 := st (Shell.observe closing _)).
  assert (truthy (Shell.episode_done s1) = true) as Hd.
  { subst s1. by rewrite (observe_ok_flag _ closing v). }
  destruct (observe_run_episode front final texts s1 Hd Ht Hopen Hfin)
    as (s' & d' & -> & Hs' & Hd').
  split; [done|]. by eapply stores_text_intro.
Qed.

(** X14.  Episodes do not leak into one another.  After any history of
    turns that [observe] accepted and that ends with a turn carrying a
    true end-of-episode flag, the text stored at the end of the next
    episode is the newline-join of that episode's texts alone. *)
Theorem episodes_are_separate (history : list dict) (closing : dict) (front : list dict)
    (final : dict) (texts : list string) (a : InsultsAgent.t) :
  out (for_each InsultsAgent.observe (history ++ [closing]) a) = Ok tt →
  (∃ v, closing !! "episode_done" = Some v ∧ truthy v = true) →
  Forall2 has_text (front ++ [final]) texts →
  Forall keeps_open front →
  is_Some (final !! "episode_done") →
  let r := for_each InsultsAgent.observe ((history ++ [closing]) ++ front ++ [final]) a in
  out r = Ok tt ∧
  stores_text (InsultsAgent.base (st r)) (String.concat Shell.nl texts).
Proof.
  intros Hok Hc Ht Hopen Hfin r. subst r.
  destruct (shell_run_insults ((history ++ [closing]) ++ front ++ [final]) a) as [-> ->].
  destruct (shell_run_insults (history ++ [closing]) a) as [Ho _]. rewrite Ho in Hok.
  by apply episode_after_history.
Qed.

End Observe.

Lemma observe_missing_field_witness :
  (let a := st (@InsultsAgent.observe Demo.backend (Demo.turn "hello" false)
                  (Demo.agent [])) in
   out (InsultsAgent.observe Demo.textless a) = Raise (KeyError "text") ∧
   st (InsultsAgent.observe Demo.textless a) = a) ∧
  (let r := @InsultsAgent.observe Demo.backend (<["text" := PStr "hello"]> ∅)
              (Demo.agent []) in
   out r = Raise (KeyError "episode_done") ∧
   Shell.observation (InsultsAgent.base (st r)) = Some (<["text" := PStr "hello"]> ∅) ∧
   Shell.episode_done (InsultsAgent.base (st r)) = PBool true).
Proof.
  split.
  - intros a.
    exact (proj1 (@observe_missing_field Demo.backend a Demo.textless)
             (Demo.turn "hello" false) "hello" eq_refl eq_refl eq_refl eq_refl).
  - exact (proj2 (@observe_missing_field Demo.backend (Demo.agent [])
                    (<["text" := PStr "hello"]> ∅)) eq_refl eq_refl).
Defined.

Lemma episodes_are_separate_witness :
  let first_episode := [Demo.turn "hello" false; Demo.turn "bye" true] in
  let second_episode := [Demo.turn "you" false; Demo.turn "again" true] in
  let r := for_each (@InsultsAgent.observe Demo.backend)
             (first_episode ++ second_episode) (Demo.agent []) in
  out r = Ok tt ∧
  stores_text (InsultsAgent.base (st r)) (String.concat Shell.nl ["you"; "again"]).
Proof.
  intros first_episode second_episode.
  apply (@episodes_are_separate Demo.backend [Demo.turn "hello" false]
           (Demo.turn "bye" true) [Demo.turn "you" false] (Demo.turn "again" true)
           ["you"; "again"] (Demo.agent [])).
  - reflexivity.
  - by exists (PBool true).
  - repeat constructor.
  - repeat constructor. by exists (PBool false).
  - by exists (PBool true).
Defined.

(** ** The replies of [InsultsAgent.batch_act], and [act] *)

Section Replies.
Context `{Backend}.

Lemma valid_from_NoDup {A} (examples : list (option A)) (s : nat) :
  NoDup (valid_from s examples).
Proof.
  revert s. induction examples as [|[x|] examples IH]; intros s; cbn.
  - constructor.
  - constructor; [|apply IH]. intros Hin%valid_from_bound. lia.
  - apply IH.
Qed.

Lemma valid_of_NoDup (obs : list dict) : NoDup (valid_of obs).
Proof.
  unfold valid_of. rewrite <- (length_map InsultsModel._build_ex obs) at 1.
  rewrite valid_indices_from. apply valid_from_NoDup.
Qed.

Lemma valid_from_example {A} (examples : list (option A)) (s i : nat) :
  i ∈ valid_from s examples → ∃ x, examples !! (i - s) = Some (Some x).
Proof.
  revert s. induction examples as [|[x|] examples IH]; intros s; cbn.
  - intros Hi. by apply elem_of_nil in Hi.
  - intros [->|Hi]%elem_of_cons.
    + rewrite Nat.sub_diag. by exists x.
    + pose proof (valid_from_bound _ _ _ Hi) as Hb.
      destruct (IH _ Hi) as [y Hy]. exists y.
      replace (i - s) with (S (i - S s)) by lia. done.
  - intros Hi. pose proof (valid_from_bound _ _ _ Hi) as Hb.
    destruct (IH _ Hi) as [y Hy]. exists y.
    replace (i - s) with (S (i - S s)) by lia. done.
Qed.

(** The position of an observation without text is no valid index. *)
Lemma valid_of_textless_position (obs : list dict) (i : nat) (o : dict) :
  obs !! i = Some o → o !! "text" = None → i ∉ valid_of obs.
Proof.
  intros Hi Ho. unfold valid_of.
  rewrite <- (length_map InsultsModel._build_ex obs) at 1.
  rewrite valid_indices_from. intros [x Hx]%valid_from_example.
  rewrite Nat.sub_0_r, list_lookup_fmap, Hi in Hx. cbn in Hx.
  by rewrite (build_ex_textless o Ho) in Hx.
Qed.

(** [fill] leaves the replies at the positions it is not sent to. *)
Lemma fill_untouched (vs : list nat) (texts : list string) (preds : list float)
    (ix : list nat) (j : nat) :
  ∀ rs rs',
    InsultsAgent.fill vs texts preds ix rs = Ok rs' →
    (∀ i, i ∈ ix → vs !! i ≠ Some j) →
    rs' !! j = rs !! j.
Proof.
  induction ix as [|i ix IH]; intros rs rs'; cbn [InsultsAgent.fill].
  - by intros [= ->].
  - intros (t & _ & (vi & Hvi & (r & Hr & (p & _ & (vi' & Hvi' & (r' & Hr' & Hrest)%obind_ok
      )%obind_ok)%obind_ok)%obind_ok)%obind_ok)%obind_ok Hj.
    unfold index in Hvi, Hvi'. destruct (vs !! i) as [v|] eqn:Ev; [|done].
    injection Hvi as <-. injection Hvi' as <-.
    assert (v ≠ j) as Hne.
    { intros ->. by apply (Hj i); [left|]. }
    rewrite (IH _ _ Hrest) by (intros i' Hi'; apply Hj; by right).
    by rewrite !list_lookup_insert_ne by done.
Qed.

(** ... and writes the label and the score at the positions it is sent
    to. *)
Lemma fill_written (vs : list nat) (texts : list string) (preds : list float)
    (ix : list nat) :
  NoDup vs → NoDup ix →
  ∀ rs rs' i j t p r,
    InsultsAgent.fill vs texts preds ix rs = Ok rs' →
    i ∈ ix → vs !! i = Some j → texts !! i = Some t → preds !! i = Some p →
    rs !! j = Some r →
    rs' !! j = Some (<["score" := PNum p]> (<["text" := PStr t]> r)).
Proof.
  intros Hvs. induction ix as [|i0 ix IH]; intros Hix rs rs' i j t p r;
    cbn [InsultsAgent.fill].
  - intros _ Hi. by apply elem_of_nil in Hi.
  - apply NoDup_cons in Hix as [Hi0 Hix].
    intros (t0 & Ht0 & (vi & Hvi & (r0 & Hr0 & (p0 & Hp0 & (vi' & Hvi' & (r1 & Hr1 & Hrest
      )%obind_ok)%obind_ok)%obind_ok)%obind_ok)%obind_ok)%obind_ok Hi Hj Ht Hp Hr.
    unfold index in Ht0, Hvi, Hr0, Hp0, Hvi', Hr1.
    destruct (vs !! i0) as [v|] eqn:Ev; [|done].
    injection Hvi as <-. injection Hvi' as <-.
    destruct (texts !! i0) as [t0'|] eqn:Et0; [|done]. injection Ht0 as <-.
    destruct (preds !! i0) as [p0'|] eqn:Ep0; [|done]. injection Hp0 as <-.
    destruct (rs !! v) as [r0'|] eqn:Er0; [|done]. injection Hr0 as <-.
    rewrite list_lookup_insert_eq in Hr1 by (by eapply lookup_lt_Some).
    injection Hr1 as <-.
    apply elem_of_cons in Hi as [->|Hi].
    + assert (v = j) as -> by congruence.
      rewrite (fill_untouched _ _ _ _ j _ _ Hrest).
      * rewrite list_lookup_insert_eq
          by (rewrite length_insert; by eapply lookup_lt_Some).
        congruence.
      * intros i' Hi' Hv'. apply Hi0.
        by rewrite (NoDup_lookup _ _ _ _ Hvs Ev Hv').
    + assert (v ≠ j) as Hne.
      { intros ->. apply Hi0. by rewrite (NoDup_lookup _ _ _ _ Hvs Ev Hj). }
      apply (IH Hix _ _ i j t p r Hrest); try done.
      by rewrite !list_lookup_insert_ne by done.
Qed.

Lemma initial_replies_lookup (self_id : string) (n i : nat) :
  i < n → initial_replies self_id n !! i = Some (<["id" := PStr self_id]> ∅).
Proof. intros Hi. unfold initial_replies. by apply lookup_replicate_2. Qed.

(** X15.  The replies of [InsultsAgent.batch_act] when the adapter
    answers the example batch with the scores [preds], at most one per
    example.  The observation that gave the [k]-th example gets the
    [k]-th score and its label by the rule [> 0.5], next to the agent
    identifier; an observation without text gets the identifier alone,
    and so does every other position that no score is written to. *)
Theorem insults_reply_content (a : InsultsAgent.t) (mdl : InsultsModel.t) (o0 : dict)
    (rest : list dict) (batch : batchv) (preds : list float) :
  Shell.is_shared (InsultsAgent.base a) = false →
  InsultsAgent.model a = Some mdl →
  let obs := o0 :: rest in
  InsultsModel._batchify mdl (examples_of obs) = Ok batch →
  out (step (contains o0 "labels") batch mdl) = Ok (Some preds) →
  length preds ≤ length (examples_of obs) →
  let bare : dict := <["id" := PStr (Shell.agent_id (InsultsAgent.base a))]> ∅ in
  ∃ replies,
    out (InsultsAgent.batch_act obs a) = Ok replies ∧
    (∀ k i p,
       valid_of obs !! k = Some i → preds !! k = Some p →
       replies !! i
         = Some (<["score" := PNum p]>
                   (<["text" := PStr (InsultsModel.label_of p)]> bare))) ∧
    (∀ i o, obs !! i = Some o → o !! "text" = None → replies !! i = Some bare) ∧
    (∀ i, i < length obs →
          (∀ k, k < length preds → valid_of obs !! k ≠ Some i) →
          replies !! i = Some bare).
Proof.
  intros Hs Hm obs Hb Hp Hlen bare. subst obs.
  rewrite (insults_batch_act_run a o0 rest mdl) by done.
  set (obs := o0 :: rest) in *. rewrite Hb. cbn [out].
  rewrite Hp. unfold InsultsAgent.write_replies.
  cbn [InsultsAgent._predictions2text InsultsModel._predictions2text obind the_array].
  set (init := initial_replies (Shell.agent_id (InsultsAgent.base a)) (length obs)).
  destruct (fill_returns (valid_of obs) (map InsultsModel.label_of preds) preds
              (seq 0 (length preds)) init) as [replies Hfill].
  { apply Forall_forall. intros i [_ Hi]%elem_of_seq. cbn in Hi.
    rewrite length_map. repeat split; [done..|].
    destruct (lookup_lt_is_Some_2 (valid_of obs) i) as [vi Hvi];
      [rewrite valid_of_length; lia|].
    exists vi. split; [done|]. subst init. unfold initial_replies.
    rewrite length_replicate. by eapply valid_of_bound. }
  exists replies. split; [done|].
  assert (∀ i, i < length obs →
               (∀ k, k < length preds → valid_of obs !! k ≠ Some i) →
               replies !! i = Some bare) as Hbare.
  { intros i Hi Hno. rewrite (fill_untouched _ _ _ _ i _ _ Hfill).
    - by apply initial_replies_lookup.
    - intros k [_ Hk]%elem_of_seq. by apply Hno. }
  split; [|split; [|done]].
  - intros k i p Hk Hpk.
    apply (fill_written _ _ _ _ (valid_of_NoDup obs) (NoDup_seq 0 _) _ _ k i _ p bare
             Hfill); try done.
    + apply elem_of_seq. split; [lia|]. cbn. by eapply lookup_lt_Some.
    + by rewrite list_lookup_fmap, Hpk.
    + apply initial_replies_lookup. by eapply valid_of_bound.
  - intros i o Hi Ho. apply Hbare; [by eapply lookup_lt_Some|].
    intros k _ Hk. apply (valid_of_textless_position obs i o Hi Ho).
    by eapply list_elem_of_lookup_2.
Qed.

End Replies.

Lemma insults_reply_content_witness :
  let a := Demo.agent [0.9; 0.2]%float in
  let obs := [Demo.turn "you fool" true; Demo.textless; Demo.turn "hello" true] in
  let bare : dict := <["id" := PStr "InsultsAgent"]> ∅ in
  ∃ replies,
    out (@InsultsAgent.batch_act Demo.backend obs a) = Ok replies ∧
    replies !! 0 = Some (<["score" := PNum 0.9]> (<["text" := PStr "Insult"]> bare)) ∧
    replies !! 1 = Some bare ∧
    replies !! 2 = Some (<["score" := PNum 0.2]> (<["text" := PStr "Non-insult"]> bare)).
Proof.
  intros a obs bare.
  destruct (@insults_reply_content Demo.backend a (Demo.adapter [0.9; 0.2]%float)
              (Demo.turn "you fool" true) [Demo.textless; Demo.turn "hello" true]
              (BQuestions [PStr "you fool"; PStr "hello"]) [0.9; 0.2]%float
              eq_refl eq_refl eq_refl eq_refl ltac:(vm_compute; lia))
    as (replies & E & H0 & H1 & _).
  exists replies. split; [exact E|]. split; [|split].
  - exact (H0 0 0 _ eq_refl eq_refl).
  - exact (H1 1 _ eq_refl eq_refl).
  - exact (H0 1 2 _ eq_refl eq_refl).
Defined.

Section Act.
Context `{Backend}.

Lemma single_reply (self_id : string) (o : dict) (replies : list dict) :
  well_formed_replies self_id [o] replies → ∃ r, replies = [r].
Proof. intros [Hlen _]. destruct replies as [|r [|??]]; try done. by exists r. Qed.

Lemma act_after (S : Type) (m : M S (list dict)) (s : S) :
  (∀ replies, out (m s) = Ok replies → ∃ r, replies = [r]) →
  let r := (do rs <- m; lift (index rs 0)) s in
  (∀ replies, out (m s) = Ok replies → ∃ r0, replies = [r0] ∧ out r = Ok r0) ∧
  (∀ e, out (m s) = Raise e → out r = Raise e) ∧
  st r = st (m s) ∧ calls r = calls (m s).
Proof.
  intros Hone r. subst r. rewrite bind_cases.
  destruct (out (m s)) as [replies|e] eqn:E.
  - destruct (Hone replies eq_refl) as [r0 ->]. rewrite lift_run. cbn.
    rewrite app_nil_r. split; [|done]. intros ? [= <-]. by exists r0.
  - cbn. split; [done|]. split; [|done]. by intros ? [= <-].
Qed.

(** X16.  [act] on an agent that has observed is [batch_act] on the
    batch of the stored observation alone: a reply list that [batch_act]
    returns has exactly one reply, which [act] returns, so the subscript
    [[0]] never fails; an error of [batch_act] is the error of [act];
    the agent and the adapter calls are those of [batch_act].  This holds
    for [InsultsAgent] and for [EnsembleInsultsAgent]. *)
Theorem act_is_batch_of_one (o : dict) :
  (∀ a : InsultsAgent.t,
     Shell.observation (InsultsAgent.base a) = Some o →
     let b := InsultsAgent.batch_act [o] a in
     (∀ replies, out b = Ok replies →
                 ∃ r, replies = [r] ∧ out (InsultsAgent.act a) = Ok r) ∧
     (∀ e, out b = Raise e → out (InsultsAgent.act a) = Raise e) ∧
     st (InsultsAgent.act a) = st b ∧ calls (InsultsAgent.act a) = calls b) ∧
  (∀ a : EnsembleInsultsAgent.t,
     Shell.observation (EnsembleInsultsAgent.base a) = Some o →
     let b := EnsembleInsultsAgent.batch_act [o] a in
     (∀ replies, out b = Ok replies →
                 ∃ r, replies = [r] ∧ out (EnsembleInsultsAgent.act a) = Ok r) ∧
     (∀ e, out b = Raise e → out (EnsembleInsultsAgent.act a) = Raise e) ∧
     st (EnsembleInsultsAgent.act a) = st b ∧
     calls (EnsembleInsultsAgent.act a) = calls b).
Proof.
  split; intros a Ho b; subst b.
  - unfold InsultsAgent.act. rewrite bind_get, Ho.
    apply (act_after _ (InsultsAgent.batch_act [o]) a).
    intros replies Hr. eapply single_reply. by eapply insults_replies_shape.
  - unfold EnsembleInsultsAgent.act. rewrite bind_get, Ho.
    apply (act_after _ (EnsembleInsultsAgent.batch_act [o]) a).
    intros replies Hr. eapply single_reply. by eapply ensemble_replies_shape.
Qed.

End Act.

(** ** The ensemble: what it never does, and too few coefficients *)

Section EnsembleMore.
Context `{Backend}.




Lemma weighted_sum_short (self : EnsembleInsultsAgent.t) (scores : list float) :
  length (EnsembleInsultsAgent.model_coefs self) < length scores →
  EnsembleInsultsAgent.weighted_sum self scores = Raise IndexError.
Proof.
  intros Hlt. unfold EnsembleInsultsAgent.weighted_sum.
  pose proof (weighted_sum_loop_short _ scores [] [] 0%float eq_refl Hlt) as E.
  cbn [app length] in E. by rewrite E.
Qed.

Lemma weighted_sum_loop_error (coefs scores : list float) (js : list nat) :
  ∀ acc e, EnsembleInsultsAgent.weighted_sum_loop coefs scores js acc = Raise e →
           e = IndexError.
Proof.
  induction js as [|j js IH]; intros acc e; cbn [EnsembleInsultsAgent.weighted_sum_loop];
    [done|].
  unfold index. destruct (coefs !! j); cbn [obind]; [|by intros [= <-]].
  destruct (scores !! j); cbn [obind]; [|by intros [= <-]]. apply IH.
Qed.

Lemma reply_for_error (self : EnsembleInsultsAgent.t) (row : list float) (r : dict) e :
  reply_for self row r = Raise e → e = IndexError.
Proof.
  unfold reply_for. destruct (length row =? 0)%nat; [done|].
  unfold EnsembleInsultsAgent.weighted_sum.
  destruct (EnsembleInsultsAgent.weighted_sum_loop _ _ _ _) eqn:E; cbn [obind]; [done|].
  intros [= <-]. by eapply weighted_sum_loop_error.
Qed.

Lemma replies_for_short (self : EnsembleInsultsAgent.t) (table : list (list float)) :
  ∀ (replies : list dict) (i : nat) (row : list float),
    table !! i = Some row → i < length replies →
    length (EnsembleInsultsAgent.model_coefs self) < length row →
    replies_for self table replies = Raise IndexError.
Proof.
  induction table as [|row0 table IH]; intros [|r replies] i row Hi Hlt Hrow;
    cbn in Hlt; try done; try lia.
  cbn [replies_for].
  destruct (reply_for self row0 r) as [r'|e] eqn:E; cbn [obind].
  - destruct i as [|i]; cbn in Hi.
    + injection Hi as ->. unfold reply_for in E.
      destruct row as [|x row]; cbn in Hrow; [lia|]. cbn [length Nat.eqb] in E.
      by rewrite weighted_sum_short in E by (cbn; lia).
    + rewrite (IH replies i row) by (done || lia). done.
  - by rewrite (reply_for_error _ _ _ _ E).
Qed.

(** X18.  An ensemble with fewer coefficients than adapters that
    contribute to some position: when every adapter answers,
    [batch_act] raises [IndexError]. *)
Theorem ensemble_short_of_coefficients (a : EnsembleInsultsAgent.t) (obs : list dict)
    (Ps : list (list float)) (k i : nat) :
  Shell.is_shared (EnsembleInsultsAgent.base a) = false →
  Forall2 (answers_within (examples_of obs)) (EnsembleInsultsAgent.models a) Ps →
  valid_of obs !! k = Some i →
  length (EnsembleInsultsAgent.model_coefs a) < length (omap (λ P, P !! k) Ps) →
  out (EnsembleInsultsAgent.batch_act obs a) = Raise IndexError.
Proof.
  intros Hs HPs Hk Hlt.
  destruct (ensemble_batch_act_run a obs Ps Hs HPs) as [-> _].
  apply (replies_for_short a _ _ i _ (valid_of_row obs Ps k i Hk)); [|done].
  unfold initial_replies. rewrite length_replicate. by eapply valid_of_bound.
Qed.

End EnsembleMore.

Lemma ensemble_short_of_coefficients_witness :
  let a := Demo.ensemble [Demo.adapter [0.8]%float; Demo.adapter [0.4]%float]
             [1]%float in
  out (@EnsembleInsultsAgent.batch_act Demo.backend [Demo.turn "hello" true] a)
  = Raise IndexError.
Proof.
  intros a.
  refine (@ensemble_short_of_coefficients Demo.backend a [Demo.turn "hello" true]
            [[0.8]; [0.4]]%float 0 0 eq_refl _ eq_refl _).
  - repeat constructor; eexists; split; reflexivity.
  - cbn. lia.
Defined.

(** ** [OneEpochAgent.batch_act] *)

Section OneEpoch.
Context `{Backend}.

(** [OneEpochAgent.batch_act] in one equation. *)
Lemma one_epoch_batch_act_run (a : OneEpochAgent.t) (o0 : dict) (rest : list dict) :
  Shell.is_shared (InsultsAgent.base (OneEpochAgent.super a)) = false →
  let obs := o0 :: rest in
  let self := OneEpochAgent.super a in
  let a1 := OneEpochAgent.set_observations_ (OneEpochAgent.observations_ a ++ obs) a in
  let init := initial_replies (Shell.agent_id (InsultsAgent.base self)) (length obs) in
  OneEpochAgent.batch_act obs a =
    if contains o0 "labels" then
      Res (Ok init)
        (OneEpochAgent.set_super
           (InsultsAgent.set_n_examples
              (InsultsAgent.n_examples self + length (examples_of obs)) self) a1) []
    else
      match InsultsAgent.model self with
      | None => Res (Raise (AttributeError "model")) (OneEpochAgent.set_super self a1) []
      | Some mdl =>
          match InsultsModel._batchify mdl (examples_of obs) with
          | Raise e =>
              Res (Raise e)
                (OneEpochAgent.set_super (InsultsAgent.set_model (Some mdl) self) a1) []
          | Ok batch =>
              let r := InsultsModel.predict batch mdl in
              Res (match out r with
                   | Ok p => try p' <- OneEpochAgent.reshaped p;
                             InsultsAgent.write_replies (valid_of obs) p' init
                   | Raise e => Raise e
                   end)
                (OneEpochAgent.set_super (InsultsAgent.set_model (Some (st r)) self) a1)
                (calls r)
          end
      end.
Proof.
  intros Hs obs self a1 init. subst obs self a1 init.
  unfold OneEpochAgent.batch_act. rewrite bind_modify, bind_get.
  cbn [OneEpochAgent.super OneEpochAgent.set_observations_]. rewrite Hs.
  unfold Shell.guard_shared. rewrite bind_ret.
  cbn [index lookup list_lookup]. rewrite bind_lift_ok.
  change (not_none (map InsultsAgent._build_ex (o0 :: rest)))
    with (examples_of (o0 :: rest)).
  change (valid_indices (length (o0 :: rest)) (map InsultsAgent._build_ex (o0 :: rest)))
    with (valid_of (o0 :: rest)).
  destruct (contains o0 "labels").
  - rewrite bind_cases, zoom_run. done.
  - rewrite bind_cases, zoom_run.
    cbn [OneEpochAgent.super OneEpochAgent.set_observations_].
    destruct (InsultsAgent.model (OneEpochAgent.super a)) as [mdl|] eqn:Hm.
    2: { unfold InsultsAgent.on_model. by rewrite Hm. }
    rewrite on_model_run with (mdl := mdl) by done.
    rewrite bind_get, lift_run. cbn [out st calls].
    destruct (InsultsModel._batchify mdl (examples_of (o0 :: rest))) as [batch|e];
      [|done].
    rewrite bind_cases, zoom_run. cbn [OneEpochAgent.super OneEpochAgent.set_super].
    rewrite on_model_run with (mdl := mdl) by done.
    cbn [out st calls app].
    destruct (out (InsultsModel.predict batch mdl)) as [p|e]; [|done].
    rewrite bind_cases, lift_run. cbn [out st calls].
    destruct (OneEpochAgent.reshaped p) as [p'|e]; [|by rewrite app_nil_r].
    rewrite lift_run. cbn [out st calls]. by rewrite !app_nil_r.
Qed.

Lemma one_epoch_batch_act_empty (a : OneEpochAgent.t) :
  Shell.is_shared (InsultsAgent.base (OneEpochAgent.super a)) = false →
  OneEpochAgent.batch_act [] a
    = Res (Raise IndexError)
        (OneEpochAgent.set_observations_ (OneEpochAgent.observations_ a ++ []) a) [].
Proof.
  intros Hs. unfold OneEpochAgent.batch_act. rewrite bind_modify, bind_get.
  cbn [OneEpochAgent.super OneEpochAgent.set_observations_]. rewrite Hs.
  unfold Shell.guard_shared. by rewrite bind_ret.
Qed.

Lemma one_epoch_batch_act_records (a : OneEpochAgent.t) (obs : list dict) :
  OneEpochAgent.observations_ (st (OneEpochAgent.batch_act obs a))
    = OneEpochAgent.observations_ a ++ obs.
Proof.
  destruct (Shell.is_shared (InsultsAgent.base (OneEpochAgent.super a))) eqn:Hs.
  { by rewrite one_epoch_batch_act_shared. }
  destruct obs as [|o0 rest]; [by rewrite one_epoch_batch_act_empty|].
  rewrite one_epoch_batch_act_run by done.
  destruct (contains o0 "labels"); [done|].
  destruct (InsultsAgent.model _); [|done].
  by destruct (InsultsModel._batchify _ _).
Qed.

(** X19.  [OneEpochAgent.batch_act] appends the batch to
    [observations_] in every case: in both modes, and whether the call
    returns or raises.  So after a sequence of calls [observations_] holds
    the batches one after the other, the unlabelled ones included. *)
Theorem one_epoch_records_every_batch (a : OneEpochAgent.t) (batches : list (list dict)) :
  OneEpochAgent.observations_
    (fold_left (λ s obs, st (OneEpochAgent.batch_act obs s)) batches a)
  = OneEpochAgent.observations_ a ++ concat batches.
Proof.
  revert a. induction batches as [|obs batches IH]; intros a; cbn [fold_left concat].
  - by rewrite app_nil_r.
  - by rewrite IH, one_epoch_batch_act_records, <- app_assoc.
Qed.

(** X20.  On a batch whose first observation is labelled,
    [OneEpochAgent.batch_act] of an agent that is not shared collects and
    does not train: it makes no call on the adapter, leaves the adapter
    as it is, counts the examples, and returns replies that hold the
    agent identifier and nothing else. *)
Theorem one_epoch_collects_without_training (a : OneEpochAgent.t) (o0 : dict)
    (rest : list dict) :
  Shell.is_shared (InsultsAgent.base (OneEpochAgent.super a)) = false →
  contains o0 "labels" = true →
  let obs := o0 :: rest in
  let r := OneEpochAgent.batch_act obs a in
  out r = Ok (replicate (length obs)
                (<["id" := PStr (Shell.agent_id
                                   (InsultsAgent.base (OneEpochAgent.super a)))]> ∅)) ∧
  calls r = [] ∧
  InsultsAgent.model (OneEpochAgent.super (st r))
    = InsultsAgent.model (OneEpochAgent.super a) ∧
  InsultsAgent.n_examples (OneEpochAgent.super (st r))
    = InsultsAgent.n_examples (OneEpochAgent.super a) + length (texts_of obs).
Proof.
  intros Hs Hl obs r. subst obs r. rewrite one_epoch_batch_act_run by done.
  rewrite Hl.
  cbn [out st calls OneEpochAgent.super OneEpochAgent.set_super InsultsAgent.model
       InsultsAgent.n_examples InsultsAgent.set_n_examples].
  by rewrite examples_texts_length.
Qed.

(** X21.  On a batch whose first observation is not labelled, and on
    the empty batch, [OneEpochAgent.batch_act] predicts as the method of
    the parent class does: same outcome, same adapter calls, same state
    of the inherited attributes, provided the adapter, if there is one,
    has a model family. *)
Theorem one_epoch_predicts_as_parent (a : OneEpochAgent.t) (obs : list dict) :
  (∀ o0, head obs = Some o0 → contains o0 "labels" = false) →
  (∀ mdl, InsultsAgent.model (OneEpochAgent.super a) = Some mdl →
          is_Some (InsultsModel.model_type mdl)) →
  let child := OneEpochAgent.batch_act obs a in
  let parent := InsultsAgent.batch_act obs (OneEpochAgent.super a) in
  out child = out parent ∧
  calls child = calls parent ∧
  OneEpochAgent.super (st child) = st parent.
Proof.
  intros Hu Hfam child parent. subst child parent.
  destruct (Shell.is_shared (InsultsAgent.base (OneEpochAgent.super a))) eqn:Hs.
  { by rewrite one_epoch_batch_act_shared, insults_batch_act_shared. }
  destruct obs as [|o0 rest].
  { by rewrite one_epoch_batch_act_empty, insults_batch_act_empty. }
  specialize (Hu o0 eq_refl).
  rewrite one_epoch_batch_act_run by done. rewrite Hu.
  destruct (InsultsAgent.model (OneEpochAgent.super a)) as [mdl|] eqn:Hm.
  2: { rewrite insults_batch_act_no_model by done. by rewrite Hu. }
  rewrite (insults_batch_act_run _ o0 rest mdl) by done. rewrite Hu.
  destruct (InsultsModel._batchify _ _) as [batch|e]; [|done]. cbn [step out st calls].
  split; [|done].
  destruct (Hfam mdl eq_refl) as [fam Hf].
  destruct (out (InsultsModel.predict batch mdl)) as [[p|]|e] eqn:E; [done| |done].
  exfalso. revert E. unfold InsultsModel.predict.
  rewrite bind_get, bind_emit, Hf. cbn [out].
  destruct fam.
  - rewrite bind_cases, lift_run. cbn [out st].
    destruct (InsultsModel.the_model mdl); [|done].
    rewrite bind_cases, lift_run. cbn [out st].
    destruct (InsultsModel.as_arr batch); [|done].
    rewrite bind_cases, lift_run. cbn [out st].
    by destruct (predict_on_batch _ _).
  - rewrite bind_cases, lift_run. cbn [out st].
    destruct (InsultsModel.as_arr batch); [|done].
    rewrite bind_cases, lift_run. cbn [out st].
    destruct (vectorize_select_from_data _ _ _); [|done].
    rewrite bind_cases, lift_run. cbn [out st].
    destruct (InsultsModel.the_model mdl); [|done].
    rewrite bind_cases, lift_run. cbn [out st].
    by destruct (predict_proba _ _).
Qed.

End OneEpoch.

Lemma one_epoch_collects_without_training_witness :
  let obs := [Demo.labelled_turn "a" "Insult"; Demo.turn "b" true] in
  let r := @OneEpochAgent.batch_act Demo.backend obs DemoMore.one_epoch in
  out r = Ok (replicate 2 (<["id" := PStr "InsultsAgent"]> ∅)) ∧
  calls r = [] ∧
  InsultsAgent.model (OneEpochAgent.super (st r)) = Some DemoMore.fresh_adapter ∧
  InsultsAgent.n_examples (OneEpochAgent.super (st r)) = 2.
Proof.
  intros obs.
  exact (@one_epoch_collects_without_training Demo.backend DemoMore.one_epoch
           (Demo.labelled_turn "a" "Insult") [Demo.turn "b" true] eq_refl eq_refl).
Defined.

Lemma one_epoch_predicts_as_parent_witness :
  let obs := [Demo.turn "a" true; Demo.labelled_turn "b" "Insult"] in
  let a := @OneEpochAgent.mk Demo.backend (Demo.agent [0.9; 0.2]%float) [] in
  let child := OneEpochAgent.batch_act obs a in
  let parent := InsultsAgent.batch_act obs (Demo.agent [0.9; 0.2]%float) in
  out child = out parent ∧ calls child = calls parent ∧
  OneEpochAgent.super (st child) = st parent.
Proof.
  intros obs a.
  apply (@one_epoch_predicts_as_parent Demo.backend a obs).
  - by intros o0 [= <-].
  - intros mdl [= <-]. by eexists.
Defined.

(** ** [OneEpochAgent.save] *)

Section OneEpochSave.
Context `{Utils}.

Lemma save_on_model_run {A} (m : M InsultsModel.t A) (a : OneEpochAgent.t) (fs : files)
    (mdl : InsultsModel.t) :
  InsultsAgent.model (OneEpochAgent.super a) = Some mdl →
  OneEpochAgentMore.on_model m (a, fs)
    = Res (out (m mdl)) (with_adapter (st (m mdl)) a, fs) (calls (m mdl)).
Proof.
  intros Hm. unfold OneEpochAgentMore.on_model. rewrite !zoom_run. cbn [fst].
  by rewrite on_model_run with (mdl := mdl).
Qed.

Lemma on_files_run (f : files → outcome unit * files) (w : OneEpochAgent.t * files) :
  OneEpochAgentMore.on_files f w = Res (f w.2).1 (w.1, (f w.2).2) [].
Proof. done. Qed.

Lemma with_adapter_model (mdl : InsultsModel.t) (a : OneEpochAgent.t) :
  InsultsAgent.model (OneEpochAgent.super (with_adapter mdl a)) = Some mdl.
Proof. done. Qed.

Lemma with_adapter_twice (mdl mdl' : InsultsModel.t) (a : OneEpochAgent.t) :
  with_adapter mdl' (with_adapter mdl a) = with_adapter mdl' a.
Proof. done. Qed.

(** [save] in one equation, for an agent that is not shared and has an
    adapter. *)
Lemma one_epoch_save_run (a : OneEpochAgent.t) (fs : files) (mdl : InsultsModel.t) :
  Shell.is_shared (InsultsAgent.base (OneEpochAgent.super a)) = false →
  InsultsAgent.model (OneEpochAgent.super a) = Some mdl →
  let self := OneEpochAgent.super a in
  let train_data := OneEpochAgentMore.train_data_of (OneEpochAgent.observations_ a) in
  let mdl1 := InsultsModel.set_num_ngrams (InsultsAgent.num_ngrams self) mdl in
  OneEpochAgentMore.save (a, fs) =
    match OneEpochAgentMore.first_labels_of (OneEpochAgent.observations_ a) with
    | Raise e => Res (Raise e) (a, fs) []
    | Ok labels =>
        let train_labels := InsultsAgent._text2predictions labels in
        if InsultsModel.from_saved mdl then Res (Ok tt) (with_adapter mdl1 a, fs) []
        else
          match getitem (InsultsAgent.opt self) "model_file" with
          | Raise e => Res (Raise e) (with_adapter mdl1 a, fs) []
          | Ok path =>
              let w := create_vectorizer_selector train_data train_labels path
                         [1; 2; 3; 4; 5; 3]%Z [2000; 4000; 100; 1000; 1000; 2000]%Z
                         ["word"; "word"; "word"; "char"; "char"; "char"] fs in
              match w.1 with
              | Raise e => Res (Raise e) (with_adapter mdl1 a, w.2) []
              | Ok _ =>
                  match get_vectorizer_selector w.2 path (InsultsAgent.num_ngrams self)
                  with
                  | Raise e => Res (Raise e) (with_adapter mdl1 a, w.2) []
                  | Ok vs =>
                      let mdl2 := InsultsModel.set_vectorizers (Some vs.1) (Some vs.2)
                                    mdl1 in
                      let r := InsultsModel.update (BPair train_data train_labels) mdl2 in
                      match out r with
                      | Raise e => Res (Raise e) (with_adapter (st r) a, w.2) (calls r)
                      | Ok _ =>
                          let s := InsultsModel.save None (st r) w.2 in
                          Res s.1 (with_adapter (st r) a, s.2) (calls r)
                      end
                  end
              end
          end
    end.
Proof.
  intros Hs Hm self train_data mdl1. subst self train_data mdl1.
  unfold OneEpochAgentMore.save. rewrite bind_get. cbn [fst snd]. rewrite Hs. cbn [negb].
  rewrite bind_cases, lift_run. cbn [out st calls].
  destruct (OneEpochAgentMore.first_labels_of _) as [labels|e]; [|done]. cbn [app].
  rewrite bind_cases, (save_on_model_run _ a fs mdl) by done.
  cbn [modify out st calls app].
  rewrite bind_cases, (save_on_model_run _ _ fs _ (with_adapter_model _ _)).
  cbn [get out st calls app]. rewrite with_adapter_twice.
  cbn [InsultsModel.from_saved InsultsModel.set_num_ngrams].
  destruct (InsultsModel.from_saved mdl); cbn [negb]; [done|].
  rewrite bind_cases, lift_run. cbn [out st calls].
  destruct (getitem _ "model_file") as [path|e]; [|done]. cbn [app].
  rewrite bind_cases, on_files_run. cbn [fst snd out st calls].
  destruct (create_vectorizer_selector _ _ _ _ _ _ fs) as [[[]|e] fs1]; [|done].
  cbn [fst snd app].
  rewrite bind_get. cbn [fst snd]. rewrite bind_cases, lift_run. cbn [out st calls].
  destruct (get_vectorizer_selector fs1 path _) as [vs|e]; [|done]. cbn [app].
  rewrite bind_cases, (save_on_model_run _ _ fs1 _ (with_adapter_model _ _)).
  cbn [modify out st calls app]. rewrite with_adapter_twice.
  rewrite bind_cases, (save_on_model_run _ _ fs1 _ (with_adapter_model _ _)).
  rewrite with_adapter_twice. cbn [out st calls].
  destruct (out (InsultsModel.update _ _)) as [p|e]; [|done].
  rewrite bind_cases, (save_on_model_run _ _ fs1 _ (with_adapter_model _ _)).
  cbn [get out st calls]. rewrite with_adapter_twice.
  rewrite on_files_run. cbn [fst snd]. by rewrite !app_nil_r.
Qed.

(** What a [save] that returns has done. *)
Lemma one_epoch_save_ok (a : OneEpochAgent.t) (fs : files) (mdl : InsultsModel.t)
    (f : string) :
  Shell.is_shared (InsultsAgent.base (OneEpochAgent.super a)) = false →
  InsultsAgent.model (OneEpochAgent.super a) = Some mdl →
  InsultsModel.from_saved mdl = false →
  InsultsModel.model_type mdl = Some ngrams →
  InsultsModel.opt mdl !! "model_file" = Some (PStr f) →
  f ≠ "" →
  out (OneEpochAgentMore.save (a, fs)) = Ok tt →
  let self := OneEpochAgent.super a in
  let train_data := OneEpochAgentMore.train_data_of (OneEpochAgent.observations_ a) in
  ∃ labels path fs1 vs e,
    OneEpochAgentMore.first_labels_of (OneEpochAgent.observations_ a) = Ok labels ∧
    getitem (InsultsAgent.opt self) "model_file" = Ok path ∧
    create_vectorizer_selector train_data (InsultsAgent._text2predictions labels) path
      [1; 2; 3; 4; 5; 3]%Z [2000; 4000; 100; 1000; 1000; 2000]%Z
      ["word"; "word"; "word"; "char"; "char"; "char"] fs = (Ok tt, fs1) ∧
    get_vectorizer_selector fs1 path (InsultsAgent.num_ngrams self) = Ok vs ∧
    let mdl2 := InsultsModel.set_vectorizers (Some vs.1) (Some vs.2)
                  (InsultsModel.set_num_ngrams (InsultsAgent.num_ngrams self) mdl) in
    let u := InsultsModel.update
               (BPair train_data (InsultsAgent._text2predictions labels)) mdl2 in
    is_ok (out u) = true ∧
    InsultsModel.model (st u) = Some e ∧
    OneEpochAgentMore.save (a, fs)
      = Res (Ok tt)
          (with_adapter (st u) a,
           <[f +:+ "_opt.json" := InsultsModel.JsonFile (InsultsModel.opt mdl)]>
             (<[f +:+ "_cls.pkl" := InsultsModel.PickleFile e]> fs1))
          (calls u).
Proof.
  intros Hs Hm Hfrom Hfam Hfile Hne Hout self train_data. subst self train_data.
  revert Hout. rewrite (one_epoch_save_run a fs mdl) by done. cbn zeta.
  destruct (OneEpochAgentMore.first_labels_of _) as [labels|e] eqn:Hl; [|done].
  rewrite Hfrom.
  destruct (getitem _ "model_file") as [path|e] eqn:Hp; [|done].
  destruct (create_vectorizer_selector _ _ _ _ _ _ fs) as [[[]|e] fs1] eqn:Hc; [|done].
  cbn [fst snd].
  destruct (get_vectorizer_selector fs1 path _) as [vs|e] eqn:Hv; [|done].
  set (mdl2 := InsultsModel.set_vectorizers _ _ _).
  set (b := BPair _ _).
  pose proof (update_state b mdl2) as [_ (_ & Ho & Ht & _)].
  destruct (out (InsultsModel.update b mdl2)) as [p|e] eqn:Hu; [|done].
  cbn [out st calls].
  unfold InsultsModel.save. rewrite Ho, Ht.
  cbn [InsultsModel.opt InsultsModel.model_type mdl2 InsultsModel.set_vectorizers
       InsultsModel.set_num_ngrams].
  rewrite Hfile, Hfam. change (default PNone (Some (PStr f))) with (PStr f).
  cbn [truthy]. apply String.eqb_neq in Hne. rewrite Hne.
  cbn [negb InsultsModel.is_family].
  destruct (InsultsModel.model (st (InsultsModel.update b mdl2))) as [e|] eqn:He;
    [|done].
  cbn [fst snd]. intros _. exists labels, path, fs1, vs, e.
  split; [done|]. split; [done|]. split; [done|]. split; [done|]. cbn zeta.
  fold mdl2 b. rewrite Hu. by repeat split.
Qed.

End OneEpochSave.

Section OneEpochSaveTheorems.
Context `{Utils}.

(** X22.  [OneEpochAgent.save] on a shared agent does nothing.  On an
    agent whose adapter was loaded from saved files it trains nothing and
    saves nothing: no file is written, no call reaches the adapter, and
    the adapter keeps its classifier, its update count and its
    vectorizers. *)
Theorem one_epoch_save_without_training (a : OneEpochAgent.t) (fs : files) :
  (Shell.is_shared (InsultsAgent.base (OneEpochAgent.super a)) = true →
   OneEpochAgentMore.save (a, fs) = Res (Ok tt) (a, fs) []) ∧
  (∀ mdl,
     InsultsAgent.model (OneEpochAgent.super a) = Some mdl →
     InsultsModel.from_saved mdl = true →
     let r := OneEpochAgentMore.save (a, fs) in
     (st r).2 = fs ∧ calls r = [] ∧
     ∃ mdl', InsultsAgent.model (OneEpochAgent.super (st r).1) = Some mdl' ∧
             InsultsModel.model mdl' = InsultsModel.model mdl ∧
             InsultsModel.updates mdl' = InsultsModel.updates mdl ∧
             InsultsModel.vectorizers mdl' = InsultsModel.vectorizers mdl).
Proof.
  assert (Shell.is_shared (InsultsAgent.base (OneEpochAgent.super a)) = true →
          OneEpochAgentMore.save (a, fs) = Res (Ok tt) (a, fs) []) as Hshared.
  { intros Hs. unfold OneEpochAgentMore.save. rewrite bind_get. cbn [fst]. by rewrite Hs. }
  split; [done|]. intros mdl Hm Hfrom r. subst r.
  destruct (Shell.is_shared (InsultsAgent.base (OneEpochAgent.super a))) eqn:Hs.
  { rewrite Hshared by done. cbn [st calls snd fst].
    split; [done|]. split; [done|]. by exists mdl. }
  rewrite (one_epoch_save_run a fs mdl) by done.
  destruct (OneEpochAgentMore.first_labels_of _) as [labels|e].
  2: { cbn [st calls snd fst]. split; [done|]. split; [done|]. by exists mdl. }
  rewrite Hfrom. cbn [st calls snd fst]. split; [done|]. split; [done|].
  by eexists.
Qed.

(** X23.  [OneEpochAgent.save] that returns, on an agent that is not
    shared and whose n-gram adapter was not loaded from saved files,
    has trained once, in one call of [update], on the texts of all the
    collected observations that have one and on the classes of the first
    labels of all those that have labels; and the files then hold the
    trained classifier, pickled, and the adapter's options. *)
Theorem one_epoch_save_trains_and_saves (a : OneEpochAgent.t) (fs : files)
    (mdl : InsultsModel.t) (f : string) :
  Shell.is_shared (InsultsAgent.base (OneEpochAgent.super a)) = false →
  InsultsAgent.model (OneEpochAgent.super a) = Some mdl →
  InsultsModel.from_saved mdl = false →
  InsultsModel.model_type mdl = Some ngrams →
  InsultsModel.opt mdl !! "model_file" = Some (PStr f) →
  f ≠ "" →
  out (OneEpochAgentMore.save (a, fs)) = Ok tt →
  let r := OneEpochAgentMore.save (a, fs) in
  ∃ labels mdl' e,
    OneEpochAgentMore.first_labels_of (OneEpochAgent.observations_ a) = Ok labels ∧
    calls r = [CUpdate (InsultsModel.model_name mdl)
                 (BPair (OneEpochAgentMore.train_data_of (OneEpochAgent.observations_ a))
                    (InsultsAgent._text2predictions labels))] ∧
    InsultsAgent.model (OneEpochAgent.super (st r).1) = Some mdl' ∧
    InsultsModel.updates mdl' = InsultsModel.updates mdl + 1 ∧
    InsultsModel.model mdl' = Some e ∧
    (st r).2 !! (f +:+ "_cls.pkl") = Some (InsultsModel.PickleFile e) ∧
    (st r).2 !! (f +:+ "_opt.json") = Some (InsultsModel.JsonFile (InsultsModel.opt mdl)).
Proof.
  intros Hs Hm Hfrom Hfam Hfile Hne Hout r. subst r.
  destruct (one_epoch_save_ok a fs mdl f Hs Hm Hfrom Hfam Hfile Hne Hout)
    as (labels & path & fs1 & vs & e & Hl & _ & _ & _ & Hok & He & ->).
  cbn zeta in Hok, He. cbn [st calls fst snd].
  set (u := InsultsModel.update _ _) in *.
  pose proof (update_state (BPair (OneEpochAgentMore.train_data_of
                                     (OneEpochAgent.observations_ a))
                              (InsultsAgent._text2predictions labels))
                (InsultsModel.set_vectorizers (Some vs.1) (Some vs.2)
                   (InsultsModel.set_num_ngrams
                      (InsultsAgent.num_ngrams (OneEpochAgent.super a)) mdl)))
    as [Hu _].
  cbn zeta in Hu. fold u in Hu. rewrite Hok in Hu.
  exists labels, (st u), e.
  split; [done|]. split; [by unfold u; rewrite update_calls|].
  split; [done|]. split; [done|]. split; [done|]. split.
  - rewrite lookup_insert_ne by (by apply suffix_ne). apply lookup_insert_eq.
  - apply lookup_insert_eq.
Qed.

End OneEpochSaveTheorems.

Lemma one_epoch_save_trains_and_saves_witness :
  let a := DemoMore.collected in
  let r := @OneEpochAgentMore.save Demo.backend DemoMore.utils (a, ∅) in
  ∃ labels mdl' e,
    OneEpochAgentMore.first_labels_of (OneEpochAgent.observations_ a) = Ok labels ∧
    calls r = [CUpdate "log_reg"
                 (BPair (OneEpochAgentMore.train_data_of (OneEpochAgent.observations_ a))
                    (InsultsAgent._text2predictions labels))] ∧
    InsultsAgent.model (OneEpochAgent.super (st r).1) = Some mdl' ∧
    InsultsModel.updates mdl' = 1 ∧
    InsultsModel.model mdl' = Some e ∧
    (st r).2 !! "m_cls.pkl" = Some (InsultsModel.PickleFile e) ∧
    (st r).2 !! "m_opt.json"
      = Some (InsultsModel.JsonFile (InsultsModel.opt DemoMore.fresh_adapter)).
Proof.
  exact (@one_epoch_save_trains_and_saves Demo.backend DemoMore.utils
           DemoMore.collected ∅ DemoMore.fresh_adapter "m"
           eq_refl eq_refl eq_refl eq_refl eq_refl ltac:(discriminate) eq_refl).
Defined.

(** ** The constructor of [InsultsAgent], and the way from training to
    a loaded agent *)

Section AgentConstruct.
Context `{Utils}.

Lemma vectorizer_file_is_artifact (f p : string) :
  p ∈ vectorizer_files f →
  p ∈ InsultsModel.ngrams_artifacts f ∧ p ≠ f +:+ "_opt.json" ∧ p ≠ f +:+ "_cls.pkl".
Proof.
  unfold vectorizer_files, InsultsModel.ngrams_artifacts. intros Hp.
  repeat (apply elem_of_cons in Hp as [->|Hp];
          [split; [set_solver|split; by apply suffix_ne]|]).
  by apply elem_of_nil in Hp.
Qed.

Lemma artifact_cases (f p : string) :
  p ∈ InsultsModel.ngrams_artifacts f →
  p = f +:+ "_opt.json" ∨ p = f +:+ "_cls.pkl" ∨ p ∈ vectorizer_files f.
Proof.
  unfold vectorizer_files, InsultsModel.ngrams_artifacts. intros Hp.
  apply elem_of_cons in Hp as [->|Hp]; [by left|].
  apply elem_of_cons in Hp as [->|Hp]; [right; by left|].
  right. by right.
Qed.

(** X24.  An [InsultsAgent] made for an n-gram model that is loaded
    from a pretrained model path, with no model file path among the
    options: the adapter is loaded, and then the constructor raises
    [KeyError], for it reads the vectorizers from the model file path. *)
Theorem agent_pretrained_needs_model_file (fs : files) (opt : dict) (name : string)
    (model : InsultsModel.t) :
  opt !! "model_name" = Some (PStr name) →
  InsultsModel.family_of name = Some ngrams →
  InsultsModel.__init__ fs name PNone None opt = Ok model →
  InsultsModel.from_saved model = true →
  InsultsModel.model_type model = Some ngrams →
  opt !! "model_file" = None →
  InsultsAgentMore.__init__ fs opt false = Raise (KeyError "model_file").
Proof.
  intros Hname Hfam Hinit Hfrom Htype Hfile. unfold InsultsAgentMore.__init__.
  unfold getitem at 1. rewrite Hname. cbn [obind]. rewrite Hfam. cbn [obind].
  rewrite Hinit. cbn [obind]. rewrite Hfrom, Htype. cbn [andb InsultsModel.is_family].
  unfold getitem. by rewrite Hfile.
Qed.

(** X25.  An [InsultsAgent] that is not shared cannot be made under a
    model name that is none of the four: the constructor raises
    [AttributeError] when it reads the attribute [word_dict], which only
    the branches of the four names assign, and no adapter is
    constructed. *)
Theorem agent_rejects_unknown_name (fs : files) (opt : dict) (name : string) :
  opt !! "model_name" = Some (PStr name) →
  InsultsModel.family_of name = None →
  InsultsAgentMore.__init__ fs opt false = Raise (AttributeError "word_dict").
Proof.
  intros Hname Hfam. unfold InsultsAgentMore.__init__.
  unfold getitem at 1. rewrite Hname. cbn [obind]. by rewrite Hfam.
Qed.

(** X26.  From training to a loaded agent.  Let the helper that writes
    the vectorizers write the seven vectorizer files of its path, and
    let the helper that reads them depend on those files only.  When
    [OneEpochAgent.save] has returned for an agent with a new n-gram
    adapter, an [InsultsAgent] constructed on the files it left, with
    the same model file path, loads the adapter from them, and the
    loaded adapter's [predict] returns on every batch what the trained
    adapter's [predict] returns. *)
Theorem trained_then_loaded (a : OneEpochAgent.t) (fs : files) (mdl : InsultsModel.t)
    (f name : string) (opt' : dict) (ks ps : list Z) (seed no_cuda : pyval) :
  (∀ data labels l1 l2 l3 fs0 fs1,
     create_vectorizer_selector data labels (PStr f) l1 l2 l3 fs0 = (Ok tt, fs1) →
     Forall (λ p, is_Some (fs1 !! p)) (vectorizer_files f)) →
  (∀ fs0 fs1 n,
     (∀ p, p ∈ vectorizer_files f → fs1 !! p = fs0 !! p) →
     get_vectorizer_selector fs1 (PStr f) n = get_vectorizer_selector fs0 (PStr f) n) →
  Shell.is_shared (InsultsAgent.base (OneEpochAgent.super a)) = false →
  InsultsAgent.model (OneEpochAgent.super a) = Some mdl →
  InsultsModel.from_saved mdl = false →
  InsultsModel.model_type mdl = Some ngrams →
  InsultsAgent.num_ngrams (OneEpochAgent.super a) = PNum 6 →
  InsultsAgent.opt (OneEpochAgent.super a) !! "model_file" = Some (PStr f) →
  InsultsModel.opt mdl !! "model_file" = Some (PStr f) →
  f ≠ "" →
  InsultsModel.opt mdl !! "no_cuda" = Some no_cuda →
  out (OneEpochAgentMore.save (a, fs)) = Ok tt →
  opt' !! "model_name" = Some (PStr name) →
  InsultsModel.family_of name = Some ngrams →
  InsultsModel.sizes opt' "kernel_sizes_cnn" = Ok ks →
  InsultsModel.sizes opt' "pool_sizes_cnn" = Ok ps →
  opt' !! "model_seed" = Some seed →
  opt' !! "model_file" = Some (PStr f) →
  let r := OneEpochAgentMore.save (a, fs) in
  ∃ trained agent loaded,
    InsultsAgent.model (OneEpochAgent.super (st r).1) = Some trained ∧
    InsultsAgentMore.__init__ (st r).2 opt' false = Ok agent ∧
    InsultsAgent.model agent = Some loaded ∧
    InsultsModel.from_saved loaded = true ∧
    ∀ b, out (InsultsModel.predict b loaded) = out (InsultsModel.predict b trained).
Proof.
  intros Hwrite Hread Hs Hm Hfrom Hfam Hn6 Hafile Hfile Hne Hcuda Hout
    Hname Hfamily Hks Hps Hseed Hfile' r. subst r.
  destruct (one_epoch_save_ok a fs mdl f Hs Hm Hfrom Hfam Hfile Hne Hout)
    as (labels & path & fs1 & vs & e & Hl & Hp & Hc & Hv & Hok & He & ->).
  cbn zeta in Hok, He. cbn [st fst snd].
  unfold getitem in Hp. rewrite Hafile in Hp. injection Hp as <-. rewrite Hn6 in Hv.
  set (mdl2 := InsultsModel.set_vectorizers _ _ _) in *.
  set (b0 := BPair _ _) in *.
  pose proof (update_state b0 mdl2) as [_ (_ & _ & Ht & _ & Hvec & Hsel & _)].
  cbn zeta in Ht, Hvec, Hsel.
  cbn [mdl2 InsultsModel.model_type InsultsModel.vectorizers InsultsModel.selectors
       InsultsModel.set_vectorizers InsultsModel.set_num_ngrams] in Ht, Hvec, Hsel.
  set (fs2 := <[f +:+ "_opt.json" := _]> _).
  assert (∀ p, p ∈ vectorizer_files f → fs2 !! p = fs1 !! p) as Hframe.
  { intros p (_ & H1 & H2)%vectorizer_file_is_artifact. subst fs2.
    by rewrite !lookup_insert_ne by done. }
  assert (InsultsModel.__init__ fs2 name PNone None opt'
          = Ok (InsultsModel.mk name PNone None
                  (<["cuda" := PBool (negb (truthy no_cuda))]> (InsultsModel.opt mdl))
                  ks ps (Some ngrams) true PNone None None (Some e) 0 0 0 0 0))
    as Hinit.
  { apply (init_loads_saved fs2 name PNone None opt' (InsultsModel.opt mdl) f e ks ps
             seed no_cuda); try done.
    - apply Forall_forall. intros p [->|[->|Hp]]%artifact_cases.
      + subst fs2. by rewrite lookup_insert_eq.
      + subst fs2. rewrite lookup_insert_ne by (by apply suffix_ne).
        by rewrite lookup_insert_eq.
      + rewrite Hframe by done.
        specialize (Hwrite _ _ _ _ _ _ _ Hc). rewrite Forall_forall in Hwrite.
        by apply Hwrite.
    - subst fs2. by rewrite lookup_insert_eq.
    - subst fs2. rewrite lookup_insert_ne by (by apply suffix_ne).
      by rewrite lookup_insert_eq. }
  eexists _, _, _. split; [done|]. split.
  { unfold InsultsAgentMore.__init__. unfold getitem at 1. rewrite Hname. cbn [obind].
    rewrite Hfamily. cbn [obind]. rewrite Hinit. cbn [obind].
    cbn [InsultsModel.from_saved InsultsModel.model_type InsultsModel.is_family andb].
    unfold getitem. rewrite Hfile'. cbn [obind].
    rewrite (Hread fs1 fs2 (PNum 6) Hframe), Hv. cbn [obind]. done. }
  split; [done|]. split; [done|].
  intros b.
  apply predict_out_ext;
    cbn [InsultsModel.model_type InsultsModel.model InsultsModel.vectorizers
         InsultsModel.selectors InsultsModel.set_vectorizers];
    [by rewrite Ht | by rewrite He | by rewrite Hvec | by rewrite Hsel].
Qed.

(** X27.  An [InsultsAgent] made in shared mode is made without a look
    at the options or the files, and has no adapter: [batch_act] raises
    its [RuntimeError] on every batch, while [report] and [save], which
    have no test of the mode, raise [AttributeError], and [save] writes
    no file. *)
Theorem shared_agent_has_no_adapter (fs fs' : files) (opt : dict) :
  ∃ a,
    InsultsAgentMore.__init__ fs opt true = Ok a ∧
    (∀ obs, out (InsultsAgent.batch_act obs a)
            = Raise (RuntimeError "Parallel act is not supported.")) ∧
    InsultsAgentMore.report a = Raise (AttributeError "model") ∧
    InsultsAgentMore.save a fs' = (Raise (AttributeError "model"), fs').
Proof.
  eexists. split; [done|]. split; [|done].
  intros obs. by rewrite insults_batch_act_shared.
Qed.

End AgentConstruct.

Lemma agent_pretrained_needs_model_file_witness :
  @InsultsAgentMore.__init__ Demo.backend DemoMore.utils DemoMore.model_files
    DemoMore.pretrained_agent_opt false
  = Raise (KeyError "model_file").
Proof.
  eapply (@agent_pretrained_needs_model_file Demo.backend DemoMore.utils
            DemoMore.model_files DemoMore.pretrained_agent_opt "log_reg").
  - reflexivity.
  - reflexivity.
  - vm_compute. reflexivity.
  - reflexivity.
  - reflexivity.
  - reflexivity.
Defined.

Lemma agent_rejects_unknown_name_witness :
  @InsultsAgentMore.__init__ Demo.backend DemoMore.utils ∅
    (<["model_name" := PStr "foo"]> Demo.base_opt) false
  = Raise (AttributeError "word_dict").
Proof.
  exact (@agent_rejects_unknown_name Demo.backend DemoMore.utils ∅
           (<["model_name" := PStr "foo"]> Demo.base_opt) "foo" eq_refl eq_refl).
Defined.

Lemma trained_then_loaded_witness :
  let r := @OneEpochAgentMore.save Demo.backend DemoMore.utils (DemoMore.collected, ∅) in
  ∃ trained agent loaded,
    InsultsAgent.model (OneEpochAgent.super (st r).1) = Some trained ∧
    @InsultsAgentMore.__init__ Demo.backend DemoMore.utils (st r).2 DemoMore.agent_opt
      false = Ok agent ∧
    InsultsAgent.model agent = Some loaded ∧
    InsultsModel.from_saved loaded = true ∧
    ∀ b, out (InsultsModel.predict b loaded) = out (InsultsModel.predict b trained).
Proof.
  refine (@trained_then_loaded Demo.backend DemoMore.utils DemoMore.collected ∅
            DemoMore.fresh_adapter "m" "log_reg" DemoMore.agent_opt [3; 3]%Z [3]%Z
            (PNum 23) (PBool true) _ _ eq_refl eq_refl eq_refl eq_refl eq_refl eq_refl
            eq_refl _ eq_refl eq_refl eq_refl eq_refl eq_refl eq_refl eq_refl eq_refl).
  - intros data labels l1 l2 l3 fs0 fs1 [= <-].
    unfold vectorizer_files. cbn [fold_right].
    repeat (constructor;
            [rewrite ?lookup_insert_ne by done; by rewrite lookup_insert_eq|]).
    constructor.
  - intros fs0 fs1 n Hp. cbn [get_vectorizer_selector DemoMore.utils].
    unfold vectorizer_files in *. cbn [forallb]. by rewrite !Hp by set_solver.
  - discriminate.
Defined.

(** ** The constructor of [EnsembleInsultsAgent] *)

Section EnsembleConstruct.
Context `{Utils}.

Lemma add_model_state (fs : files) (i : nat) (name : string)
    (s s' : EnsembleInsultsAgentMore.loop_state) :
  EnsembleInsultsAgentMore.add_model fs i name s = Ok s' →
  length (EnsembleInsultsAgentMore.loop_models s')
    = S (length (EnsembleInsultsAgentMore.loop_models s)) ∧
  ∀ k, k ≠ "pretrained_model" →
       EnsembleInsultsAgentMore.loop_opt s' !! k = EnsembleInsultsAgentMore.loop_opt s !! k.
Proof.
  unfold EnsembleInsultsAgentMore.add_model.
  destruct (EnsembleInsultsAgentMore.py_index _ i) as [file|]; cbn [obind]; [|done].
  match goal with |- obind ?e _ = _ → _ => destruct e as [[[ed n]|]|] end;
    cbn [obind]; [|done|done].
  destruct (InsultsModel.__init__ _ _ _ _ _) as [m|]; cbn [obind]; [|done].
  match goal with |- obind ?e _ = _ → _ => destruct e as [m'|] end; cbn [obind]; [|done].
  intros [= <-]. cbn. split.
  - rewrite length_app. cbn. lia.
  - intros k Hk. by rewrite lookup_insert_ne.
Qed.

Lemma add_models_state (fs : files) (names : list string) :
  ∀ (i : nat) (s s' : EnsembleInsultsAgentMore.loop_state),
    EnsembleInsultsAgentMore.add_models fs i names s = Ok s' →
    length (EnsembleInsultsAgentMore.loop_models s')
      = length (EnsembleInsultsAgentMore.loop_models s) + length names ∧
    ∀ k, k ≠ "pretrained_model" →
         EnsembleInsultsAgentMore.loop_opt s' !! k
         = EnsembleInsultsAgentMore.loop_opt s !! k.
Proof.
  induction names as [|name names IH]; intros i s s';
    cbn [EnsembleInsultsAgentMore.add_models].
  - intros [= <-]. split; [cbn; lia|done].
  - destruct (EnsembleInsultsAgentMore.add_model fs i name s) as [s1|] eqn:E;
      cbn [obind]; [|done].
    destruct (add_model_state _ _ _ _ _ E) as [Hl Ho].
    intros [Hl' Ho']%IH. split.
    + rewrite Hl', Hl. cbn. lia.
    + intros k Hk. by rewrite Ho', Ho.
Qed.

Lemma add_models_app (fs : files) (l1 l2 : list string) :
  ∀ (i : nat) (s : EnsembleInsultsAgentMore.loop_state),
    EnsembleInsultsAgentMore.add_models fs i (l1 ++ l2) s
    = (try s1 <- EnsembleInsultsAgentMore.add_models fs i l1 s;
       EnsembleInsultsAgentMore.add_models fs (i + length l1) l2 s1).
Proof.
  induction l1 as [|x l1 IH]; intros i s; cbn [app EnsembleInsultsAgentMore.add_models].
  - cbn. by rewrite Nat.add_0_r.
  - destruct (EnsembleInsultsAgentMore.add_model fs i x s) as [s1|]; cbn [obind]; [|done].
    rewrite IH. cbn [length]. by rewrite Nat.add_succ_r.
Qed.

(** X28.  The constructor of the ensemble takes the file of the [i]-th
    model name from the [i]-th place of the list of model files: given
    fewer files than names, it raises [IndexError] once it has made the
    adapters of the names that have a file. *)
Theorem ensemble_needs_a_file_per_name (fs : files) (opt : dict)
    (names files_ : list string) (s1 : EnsembleInsultsAgentMore.loop_state) :
  opt !! "model_names" = Some (PStrs names) →
  opt !! "model_files" = Some (PStrs files_) →
  length files_ < length names →
  EnsembleInsultsAgentMore.add_models fs 0 (take (length files_) names)
    (EnsembleInsultsAgentMore.LoopState opt None []) = Ok s1 →
  EnsembleInsultsAgentMore.__init__ fs opt false = Raise IndexError.
Proof.
  intros Hnames Hfiles Hlt Hloop. unfold EnsembleInsultsAgentMore.__init__.
  rewrite Hnames. cbn [default from_option id EnsembleInsultsAgentMore.py_iter obind].
  rewrite <- (take_drop (length files_) names) at 1.
  rewrite add_models_app, Hloop. cbn [obind].
  destruct (drop (length files_) names) as [|name rest] eqn:Hd.
  { apply (f_equal length) in Hd. rewrite length_drop in Hd. cbn in Hd. lia. }
  cbn [EnsembleInsultsAgentMore.add_models].
  unfold EnsembleInsultsAgentMore.add_model.
  destruct (add_models_state _ _ _ _ _ Hloop) as [_ Ho].
  rewrite (Ho "model_files") by done. cbn [EnsembleInsultsAgentMore.loop_opt].
  rewrite Hfiles. cbn [default from_option id EnsembleInsultsAgentMore.py_index].
  unfold index. rewrite length_take, Nat.min_l by lia.
  by rewrite lookup_ge_None_2 by lia.
Qed.


End EnsembleConstruct.

Lemma ensemble_needs_a_file_per_name_witness :
  @EnsembleInsultsAgentMore.__init__ Demo.backend DemoMore.utils DemoMore.saved_files
    DemoMore.ensemble_opt_short false
  = Raise IndexError.
Proof.
  eapply (@ensemble_needs_a_file_per_name Demo.backend DemoMore.utils
            DemoMore.saved_files DemoMore.ensemble_opt_short ["log_reg"; "svc"] ["m"]).
  - reflexivity.
  - reflexivity.
  - cbn. lia.
  - vm_compute. reflexivity.
Defined.


Section EnsembleFamilyless.
Context `{Backend}.

Lemma scatter_rows (obs : list dict) (P : list float) (Qs : list (list float)) :
  length P ≤ length (examples_of obs) →
  let examples := map InsultsModel._build_ex obs in
  EnsembleInsultsAgent.scatter (valid_indices (length obs) examples) P
    (seq 0 (length P)) (rows examples Qs)
  = Ok (rows examples (Qs ++ [P])).
Proof.
  intros Hlen examples. subst examples. unfold examples_of in Hlen.
  rewrite <- (length_map InsultsModel._build_ex obs) at 1.
  rewrite valid_indices_from.
  pose proof (scatter_seq P (valid_from 0 (map InsultsModel._build_ex obs))
                [] [] (rows (map InsultsModel._build_ex obs) Qs) eq_refl) as E1.
  cbn [app length] in E1. rewrite E1 by (by rewrite valid_from_length).
  pose proof (scatter_pairs_valid (map InsultsModel._build_ex obs) 0 P []
                (rows (map InsultsModel._build_ex obs) Qs) eq_refl
                (rows_length _ _)) as E2.
  cbn [app] in E2. by rewrite E2, spread_rows.
Qed.

Lemma models_loop_familyless (obs : list dict) (pre : list InsultsModel.t)
    (Ps : list (list float)) (m : InsultsModel.t) (post : list InsultsModel.t) :
  Forall2 (answers_within (examples_of obs)) pre Ps →
  InsultsModel.model_type m = None →
  ∀ (Qs : list (list float)) (s : EnsembleInsultsAgent.t),
    out (EnsembleInsultsAgent.models_loop obs (pre ++ m :: post)
           (rows (map InsultsModel._build_ex obs) Qs) s)
    = Raise TypeError.
Proof.
  intros Hpre Hf.
  induction Hpre as [|mdl P pre Ps [(batch & Hb & Hp) Hlen] _ IH]; intros Qs s;
    cbn [app EnsembleInsultsAgent.models_loop].
  - unfold InsultsModel._batchify. rewrite Hf, bind_lift_ok.
    rewrite bind_cases, call_on_run. cbn [out st calls].
    unfold InsultsModel.predict. rewrite bind_get, bind_emit, Hf. done.
  - unfold examples_of in Hb. rewrite Hb, bind_lift_ok.
    rewrite bind_cases, call_on_run. cbn [out st calls]. rewrite Hp.
    cbn [the_array]. rewrite bind_lift_ok.
    pose proof (scatter_rows obs P Qs Hlen) as Hsc. cbn zeta in Hsc.
    rewrite Hsc, bind_lift_ok. cbn [out]. apply IH.
Qed.

(** X30.  An ensemble in which an adapter has no model family, as the
    constructor makes one for a name that is none of the four and is not
    the first: when the adapters before it answer, [batch_act] raises
    [TypeError] on every batch. *)
Theorem ensemble_with_familyless_adapter_raises (a : EnsembleInsultsAgent.t)
    (obs : list dict) (pre : list InsultsModel.t) (Ps : list (list float))
    (m : InsultsModel.t) (post : list InsultsModel.t) :
  Shell.is_shared (EnsembleInsultsAgent.base a) = false →
  EnsembleInsultsAgent.models a = pre ++ m :: post →
  Forall2 (answers_within (examples_of obs)) pre Ps →
  InsultsModel.model_type m = None →
  out (EnsembleInsultsAgent.batch_act obs a) = Raise TypeError.
Proof.
  intros Hs Hmodels Hpre Hf. unfold EnsembleInsultsAgent.batch_act.
  rewrite bind_get, Hs. unfold Shell.guard_shared. rewrite bind_ret, bind_cases.
  assert (replicate (length obs) [] = rows (map InsultsModel._build_ex obs) [])
    as -> by (by rewrite rows_none, length_map).
  by rewrite Hmodels, (models_loop_familyless obs pre Ps m post Hpre Hf).
Qed.

End EnsembleFamilyless.

Lemma ensemble_with_familyless_adapter_raises_witness :
  ∃ a,
    @EnsembleInsultsAgentMore.__init__ Demo.backend DemoMore.utils DemoMore.saved_files
      DemoMore.ensemble_opt_foo false = Ok a ∧
    out (EnsembleInsultsAgent.batch_act [Demo.turn "hello" true] a) = Raise TypeError.
Proof.
  eexists. split; [vm_compute; reflexivity|].
  eapply (@ensemble_with_familyless_adapter_raises Demo.backend _
            [Demo.turn "hello" true] [_] [[0.9]%float] _ []).
  - reflexivity.
  - reflexivity.
  - repeat constructor; eexists; split; reflexivity.
  - reflexivity.
Defined.
